(** * Alibava_analysis: pedestal / noise estimation, event processing and
      clustering

    Shallow embedding of
      - [analysis_functions.py]: [event_analysis.do_analysis],
        [event_analysis.clustering], [event_analysis.process_event],
        [noise_analysis.noise_calc], [langau.fit_langau],
        [langau.get_clusters], [langau.calc_hist_errors];
      - [analysis_classes/noise_analysis.py]: [NoiseAnalysis.__init__],
        [NoiseAnalysis.detect_noisy_strips], [NoiseAnalysis.noise_calc].

    Python exceptions are an error monad ([outcome]); numpy's scalar
    arithmetic and its reductions are an interface ([Numpy]) so that every
    general theorem holds for whatever rounding numpy performs.  Concrete
    runs are evaluated on IEEE binary64 ([float64], Rocq's primitive floats)
    and, for the float32 arrays of [NoiseAnalysis], on IEEE binary32
    ([float32], the [spec_float] of precision 24).  The one array that
    [do_analysis] shares between all of its results (the hit map) lives in
    an explicit store. *)

From Stdlib Require Import ZArith Floats Sorted.
From stdpp Require Import base tactics option list.

Set Default Proof Using "Type".

(* ===================================================================== *)
(** ** Python: exceptions as an error monad *)
(* ===================================================================== *)

(** [IndexError] and [ValueError] are what numpy indexing and broadcasting
    raise.  [InsufficientDataError] and [DegenerateChannelError] are the
    error names of the specification; no statement of the two source files
    raises them. *)
Inductive exn : Set :=
  | IndexError
  | ValueError
  | InsufficientDataError
  | DegenerateChannelError.

Inductive outcome (A : Type) : Type :=
  | Returns (a : A)
  | Raises (e : exn).
Arguments Returns {A} a.
Arguments Raises {A} e.

#[global] Instance outcome_ret : MRet outcome := fun A a => Returns a.
#[global] Instance outcome_bind : MBind outcome := fun A B f m =>
  match m with
  | Returns a => f a
  | Raises e => Raises e
  end.

(** A [for] loop whose body may raise. *)
Fixpoint foldM {S A : Type} (body : S -> A -> outcome S) (xs : list A) (s : S)
  : outcome S :=
  match xs with
  | [] => Returns s
  | x :: xs' => s' ← body s x; foldM body xs' s'
  end.

Fixpoint forM {A B : Type} (f : A -> outcome B) (xs : list A)
  : outcome (list B) :=
  match xs with
  | [] => Returns []
  | x :: xs' => y ← f x; ys ← forM f xs'; Returns (y :: ys)
  end.

(* ===================================================================== *)
(** ** numpy: 1-d arrays as lists *)
(* ===================================================================== *)

(** [a[i]] for a non-negative [i]; out of range raises [IndexError]. *)
Definition getitem {A : Type} (a : list A) (i : nat) : outcome A :=
  match a !! i with
  | Some x => Returns x
  | None => Raises IndexError
  end.

(** [a[i] = x]; out of range raises [IndexError]. *)
Definition setitem {A : Type} (a : list A) (i : nat) (x : A)
  : outcome (list A) :=
  if bool_decide (i < length a) then Returns (<[i:=x]> a)
  else Raises IndexError.

(** [np.nonzero(mask)[0]]: the positions holding [True], ascending. *)
Fixpoint nonzero_from (k : nat) (mask : list bool) : list nat :=
  match mask with
  | [] => []
  | b :: mask' =>
      if b then k :: nonzero_from (S k) mask' else nonzero_from (S k) mask'
  end.

Definition np_nonzero (mask : list bool) : list nat := nonzero_from 0 mask.

(** [np.take(a, idx)] and [a[idx]] for an index array (mode 'raise'). *)
Definition np_take {A : Type} (a : list A) (idx : list nat)
  : outcome (list A) :=
  forM (getitem a) idx.

(** [x in a] for an integer array [a]. *)
Definition np_contains (x : nat) (a : list nat) : bool :=
  existsb (Nat.eqb x) a.

(** [np.delete(arr, obj)] with an integer index array [obj]: an index
    outside [-n, n) raises [IndexError], a negative one counts from the end,
    duplicates are harmless; the survivors keep their order. *)
Definition wrap_index (n : nat) (i : Z) : Z :=
  if (i <? 0)%Z then (i + Z.of_nat n)%Z else i.

Definition index_ok (n : nat) (i : Z) : bool :=
  ((- Z.of_nat n <=? i) && (i <? Z.of_nat n))%Z.

Fixpoint delete_from {A : Type} (k : nat) (dead : list Z) (arr : list A)
  : list A :=
  match arr with
  | [] => []
  | x :: arr' =>
      if existsb (Z.eqb (Z.of_nat k)) dead
      then delete_from (S k) dead arr'
      else x :: delete_from (S k) dead arr'
  end.

Definition np_delete {A : Type} (arr : list A) (obj : list Z)
  : outcome (list A) :=
  if forallb (index_ok (length arr)) obj
  then Returns (delete_from 0 (map (wrap_index (length arr)) obj) arr)
  else Raises IndexError.

(** Elementwise binary operation on two 1-d arrays with numpy's
    broadcasting: equal shapes, or one operand of length one; anything else
    raises [ValueError]. *)
Definition broadcast2 {A B C : Type} (f : A -> B -> C)
    (xs : list A) (ys : list B) : outcome (list C) :=
  if length xs =? length ys then Returns (zip_with f xs ys)
  else match xs, ys with
       | [x], _ => Returns (map (f x) ys)
       | _, [y] => Returns (map (fun x => f x y) xs)
       | _, _ => Raises ValueError
       end.

(** [np.concatenate(m, axis=0)] of a 2-d array, read as the sequence of
    its rows: with no row there is nothing to concatenate, a [ValueError]. *)
Definition np_concatenate {A : Type} (rows : list (list A))
  : outcome (list A) :=
  match rows with
  | [] => Raises ValueError
  | _ :: _ => Returns (concat rows)
  end.

(* ===================================================================== *)
(** ** numpy: floating-point scalars and reductions as an interface *)
(* ===================================================================== *)

Class Numpy (F : Type) := {
  fzero : F;                      (* 0.0 *)
  fof_nat : nat -> F;             (* an int literal promoted to float *)
  fadd : F -> F -> F;
  fsub : F -> F -> F;
  fmul : F -> F -> F;
  fdiv : F -> F -> F;
  flt : F -> F -> bool;           (* a < b *)
  fle : F -> F -> bool;           (* a <= b *)
  feq : F -> F -> bool;           (* a == b *)
  fabs : F -> F;                  (* np.abs *)
  fsqrt : F -> F;                 (* np.sqrt *)
  fisnan : F -> bool;             (* np.isnan *)
  fisinf : F -> bool;             (* np.isinf *)
  np_sum : list F -> F;           (* np.add.reduce of a 1-d array, in
                                     numpy's summation order *)
  np_median : list F -> F         (* np.median *)
}.

Section Generic.
Context {F : Type} {NP : Numpy F}.

Definition fgt (a b : F) : bool := flt b a.      (* a > b *)
Definition fge (a b : F) : bool := fle b a.      (* a >= b *)
(** Truth value of a float: [x != 0] (NaN is true). *)
Definition ftruthy (x : F) : bool := negb (feq x fzero).

Definition np_zeros (n : nat) : list F := replicate n fzero.

(** [np.mean]: sum divided by the element count. *)
Definition np_mean (a : list F) : F :=
  fdiv (np_sum a) (fof_nat (length a)).

(** [np.std] (ddof = 0): root of the mean squared deviation from the mean. *)
Definition np_std (a : list F) : F :=
  let mu := np_mean a in
  fsqrt (np_mean (map (fun x => let d := fsub x mu in fmul d d) a)).

(** [a.any()]. *)
Definition np_any (a : list F) : bool := existsb ftruthy a.

(** *** 2-d arrays: a column count and rectangular rows *)

Record ndarray2 := {
  ncols : nat;
  rows : list (list F)
}.

Definition rectangular (m : ndarray2) : Prop :=
  Forall (fun r => length r = ncols m) (rows m).

Definition np_zeros2 (n c : nat) : ndarray2 :=
  {| ncols := c; rows := replicate n (np_zeros c) |}.

Definition column (c : nat) (m : ndarray2) : list F :=
  map (fun r => default fzero (r !! c)) (rows m).

(** [np.add.reduce(m, axis=0)] for one column of a C-ordered array of
    [ncols] columns.  With several columns numpy adds the rows one after the
    other onto a row of 0.0; a single column is one contiguous run, summed
    as a 1-d array. *)
Definition np_sum0 (ncols : nat) (col : list F) : F :=
  if ncols =? 1 then np_sum col else fold_left fadd col fzero.

(** [np.mean(m, axis=0)]: the sums along axis 0 divided by the row count. *)
Definition np_mean0 (m : ndarray2) : list F :=
  map (fun c => fdiv (np_sum0 (ncols m) (column c m))
                     (fof_nat (length (rows m))))
      (seq 0 (ncols m)).

(** [np.std(m, axis=0)] (ddof = 0): the mean along axis 0, the squared
    deviations from it, their mean along axis 0 and its root. *)
Definition np_std0 (m : ndarray2) : list F :=
  map (fun c =>
         let col := column c m in
         let n := fof_nat (length (rows m)) in
         let mu := fdiv (np_sum0 (ncols m) col) n in
         fsqrt (fdiv (np_sum0 (ncols m)
                        (map (fun x => let d := fsub x mu in fmul d d) col))
                     n))
      (seq 0 (ncols m)).

(** [m[:, idx]]. *)
Definition take_columns (m : ndarray2) (idx : list nat) : outcome ndarray2 :=
  rs ← forM (fun r => np_take r idx) (rows m);
  Returns {| ncols := length idx; rows := rs |}.

(** [m[i] = r]: [r] must have the row shape or length one. *)
Definition setrow (m : ndarray2) (i : nat) (r : list F) : outcome ndarray2 :=
  if bool_decide (i < length (rows m)) then
    if length r =? ncols m
    then Returns {| ncols := ncols m; rows := <[i:=r]> (rows m) |}
    else match r with
         | [x] => Returns {| ncols := ncols m;
                             rows := <[i:=replicate (ncols m) x]> (rows m) |}
         | _ => Raises ValueError
         end
  else Raises IndexError.

End Generic.
Arguments ndarray2 F : clear implicits.

(* ===================================================================== *)
(** ** analysis_classes/noise_analysis.py: class NoiseAnalysis *)
(* ===================================================================== *)

(** The arrays that this class allocates are float32 ([F32]); the dataset
    it reads, its pedestal and the arithmetic of [noise_calc] are float64
    ([F]).  [narrow] is the rounding of a float64 to float32, on
    [astype(np.float32)] and on every store into a float32 array; [widen]
    is the exact promotion of a float32 operand that meets a float64 one. *)
Class Float32Casts (F F32 : Type) := {
  narrow : F -> F32;
  widen : F32 -> F
}.

Module NoiseAnalysis.
Section Defs.
Context {F : Type} {NP : Numpy F}.

(** Pedestal line of [NoiseAnalysis.__init__] (and, word for word, of
    [noise_analysis.__init__] in analysis_functions.py):
    [np.mean(self.data['/events/signal'][0:], axis=0)].  Neither constructor
    tests the number of events before it. *)
Definition calc_pedestal (signal : ndarray2 F) : outcome (list F) :=
  Returns (np_mean0 signal).

(** [self.goodevents[0].shape[0]] where
    [self.goodevents = np.nonzero(time >= 0)]. *)
Definition goodevents (time : list F) : list nat :=
  np_nonzero (map (fun t => fge t fzero) time).

(** [detect_noisy_strips(self, Noise, Noise_cut)] with [self.mask = mask], a
    list of Python integers.  With the empty list, the default of
    [Manual_mask], [np.append] promotes the high-noise indices to float64,
    and [np.delete] refuses an array of floats as indices with
    [IndexError], whether or not it holds an entry.  With a mask that is
    not empty the indices stay integers, and the casts to int32 of the two
    returned arrays are the identity on the indices that [np.delete]
    accepted. *)
Definition detect_noisy_strips (mask : list Z) (Noise : list F) (Noise_cut : F)
  : outcome (list Z * list nat) :=
  let good_strips := seq 0 (length Noise) in
  let median_noise := np_median Noise in
  let high_noise_strips :=
    map Z.of_nat
        (np_nonzero (map (fun x => fgt x (fadd median_noise Noise_cut)) Noise))
  in
  let high_noise_strips := high_noise_strips ++ mask in
  good_strips ←
    match mask with
    | [] => Raises IndexError
    | _ :: _ => np_delete good_strips high_noise_strips
    end;
  Returns (high_noise_strips, good_strips).

End Defs.

Section Float32.
Context {F : Type} {NP : Numpy F} {F32 : Type} {NP32 : Numpy F32}
        {FC : Float32Casts F F32}.

(** [np.array(data, dtype=np.float32)]. *)
Definition astype32 (data : ndarray2 F) : ndarray2 F32 :=
  {| ncols := ncols data; rows := map (map narrow) (rows data) |}.

(** One pass of the loop of [noise_calc]: [events] is the float32 signal,
    [pedestal] is float64, so [cm], its mean and spread and [cn] are
    float64; the three stores narrow to float32. *)
Definition noise_calc_body (events : ndarray2 F32) (pedestal : list F)
    (st : ndarray2 F32 * list F32 * list F32) (event : nat)
  : outcome (ndarray2 F32 * list F32 * list F32) :=
  let '(score, CMnoise, CMsig) := st in
  row ← getitem (rows events) event;
  cm ← broadcast2 (fun x p => fsub (widen x) p) row pedestal;
  let CMNsig := np_std cm in
  let CMN := np_mean cm in
  let cn := map (fun x => fsub x CMN) cm in
  score' ← setrow score event (map narrow cn);
  CMnoise' ← setitem CMnoise event (narrow CMN);
  CMsig' ← setitem CMsig event (narrow CMNsig);
  Returns (score', CMnoise', CMsig').

(** [noise_calc(self, events, pedestal, numevents, numchannels)]; [ngood] is
    [self.goodevents[0].shape[0]], the bound of the loop. *)
Definition noise_calc (ngood : nat) (events : ndarray2 F32)
    (pedestal : list F) (numevents numchannels : nat)
  : outcome (ndarray2 F32 * list F32 * list F32) :=
  foldM (noise_calc_body events pedestal) (seq 0 ngood)
        (np_zeros2 numevents numchannels, np_zeros numevents,
         np_zeros numevents).

(** The attributes that [__init__] leaves on the object (the logger and
    the configuration values omitted). *)
Record obj := {
  numchan : nat;
  numevents : nat;
  pedestal : list F;
  signal : ndarray2 F32;
  noise : list F32;
  CMnoise : list F32;
  CMsig : list F32;
  score : ndarray2 F32;
  score_raw : ndarray2 F32;
  noisy_strips : list Z;
  good_strips : list nat;
  total_noise : list F32
}.

(** [__init__] from the point where the file has been read, branch
    [not self.optimize] (the other branch calls [nb_noise_calc], which is
    not part of these files).  [data] is [self.data['/events/signal']] as
    float64 (ADC counts are integers), [time] is
    [self.data['/events/time']], [header_len] is
    [len(data["header/pedestal"][0])], and [noise_cut] is [self.noise_cut],
    a cut that float32 holds exactly, as the default [5.] is: added to the
    float32 median and compared with the float32 noise.  The noise has
    float32 arithmetic throughout ([np.std] of a float32 array).  The last
    statement concatenates the rows of [self.score], which still is the
    array of zeros with one row per event of good timing. *)
Definition init (header_len : nat) (time : list F) (data : ndarray2 F)
    (noise_cut : F32) (mask : list Z) : outcome obj :=
  let numchan := header_len in
  let numevents := length (rows data) in
  let ngood := length (goodevents time) in
  let score := np_zeros2 ngood numchan in
  pedestal ← calc_pedestal data;
  let signal := astype32 data in
  '(score_raw, CMnoise, CMsig) ←
     noise_calc ngood signal pedestal numevents numchan;
  let noise := np_std0 score_raw in
  '(noisy_strips, good_strips) ← detect_noisy_strips mask noise noise_cut;
  signal2 ← take_columns signal good_strips;
  pedestal2 ← np_take pedestal good_strips;
  '(score_raw, CMnoise, CMsig) ←
     noise_calc ngood signal2 pedestal2 numevents (length good_strips);
  total_noise ← np_concatenate (rows score);
  Returns {| numchan := numchan; numevents := numevents;
             pedestal := pedestal; signal := signal; noise := noise;
             CMnoise := CMnoise; CMsig := CMsig; score := score;
             score_raw := score_raw;
             noisy_strips := noisy_strips; good_strips := good_strips;
             total_noise := total_noise |}.

End Float32.
Arguments obj : clear implicits.
End NoiseAnalysis.

(* ===================================================================== *)
(** ** analysis_functions.py: class event_analysis *)
(* ===================================================================== *)

Module EventAnalysis.
Section Defs.
Context {F : Type} {NP : Numpy F}.

(** The attributes of [self] read or written by the three methods.
    [material] is the truth value of [self.material] (1 for "n-in-p");
    [cfg_min]/[cfg_max] are the attributes [self.min]/[self.max]. *)
Record self := {
  numchan : nat;
  pedestal : list F;
  noise : list F;
  SN_cut : F;
  tmin : F;
  tmax : F;
  cfg_min : option F;
  cfg_max : option F;
  CMN : list F;
  CMsig : list F;
  automasked_hit : nat;
  events : nat;
  material : bool;
  masking : bool;
  max_clustersize : nat;
  SN_ratio : F;
  SN_cluster : F
}.

(** The keyword arguments of [__init__] ([None] = key absent). *)
Record kwargs := {
  kw_sensor_type_n_in_p : option bool;
  kw_automasking : option bool;
  kw_max_cluster_size : option nat;
  kw_SN_ratio : option F;
  kw_SN_cluster : option F;
  kw_pedestal : option (list F);
  kw_SN_cut : option F;
  kw_CMN : option (list F);
  kw_CMsig : option (list F);
  kw_Noise : option (list F);
  kw_timing : option (F * F)
}.

(** Parameter part of [__init__] (lines 41-101).  The "timing" window goes to
    [self.min]/[self.max]; [self.tmin] keeps its initial 0. *)
Definition init (nchan : nat) (kw : kwargs) : self :=
  {| numchan := nchan;
     pedestal := default (np_zeros nchan) (kw_pedestal kw);
     noise := default (np_zeros nchan) (kw_Noise kw);
     SN_cut := default (fof_nat 1) (kw_SN_cut kw);
     tmin := fof_nat 0;
     tmax := fof_nat 100;
     cfg_min := fst <$> kw_timing kw;
     cfg_max := snd <$> kw_timing kw;
     CMN := default (np_zeros nchan) (kw_CMN kw);
     CMsig := default (np_zeros nchan) (kw_CMsig kw);
     automasked_hit := 0;
     events := 0;
     material := default true (kw_sensor_type_n_in_p kw);
     masking := default false (kw_automasking kw);
     max_clustersize := default 5 (kw_max_cluster_size kw);
     SN_ratio := default (fdiv (fof_nat 1) (fof_nat 2)) (kw_SN_ratio kw);
     SN_cluster := default (fof_nat 6) (kw_SN_cluster kw) |}.

Definition set_automasked_hit (s : self) (n : nat) : self :=
  {| numchan := numchan s; pedestal := pedestal s; noise := noise s;
     SN_cut := SN_cut s; tmin := tmin s; tmax := tmax s;
     cfg_min := cfg_min s; cfg_max := cfg_max s; CMN := CMN s;
     CMsig := CMsig s; automasked_hit := n; events := events s;
     material := material s; masking := masking s;
     max_clustersize := max_clustersize s; SN_ratio := SN_ratio s;
     SN_cluster := SN_cluster s |}.

Definition set_events (s : self) (n : nat) : self :=
  {| numchan := numchan s; pedestal := pedestal s; noise := noise s;
     SN_cut := SN_cut s; tmin := tmin s; tmax := tmax s;
     cfg_min := cfg_min s; cfg_max := cfg_max s; CMN := CMN s;
     CMsig := CMsig s; automasked_hit := automasked_hit s; events := n;
     material := material s; masking := masking s;
     max_clustersize := max_clustersize s; SN_ratio := SN_ratio s;
     SN_cluster := SN_cluster s |}.

(** *** process_event *)

(** [process_event(self, event, pedestal, meanCMN, meanCMsig, noise, numchan)]
    returns [(corrsignal, SN, cmpro, sigpro)]. *)
Definition process_event (event pedestal : list F) (meanCMN meanCMsig : F)
    (noise : list F) (numchan : nat)
  : outcome (list F * list F * F * F) :=
  signal ← broadcast2 fsub event pedestal;
  let limit := fadd (fmul (fof_nat 5) meanCMsig) meanCMN in
  prosignal ← np_take signal (np_nonzero (map (fun x => flt x limit) signal));
  if np_any prosignal then
    let cmpro := np_mean prosignal in
    let sigpro := np_std prosignal in
    let corrsignal := map (fun x => fsub x cmpro) signal in
    SN ← broadcast2 fdiv corrsignal noise;
    Returns (corrsignal, SN, cmpro, sigpro)
  else
    Returns (np_zeros numchan, np_zeros numchan, fof_nat 0, fof_nat 0).

(** *** clustering *)

(** The locals of the neighbour search of one seed. *)
Record growth := {
  cluster : list nat;
  used : list bool;
  size : nat;
  right_stop : bool;
  left_stop : bool
}.

(** One side of one step of the search: the [if ... elif ...] on channel
    [c] with stop flag [stop]; gives the new cluster, used marks, size and
    stop flag. *)
Definition examine (s : self) (SN : list F) (valid_ind : list nat) (c : nat)
    (stop : bool) (cl : list nat) (us : list bool) (sz : nat)
  : outcome (list nat * list bool * nat * bool) :=
  let limit := fmul (SN_cut s) (SN_ratio s) in
  sn ← getitem SN c;
  let above := fgt (fabs sn) limit in
  free ← (if above then u ← getitem us c; Returns (negb u)
          else Returns false);
  if above && free && np_contains c valid_ind && negb stop then
    us' ← setitem us c true;
    Returns (cl ++ [c], us', S sz, stop)
  else
    sn' ← getitem SN c;
    if flt (fabs sn') limit then Returns (cl, us, sz, true)
    else Returns (cl, us, sz, stop).

(** Body of [for i in range(1, offset+1)].  On naturals [ch - i] is
    truncated, and [0 < ch - i] holds exactly when it does on integers. *)
Definition grow_body (s : self) (SN : list F) (valid_ind : list nat) (ch : nat)
    (g : growth) (i : nat) : outcome growth :=
  if (0 <? ch - i) && (ch + i <? numchan s) then
    '(cl, us, sz, rs) ←
       examine s SN valid_ind (ch + i) (right_stop g)
               (cluster g) (used g) (size g);
    '(cl, us, sz, ls) ← examine s SN valid_ind (ch - i) (left_stop g) cl us sz;
    Returns {| cluster := cl; used := us; size := sz;
               right_stop := rs; left_stop := ls |}
  else Returns g.

(** [offset = int(self.max_clustersize * 0.5)]. *)
Definition offset (s : self) : nat := max_clustersize s / 2.

Definition grow (s : self) (SN : list F) (valid_ind : list nat) (ch : nat)
    (us : list bool) : outcome growth :=
  foldM (grow_body s SN valid_ind ch) (seq 1 (offset s))
        {| cluster := [ch]; used := us; size := 1;
           right_stop := false; left_stop := false |}.

(** [SNcluster > self.SN_cluster]. *)
Definition accepts (s : self) (vals : list F) : bool :=
  fgt (fsqrt (fabs (np_sum vals))) (SN_cluster s).

(** The locals of the loop over the seeds.  [used_channels] holds the truth
    values of the 0./1. marks.  [ghost_candidates] is not a variable of the
    program: it logs every candidate cluster with the result of its
    acceptance test, and nothing reads it. *)
Record cl_state := {
  used_channels : list bool;
  numclus : nat;
  clusters_list : list (list nat);
  clustersize : list nat;
  ghost_candidates : list (list nat * bool)
}.

(** Body of [for ch in channels]. *)
Definition seed_step (s : self) (event SN : list F) (valid_ind : list nat)
    (st : cl_state) (ch : nat) : outcome cl_state :=
  u ← getitem (used_channels st) ch;
  if (u : bool) then Returns st
  else
    us ← setitem (used_channels st) ch true;
    g ← grow s SN valid_ind ch us;
    vals ← np_take event (cluster g);
    if accepts s vals then
      Returns {| used_channels := used g;
                 numclus := S (numclus st);
                 clusters_list := clusters_list st ++ [cluster g];
                 clustersize := clustersize st ++ [size g];
                 ghost_candidates := ghost_candidates st ++ [(cluster g, true)] |}
    else
      Returns {| used_channels := used g;
                 numclus := numclus st;
                 clusters_list := clusters_list st;
                 clustersize := clustersize st;
                 ghost_candidates :=
                   ghost_candidates st ++ [(cluster g, false)] |}.

(** The automasking block (lines 225-238): new [channels], [valid_ind] and
    [self.automasked_hit]. *)
Definition automask (s : self) (event : list F) (channels : list nat)
  : outcome (list nat * list nat * nat) :=
  if masking s then
    let wrong (x : F) := if material s then fgt x fzero else flt x fzero in
    let right (x : F) := if material s then flt x fzero else fgt x fzero in
    vals ← np_take event channels;
    let masked_ind := np_nonzero (map wrong vals) in
    let valid_ind := np_nonzero (map right event) in
    if 0 <? length masked_ind then
      channels' ← np_delete channels (map Z.of_nat masked_ind);
      Returns (channels', valid_ind, automasked_hit s + length masked_ind)
    else Returns (channels, valid_ind, automasked_hit s)
  else Returns (channels, seq 0 (length event), automasked_hit s).

(** [np.nonzero(np.abs(SN) > self.SN_cut)[0]]: the seeds. *)
Definition seed_channels (s : self) (SN : list F) : list nat :=
  np_nonzero (map (fun x => fgt (fabs x) (SN_cut s)) SN).

(** [clustering] up to its [return]: new [self], [channels] and the final
    locals of the loop. *)
Definition clustering_run (s : self) (event SN : list F)
  : outcome (self * list nat * cl_state) :=
  let channels := seed_channels s SN in
  '(channels, valid_ind, masked) ← automask s event channels;
  let s' := set_automasked_hit s masked in
  st ← foldM (seed_step s' event SN valid_ind) channels
         {| used_channels := replicate (numchan s') false;
            numclus := 0; clusters_list := []; clustersize := [];
            ghost_candidates := [] |};
  Returns (s', channels, st).

(** [clustering(self, event, SN)]: new [self] and
    [(channels, clusters_list, numclus, clustersize)]. *)
Definition clustering (s : self) (event SN : list F)
  : outcome (self * (list nat * list (list nat) * nat * list nat)) :=
  '(s', channels, st) ← clustering_run s event SN;
  Returns (s', (channels, clusters_list st, numclus st, clustersize st)).

(** *** do_analysis *)

(** One entry of [prodata].  [r_hitmap] is a reference: the entry holds the
    array object [hitmap] itself, whose contents are in the store. *)
Record event_result := {
  r_signal : list F;
  r_SN : list F;
  r_CMN : F;
  r_CMsig : F;
  r_hitmap : nat;
  r_channels_hit : list nat;
  r_clusters : list (list nat);
  r_numclus : nat;
  r_clustersize : list nat
}.

(** The store of array objects; a reference is a position in it. *)
Definition store := list (list F).

Definition alloc (st : store) (a : list F) : nat * store :=
  (length st, st ++ [a]).

(** [hitmap[int(channel)] += 1] on the array that [ref] points to. *)
Definition hit (ref : nat) (st : store) (channel : nat) : outcome store :=
  a ← getitem st ref;
  x ← getitem a channel;
  a' ← setitem a channel (fadd x (fof_nat 1));
  setitem st ref a'.

(** Body of [for event in range(gtime[0].shape[0])], branch
    [not self.usejit]. *)
Definition analysis_body (events : ndarray2 F) (meanCMN meanCMsig : F)
    (hitmap : nat) (acc : self * store * list event_result) (event : nat)
  : outcome (self * store * list event_result) :=
  let '(s, st, prodata) := acc in
  raw ← getitem (rows events) event;
  '(signal, SN, CMN, CMsig) ←
     process_event raw (pedestal s) meanCMN meanCMsig (noise s) (numchan s);
  '(s', (channels_hit, clusters, numclus, clustersize)) ←
     clustering s signal SN;
  st' ← foldM (hit hitmap) channels_hit st;
  Returns (s', st',
           prodata ++ [{| r_signal := signal; r_SN := SN; r_CMN := CMN;
                          r_CMsig := CMsig; r_hitmap := hitmap;
                          r_channels_hit := channels_hit;
                          r_clusters := clusters; r_numclus := numclus;
                          r_clustersize := clustersize |}]).

(** [do_analysis(self, events, timing)], branch [not self.usejit] (the other
    branch hands the whole loop to [parallel_event_processing], which is not
    part of these files). *)
Definition do_analysis (s : self) (st : store) (raw_events : ndarray2 F)
    (timing : list F) : outcome (self * store * list event_result) :=
  let gtime := np_nonzero (map (fun t => fgt t (tmin s)) timing) in
  let s := set_events s (events s + length gtime) in
  let meanCMN := np_mean (CMN s) in
  let meanCMsig := np_mean (CMsig s) in
  let '(hitmap, st) := alloc st (np_zeros (numchan s)) in
  foldM (analysis_body raw_events meanCMN meanCMsig hitmap)
        (seq 0 (length gtime)) (s, st, []).

(** What a reader of [prodata] sees in the hit-map slot of an entry. *)
Definition hitmap_of (st : store) (r : event_result) : option (list F) :=
  st !! r_hitmap r.

End Defs.
Arguments self F : clear implicits.
Arguments kwargs F : clear implicits.
Arguments event_result F : clear implicits.
Arguments store F : clear implicits.
End EventAnalysis.

(* ===================================================================== *)
(** ** analysis_functions.py: class noise_analysis *)
(* ===================================================================== *)

Module OldNoiseAnalysis.
Section Defs.
Context {F : Type} {NP : Numpy F}.

(** One pass of the loop of [noise_calc].  The three arrays are arrays of
    float64, the type of the values stored in them. *)
Definition noise_calc_body (events : ndarray2 F) (pedestal : list F)
    (st : ndarray2 F * list F * list F) (event : nat)
  : outcome (ndarray2 F * list F * list F) :=
  let '(score, CMnoise, CMsig) := st in
  row ← getitem (rows events) event;
  cm ← broadcast2 fsub row pedestal;
  let CMNsig := np_std cm in
  let CMN := np_mean cm in
  let cn := map (fun x => fsub x CMN) cm in
  score' ← setrow score event cn;
  CMnoise' ← setitem CMnoise event CMN;
  CMsig' ← setitem CMsig event CMNsig;
  Returns (score', CMnoise', CMsig').

(** [noise_calc(self, events, pedestal, numevents, numchannels)]; [ngood] is
    [self.goodevents[0].shape[0]], the bound of the loop. *)
Definition noise_calc (ngood : nat) (events : ndarray2 F) (pedestal : list F)
    (numevents numchannels : nat)
  : outcome (ndarray2 F * list F * list F) :=
  foldM (noise_calc_body events pedestal) (seq 0 ngood)
        (np_zeros2 numevents numchannels, np_zeros numevents,
         np_zeros numevents).

End Defs.
End OldNoiseAnalysis.

(* ===================================================================== *)
(** ** analysis_functions.py: class langau *)
(* ===================================================================== *)

Module Langau.
Section Defs.
Context {F : Type} {NP : Numpy F}.

(** [get_clusters(self, data, num_cluster)]:
    [np.nonzero(data["Numclus"] == num_cluster)], the one array of the
    returned tuple. *)
Definition get_clusters (Numclus : list nat) (num_cluster : nat) : list nat :=
  np_nonzero (map (fun n => n =? num_cluster) Numclus).

(** [np.where((x >= ind) & (x < (binsize+ind)))[0]]. *)
Definition ind_where_bin (x : list F) (binsize ind : F) : list nat :=
  np_nonzero (map (fun v => fge v ind && flt v (fadd binsize ind)) x).

(** [a.any()] for an array of indices: some entry is not 0. *)
Definition any_index (a : list nat) : bool :=
  existsb (fun i => negb (i =? 0)) a.

(** Body of [for ind in bins] of [calc_hist_errors]; the state is
    [errorBins] and [iter]. *)
Definition hist_errors_body (x errors bins : list F) (binsize : F)
    (st : list F * nat) (ind : F) : outcome (list F * nat) :=
  let '(errorBins, iter) := st in
  last ← getitem bins (length bins - 1);
  if negb (feq ind last) then
    let where_bin := ind_where_bin x binsize ind in
    errorBins' ←
      (if any_index where_bin then
         vals ← np_take errors where_bin;
         setitem errorBins iter (np_mean vals)
       else Returns errorBins);
    Returns (errorBins', S iter)
  else Returns (errorBins, iter).

(** [calc_hist_errors(self, x, errors, bins)].  [np.zeros(len(bins)-1)] of
    an empty [bins] is [np.zeros(-1)], a [ValueError]. *)
Definition calc_hist_errors (x errors bins : list F) : outcome (list F) :=
  if length bins =? 0 then Raises ValueError
  else
    let errorBins := np_zeros (length bins - 1) in
    b1 ← getitem bins 1;
    b0 ← getitem bins 0;
    let binsize := fsub b1 b0 in
    '(errorBins, _) ←
       foldM (hist_errors_body x errors bins binsize) bins (errorBins, 0);
    Returns errorBins.

(** *** fit_langau *)

(** The two library routines that [fit_langau] calls: [np.histogram(x,
    bins=bins)], giving counts and edges, and [curve_fit(pylandau.langau,
    xdata, ydata, absolute_sigma=True, p0=p0, bounds=(1, 60000))], giving
    the four coefficients and their covariance.  Either may raise an
    exception of its own, of type [LibErr]. *)
Context {Cov LibErr : Type}.
Variable np_histogram : list F -> nat -> LibErr + list F * list F.
Variable curve_fit :
  list F -> list F -> F * F * F * F -> LibErr + F * F * F * F * Cov.

(** How [fit_langau] ends: with its tuple, with an exception of
    [calc_hist_errors], or with one raised inside a library routine. *)
Inductive ended (A : Type) : Type :=
  | Value (a : A)
  | Raised (e : exn)
  | LibraryRaised (e : LibErr).

(** The [while not converged] loop; [fuel] bounds the number of passes of
    the model ([None] when it runs out), [iter], [p0] and [oldmpv] are the
    variables of the program.  The result carries the last [coeff] and
    [pcov], the final [iter] and whether the warning was issued. *)
Fixpoint fit_loop (fuel : nat) (xdata ydata : list F) (iter : nat)
    (p0 : F * F * F * F) (oldmpv : F)
  : option (LibErr + F * F * F * F * Cov * nat * bool) :=
  match fuel with
  | 0 => None
  | S fuel' =>
      let iter := S iter in
      match curve_fit xdata ydata p0 with
      | inl e => Some (inl e)
      | inr (coeff, pcov) =>
          let mpv := coeff.1.1.1 in
          let moved := fgt (fabs (fsub mpv oldmpv)) (fof_nat 100) in
          let p0' := if moved then coeff else p0 in
          let oldmpv' := if moved then mpv else oldmpv in
          if 50 <? iter then Some (inr (coeff, pcov, iter, true))
          else if negb moved then Some (inr (coeff, pcov, iter, false))
          else fit_loop fuel' xdata ydata iter p0' oldmpv'
      end
  end.

(** [fit_langau(self, x, errors, ind_xmin, bins)]: [(coeff, pcov, hist,
    binerror)], for an [ind_xmin] that is not negative. *)
Definition fit_langau (fuel : nat) (x errors : list F) (ind_xmin bins : nat)
  : option (ended (F * F * F * F * Cov * list F * list F)) :=
  match np_histogram x bins with
  | inl e => Some (LibraryRaised _ e)
  | inr (hist, edges) =>
      match calc_hist_errors x errors edges with
      | Raises e => Some (Raised _ e)
      | Returns binerror =>
          let xdata := drop ind_xmin (take (length edges - 1) edges) in
          let ydata := drop ind_xmin hist in
          match fit_loop fuel xdata ydata 0
                  (fof_nat (170 * 100), fof_nat 6, fof_nat 2, fof_nat 800)
                  (fof_nat 0)
          with
          | None => None
          | Some (inl e) => Some (LibraryRaised _ e)
          | Some (inr (coeff, pcov, _, _)) =>
              Some (Value _ (coeff, pcov, hist, binerror))
          end
      end
  end.

End Defs.
End Langau.

(* ===================================================================== *)
(** ** Sub-expressions of the source that the statements below name *)
(* ===================================================================== *)

Section Named.
Context {F : Type} {NP : Numpy F}.

(** [5*meanCMsig + meanCMN]. *)
Definition trim_limit (meanCMN meanCMsig : F) : F :=
  fadd (fmul (fof_nat 5) meanCMsig) meanCMN.

(** The trimmed subset of a pedestal-subtracted event. *)
Definition trimmed (signal : list F) (meanCMN meanCMsig : F) : list F :=
  List.filter (fun x => flt x (trim_limit meanCMN meanCMsig)) signal.

(** The channels whose noise exceeds median + cut, strictly. *)
Definition high_noise (Noise : list F) (Noise_cut : F) : list nat :=
  np_nonzero (map (fun x => fgt x (fadd (np_median Noise) Noise_cut)) Noise).

(** The signal of channel [ch] is positive. *)
Definition positive_at (event : list F) (ch : nat) : bool :=
  match event !! ch with
  | Some x => fgt x fzero
  | None => false
  end.

(** The signal of channel [ch] is negative. *)
Definition negative_at (event : list F) (ch : nat) : bool :=
  match event !! ch with
  | Some x => flt x fzero
  | None => false
  end.

(** Channel [c] is [i] channels to the right or to the left of [seed], for
    an [i] of the neighbour search that passes its bounds test. *)
Definition neighbour_of (s : EventAnalysis.self F) (seed c : nat) : Prop :=
  exists i, 1 <= i <= EventAnalysis.offset s /\
            0 < seed - i /\ seed + i < EventAnalysis.numchan s /\
            (c = seed + i \/ c = seed - i).

(** The error that [calc_hist_errors] writes for the bin that starts at
    edge [b]: the mean of the errors of the data points in the bin if one of
    their indices is not 0, and the initial 0.0 otherwise. *)
Definition bin_error (x errors : list F) (binsize b : F) : F :=
  if Langau.any_index (Langau.ind_where_bin x binsize b)
  then np_mean (map (fun i => default fzero (errors !! i))
                    (Langau.ind_where_bin x binsize b))
  else fzero.

(** What a result of the loop entered with [iter] satisfies: it ran at
    least one more fit and no more than 51 in all, and the warning was
    issued exactly when the count reached 51. *)
Definition fit_result_ok {Cov LibErr : Type} (iter : nat)
    (r : LibErr + F * F * F * F * Cov * nat * bool) : Prop :=
  match r with
  | inr (_, _, iter', warned) =>
      iter < iter' <= 51 /\ warned = (50 <? iter')
  | inl _ => True
  end.

(** The S/N of channel [c] is below the neighbour limit
    [SN_cut * SN_ratio] in absolute value (and, as for every number, not
    above it). *)
Definition below_limit (s : EventAnalysis.self F) (SN : list F) (c : nat)
  : Prop :=
  exists sn, SN !! c = Some sn /\
    fgt (fabs sn) (fmul (EventAnalysis.SN_cut s) (EventAnalysis.SN_ratio s))
      = false /\
    flt (fabs sn) (fmul (EventAnalysis.SN_cut s) (EventAnalysis.SN_ratio s))
      = true.

(** A cluster [seed :: rest] does not reach beyond a channel below the
    limit: if the channel [i] places to the right of the seed was looked at
    and found below the limit, no channel from there on to the right is in
    the cluster; and the same to the left. *)
Definition stops_at_gaps (s : EventAnalysis.self F) (SN : list F)
    (seed : nat) (rest : list nat) : Prop :=
  forall i, 1 <= i <= EventAnalysis.offset s -> 0 < seed - i ->
    seed + i < EventAnalysis.numchan s ->
    (below_limit s SN (seed + i) -> forall c, c ∈ rest -> c < seed + i) /\
    (below_limit s SN (seed - i) -> forall c, c ∈ rest -> seed - i < c).

End Named.


(* ===================================================================== *)
(** ** Shapes and loop invariants *)
(* ===================================================================== *)

(** All channels of all candidates, in the order they were claimed. *)
Definition members (cands : list (list nat * bool)) : list nat :=
  concat (map fst cands).

Section Invariants.
Context {F : Type} {NP : Numpy F}.
Import EventAnalysis.

(** The shape of the three arrays that [noise_calc] builds. *)
Definition noise_shape (numevents numchannels : nat)
    (st : ndarray2 F * list F * list F) : Prop :=
  ncols st.1.1 = numchannels /\ length (rows st.1.1) = numevents /\
  rectangular st.1.1 /\ length st.1.2 = numevents /\ length st.2 = numevents.

(** What holds of the cluster under construction around seed [ch], where
    [us0] are the marks right after the seed was marked. *)
Definition grown (ch : nat) (valid_ind : list nat) (us0 : list bool)
    (cl : list nat) (us : list bool) (sz : nat) : Prop :=
  exists rest,
    cl = ch :: rest /\ NoDup cl /\
    (forall c, c ∈ rest ->
       us0 !! c = Some false /\ np_contains c valid_ind = true) /\
    sz = length cl /\
    (forall c, us !! c = if decide (c ∈ rest) then Some true else us0 !! c).

(** A logged candidate: a seed of the loop followed by valid neighbours, at
    most [2 * offset] of them, logged with the result of the acceptance test
    on its signal values. *)
Definition candidate_ok (s : self F) (event : list F)
    (channels valid_ind : list nat) (cb : list nat * bool) : Prop :=
  exists seed rest,
    cb.1 = seed :: rest /\ NoDup cb.1 /\ seed ∈ channels /\
    (forall c, c ∈ rest -> np_contains c valid_ind = true) /\
    length rest <= 2 * offset s /\
    exists vals, np_take event cb.1 = Returns vals /\ cb.2 = accepts s vals.

(** The invariant of [for ch in channels]. *)
Definition loop_inv (s : self F) (event : list F)
    (channels valid_ind : list nat) (st : cl_state) : Prop :=
  NoDup (members (ghost_candidates st)) /\
  (forall c, used_channels st !! c = Some true <->
             c ∈ members (ghost_candidates st)) /\
  Forall (candidate_ok s event channels valid_ind) (ghost_candidates st) /\
  clusters_list st = map fst (List.filter snd (ghost_candidates st)) /\
  numclus st = length (clusters_list st) /\
  clustersize st = map length (clusters_list st).

(** The array [used_channels] when exactly the channels of [taken] are
    marked. *)
Definition marked (nchan : nat) (taken : list nat) : list bool :=
  map (fun c => bool_decide (c ∈ taken)) (seq 0 nchan).

(** Candidate number [i] of the candidates [cands] of one event: its seed
    is the first channel of [channels] that no earlier candidate holds; its
    channels are what the neighbour search of the program returns from that
    seed on the marks of all earlier candidates, accepted or not; and it is
    logged with the result of the acceptance test on its signal. *)
Definition formed_by (s : self F) (event SN : list F)
    (channels valid_ind : list nat) (cands : list (list nat * bool))
    (i : nat) (cb : list nat * bool) : Prop :=
  let taken := members (take i cands) in
  exists seed before after rest g vals,
    channels = before ++ seed :: after /\
    Forall (fun c => c ∈ taken) before /\
    (seed ∉ taken) /\
    grow s SN valid_ind seed (<[seed:=true]> (marked (numchan s) taken))
      = Returns g /\
    cluster g = seed :: rest /\
    cb.1 = cluster g /\
    np_take event (cluster g) = Returns vals /\
    cb.2 = fgt (fsqrt (fabs (np_sum vals))) (SN_cluster s).

(** The loop over the seeds after the channels [done]: the marks are those
    of the candidates formed so far, every channel passed is in one of
    them, and each was formed as [formed_by] says. *)
Definition trace_inv (s : self F) (event SN : list F)
    (channels valid_ind done : list nat) (st : cl_state) : Prop :=
  length (used_channels st) = numchan s /\
  loop_inv s event channels valid_ind st /\
  (forall ch, ch ∈ done -> ch ∈ members (ghost_candidates st)) /\
  (forall i cb, ghost_candidates st !! i = Some cb ->
     formed_by s event SN channels valid_ind (ghost_candidates st) i cb).

(** The marks cover the detector and the cluster lies within it. *)
Definition growth_fits (nchan : nat) (g : growth) : Prop :=
  length (used g) = nchan /\ Forall (fun c => c < nchan) (cluster g).

(** The result appended by pass [k] of the loop: the processing of row [k]
    of the batch, holding the reference [hitmap]. *)
Definition result_of_row (s : self F) (raw_events : ndarray2 F)
    (meanCMN meanCMsig : F) (hitmap k : nat) (r : event_result F) : Prop :=
  r_hitmap r = hitmap /\
  exists raw cmn cmsig,
    rows raw_events !! k = Some raw /\
    process_event raw (pedestal s) meanCMN meanCMsig (noise s) (numchan s)
      = Returns (r_signal r, r_SN r, cmn, cmsig).

(** After [n] passes of the loop of [noise_calc]: rows and entries below
    [n] hold the residuals, the common mode and its spread of the event of
    the same index; those from [n] on are still zero. *)
Definition noise_filled (events : ndarray2 F) (pedestal : list F)
    (numevents numchannels n : nat) (st : ndarray2 F * list F * list F)
  : Prop :=
  forall e, e < numevents ->
    (e < n ->
     exists row, rows events !! e = Some row /\
       rows st.1.1 !! e
         = Some (map (fun x => fsub x (np_mean (zip_with fsub row pedestal)))
                     (zip_with fsub row pedestal)) /\
       st.1.2 !! e = Some (np_mean (zip_with fsub row pedestal)) /\
       st.2 !! e = Some (np_std (zip_with fsub row pedestal))) /\
    (n <= e ->
     rows st.1.1 !! e = Some (np_zeros numchannels) /\
     st.1.2 !! e = Some fzero /\ st.2 !! e = Some fzero).

(** The array behind [ref] has one counter per channel, and the counter of
    channel [c] has been incremented once for each occurrence of [c] in
    [seen]. *)
Definition hitmap_counts (nchan ref : nat) (st : store F) (seen : list nat)
  : Prop :=
  exists h, st !! ref = Some h /\ length h = nchan /\
    forall c, c < nchan ->
      h !! c = Some (Nat.iter (count_occ Nat.eq_dec seen c)
                              (fun x => fadd x (fof_nat 1)) fzero).

(** The state of the search of seed [ch] after the passes 1 .. [k]: every
    neighbour is within [k] places, and a side on which a channel below the
    limit was looked at is stopped and has no neighbour from that channel
    on. *)
Definition searched (s : self F) (SN : list F) (ch k : nat) (g : growth)
  : Prop :=
  exists rest, cluster g = ch :: rest /\
    (forall c, c ∈ rest -> ch - k <= c <= ch + k) /\
    (forall i, 1 <= i <= k -> 0 < ch - i -> ch + i < numchan s ->
       (below_limit s SN (ch + i) ->
        right_stop g = true /\ forall c, c ∈ rest -> c < ch + i) /\
       (below_limit s SN (ch - i) ->
        left_stop g = true /\ forall c, c ∈ rest -> ch - i < c)).

End Invariants.

(* ===================================================================== *)
(** ** IEEE binary64 as an instance of the interface *)
(* ===================================================================== *)

(** numpy's summation of a contiguous 1-d array (the [pairwise_sum] of its
    add loop).  Below 8 elements: a plain loop from 0.0.  Up to 128 elements:
    eight running sums [r[0..7]], started with the first 8 elements and fed
    with the further whole blocks of 8, added up as
    [((r0+r1)+(r2+r3))+((r4+r5)+(r6+r7))], then the elements after the last
    whole block one by one.  Above 128: the array is split at the multiple of
    8 at or below the middle, and the sums of the two parts are added. *)
Section PairwiseSum.
Context {A : Type} (add : A -> A -> A) (zero : A).

(** The consecutive blocks of 8 of [a]; [fuel] bounds their number. *)
Fixpoint blocks_of_8 (fuel : nat) (a : list A) : list (list A) :=
  match fuel, a with
  | 0, _ | _, [] => []
  | S fuel', _ => take 8 a :: blocks_of_8 fuel' (drop 8 a)
  end.

Definition sum_unrolled (a : list A) : A :=
  let n := length a in
  let whole := take (n - n mod 8) a in
  let rest := drop (n - n mod 8) a in
  match fold_left (zip_with add) (blocks_of_8 n (drop 8 whole)) (take 8 whole)
  with
  | [r0; r1; r2; r3; r4; r5; r6; r7] =>
      fold_left add rest
        (add (add (add r0 r1) (add r2 r3)) (add (add r4 r5) (add r6 r7)))
  | _ => fold_left add a zero          (* fewer than 8 elements *)
  end.

(** [fuel] bounds the depth of the splitting; the length of the array is
    more than enough. *)
Fixpoint pairwise_sum (fuel : nat) (a : list A) : A :=
  let n := length a in
  if n <? 8 then fold_left add a zero
  else if n <=? 128 then sum_unrolled a
  else match fuel with
       | 0 => sum_unrolled a
       | S fuel' =>
           let n2 := n / 2 - (n / 2) mod 8 in
           add (pairwise_sum fuel' (take n2 a)) (pairwise_sum fuel' (drop n2 a))
       end.

(** [np.add.reduce(a)]: the sum is added onto the initial 0.0. *)
Definition add_reduce (a : list A) : A :=
  add zero (pairwise_sum (length a) a).

End PairwiseSum.

Module Float64.

Definition of_nat (n : nat) : float :=
  PrimFloat.of_uint63 (Uint63.of_Z (Z.of_nat n)).

(** [np.add.reduce] of a 1-d float64 array. *)
Definition sum (a : list float) : float :=
  add_reduce PrimFloat.add 0%float a.

Fixpoint insert_sorted (x : float) (a : list float) : list float :=
  match a with
  | [] => [x]
  | y :: a' =>
      if PrimFloat.leb x y then x :: a else y :: insert_sorted x a'
  end.

Definition sort (a : list float) : list float := foldr insert_sorted [] a.

(** [np.median]: NaN if any entry is NaN (or the array is empty), else the
    middle of the sorted array, the mean of the two middle entries for an
    even length. *)
Definition median (a : list float) : float :=
  if existsb PrimFloat.is_nan a then nan
  else
    let s := sort a in
    let n := length a in
    if Nat.odd n then nth (n / 2) s nan
    else PrimFloat.div
           (PrimFloat.add (nth (n / 2 - 1) s nan) (nth (n / 2) s nan)) 2%float.

End Float64.

#[global] Instance float64 : Numpy float := {|
  fzero := 0%float;
  fof_nat := Float64.of_nat;
  fadd := PrimFloat.add;
  fsub := PrimFloat.sub;
  fmul := PrimFloat.mul;
  fdiv := PrimFloat.div;
  flt := PrimFloat.ltb;
  fle := PrimFloat.leb;
  feq := PrimFloat.eqb;
  fabs := PrimFloat.abs;
  fsqrt := PrimFloat.sqrt;
  fisnan := PrimFloat.is_nan;
  fisinf := PrimFloat.is_infinity;
  np_sum := Float64.sum;
  np_median := Float64.median
|}.

(* ===================================================================== *)
(** ** IEEE binary32 as an instance of the interface *)
(* ===================================================================== *)

(** binary32 numbers are the [spec_float] of precision 24 and maximal
    exponent 128, with the arithmetic of the Standard Library's
    specification of IEEE 754 (round to nearest, ties to even). *)
Module Float32.

Definition prec : Z := 24.
Definition emax : Z := 128.

(** float64 to float32: the value rounded to 24 bits; zeros, infinities and
    NaN go to their float32 namesakes. *)
Definition of_float (x : float) : spec_float :=
  match Prim2SF x with
  | S754_finite s m e => binary_round prec emax s m e
  | y => y
  end.

(** float32 to float64: exact. *)
Definition to_float (x : spec_float) : float := SF2Prim x.

Definition of_nat (n : nat) : spec_float :=
  binary_normalize prec emax (Z.of_nat n) 0 false.

Definition zero : spec_float := S754_zero false.
Definition add : spec_float -> spec_float -> spec_float := SFadd prec emax.
Definition sub : spec_float -> spec_float -> spec_float := SFsub prec emax.
Definition mul : spec_float -> spec_float -> spec_float := SFmul prec emax.
Definition div : spec_float -> spec_float -> spec_float := SFdiv prec emax.
Definition sqrt : spec_float -> spec_float := SFsqrt prec emax.

Definition is_nan (x : spec_float) : bool :=
  match x with S754_nan => true | _ => false end.

Definition is_infinity (x : spec_float) : bool :=
  match x with S754_infinity _ => true | _ => false end.

(** [np.add.reduce] of a 1-d float32 array. *)
Definition sum (a : list spec_float) : spec_float := add_reduce add zero a.

Fixpoint insert_sorted (x : spec_float) (a : list spec_float)
  : list spec_float :=
  match a with
  | [] => [x]
  | y :: a' => if SFleb x y then x :: a else y :: insert_sorted x a'
  end.

Definition sort (a : list spec_float) : list spec_float :=
  foldr insert_sorted [] a.

(** [np.median] of a float32 array, as for float64. *)
Definition median (a : list spec_float) : spec_float :=
  if existsb is_nan a then S754_nan
  else
    let s := sort a in
    let n := length a in
    if Nat.odd n then nth (n / 2) s S754_nan
    else div (add (nth (n / 2 - 1) s S754_nan) (nth (n / 2) s S754_nan))
             (of_nat 2).

End Float32.

#[global] Instance float32 : Numpy spec_float := {|
  fzero := Float32.zero;
  fof_nat := Float32.of_nat;
  fadd := Float32.add;
  fsub := Float32.sub;
  fmul := Float32.mul;
  fdiv := Float32.div;
  flt := SFltb;
  fle := SFleb;
  feq := SFeqb;
  fabs := SFabs;
  fsqrt := Float32.sqrt;
  fisnan := Float32.is_nan;
  fisinf := Float32.is_infinity;
  np_sum := Float32.sum;
  np_median := Float32.median
|}.

#[global] Instance float32_casts : Float32Casts float spec_float := {|
  narrow := Float32.of_float;
  widen := Float32.to_float
|}.

(* ===================================================================== *)
(** ** Concrete batches and events on binary64 *)
(* ===================================================================== *)

(** Four events over four channels; channel 3 swings by 20 counts. *)
Definition swinging_batch : ndarray2 float :=
  {| ncols := 4;
     rows := [[0; 0; 0; 20]; [0; 0; 0; -20]; [0; 0; 0; 20];
              [0; 0; 0; -20]]%float |}.

(** Four channels of unit noise, seed cut 5, zero pedestal, a configured
    timing window of (10, 20); everything else by default. *)
Definition run_kwargs : EventAnalysis.kwargs float :=
  {| EventAnalysis.kw_sensor_type_n_in_p := None;
     EventAnalysis.kw_automasking := None;
     EventAnalysis.kw_max_cluster_size := None;
     EventAnalysis.kw_SN_ratio := None;
     EventAnalysis.kw_SN_cluster := None;
     EventAnalysis.kw_pedestal := None;
     EventAnalysis.kw_SN_cut := Some 5%float;
     EventAnalysis.kw_CMN := None;
     EventAnalysis.kw_CMsig := None;
     EventAnalysis.kw_Noise := Some [1; 1; 1; 1]%float;
     EventAnalysis.kw_timing := Some (10, 20)%float |}.

(** Event 0 hits channel 3, event 1 hits channel 0. *)
Definition two_hits : ndarray2 float :=
  {| ncols := 4; rows := [[-1; -1; -1; -9]; [-9; -1; -1; -1]]%float |}.

(** Seed cut 5, neighbour ratio 0.5, cluster cut 6 over [nchan] channels. *)
Definition clustering_self (nchan : nat) (automasking : bool)
    (max_cluster_size : nat) : EventAnalysis.self float :=
  EventAnalysis.init nchan
    {| EventAnalysis.kw_sensor_type_n_in_p := None;
       EventAnalysis.kw_automasking := Some automasking;
       EventAnalysis.kw_max_cluster_size := Some max_cluster_size;
       EventAnalysis.kw_SN_ratio := None;
       EventAnalysis.kw_SN_cluster := None;
       EventAnalysis.kw_pedestal := None;
       EventAnalysis.kw_SN_cut := Some 5%float;
       EventAnalysis.kw_CMN := None;
       EventAnalysis.kw_CMsig := None;
       EventAnalysis.kw_Noise := None;
       EventAnalysis.kw_timing := None |}.

(** Channels 2 and 3 are seeds of weak signal, channel 6 a seed of strong
    signal: the candidate {2, 3} is rejected and channel 3 never seeds. *)
Definition weak_pair_signal : list float :=
  [0; 0; -1; -1; 0; 0; -100; 0]%float.
Definition weak_pair_SN : list float :=
  [0; 0; -10; -10; 0; 0; -10; 0]%float.

(** The same detector read with the other polarity ("p-in-n"). *)
Definition clustering_self_other_polarity (nchan : nat)
  : EventAnalysis.self float :=
  EventAnalysis.init nchan
    {| EventAnalysis.kw_sensor_type_n_in_p := Some false;
       EventAnalysis.kw_automasking := Some true;
       EventAnalysis.kw_max_cluster_size := None;
       EventAnalysis.kw_SN_ratio := None;
       EventAnalysis.kw_SN_cluster := None;
       EventAnalysis.kw_pedestal := None;
       EventAnalysis.kw_SN_cut := Some 5%float;
       EventAnalysis.kw_CMN := None;
       EventAnalysis.kw_CMsig := None;
       EventAnalysis.kw_Noise := None;
       EventAnalysis.kw_timing := None |}.

(** Channel 2 is a seed of positive signal next to the seeds 3 and 4. *)
Definition mixed_sign_signal : list float :=
  [0; 0; 20; -30; -200; 0]%float.

(** Channel 3 is a seed; channel 4 is below the neighbour limit 2.5 and
    channel 5, two places from the seed, is above it. *)
Definition gap_signal : list float :=
  [0; 0; -30; -100; -10; -40; 0; 0]%float.
Definition gap_SN : list float :=
  [0; 0; -3; -10; -1; -4; 0; 0]%float.

(* ===================================================================== *)
(** ** Reasoning about the error monad and the array primitives *)
(* ===================================================================== *)

Lemma bind_Returns {A B : Type} (m : outcome A) (f : A -> outcome B) (b : B) :
  m ≫= f = Returns b -> exists a, m = Returns a /\ f a = Returns b.
Proof. destruct m as [a|e]; simpl; [eauto | discriminate]. Qed.

Lemma Returns_bind {A B : Type} (a : A) (f : A -> outcome B) :
  Returns a ≫= f = f a.
Proof. done. Qed.

(** Splits a hypothesis [x ← m; k = Returns b] into its two runs. *)
Tactic Notation "inv_bind" hyp(H) "as" ident(x) ident(Hx) :=
  apply bind_Returns in H; destruct H as (x & Hx & H).

Lemma getitem_Returns {A : Type} (a : list A) (i : nat) (x : A) :
  getitem a i = Returns x <-> a !! i = Some x.
Proof.
  unfold getitem. destruct (a !! i); split; intros E; congruence.
Qed.

Lemma getitem_lt {A : Type} (a : list A) (i : nat) :
  i < length a -> exists x, getitem a i = Returns x /\ a !! i = Some x.
Proof.
  intros Hi. destruct (lookup_lt_is_Some_2 a i Hi) as [x Hx].
  exists x. split; [by apply getitem_Returns | done].
Qed.

Lemma setitem_Returns {A : Type} (a a' : list A) (i : nat) (x : A) :
  setitem a i x = Returns a' -> i < length a /\ a' = <[i:=x]> a.
Proof.
  unfold setitem. case_bool_decide; intros E; [by inversion E | discriminate].
Qed.

Lemma setitem_lt {A : Type} (a : list A) (i : nat) (x : A) :
  i < length a -> setitem a i x = Returns (<[i:=x]> a).
Proof.
  intros Hi. unfold setitem. case_bool_decide; [done | lia].
Qed.

Lemma forM_length {A B : Type} (f : A -> outcome B) (xs : list A) (ys : list B) :
  forM f xs = Returns ys -> length ys = length xs.
Proof.
  revert ys. induction xs as [|x xs IH]; simpl; intros ys E.
  - by inversion E.
  - inv_bind E as y Hy. inv_bind E as ys0 Hys. inversion E; subst. simpl.
    f_equal. by apply IH.
Qed.

Lemma forM_lookup {A B : Type} (f : A -> outcome B) (xs : list A) (ys : list B)
    (i : nat) (x : A) :
  forM f xs = Returns ys -> xs !! i = Some x ->
  exists y, ys !! i = Some y /\ f x = Returns y.
Proof.
  revert ys i. induction xs as [|x0 xs IH]; simpl; intros ys i E Hx; [done|].
  inv_bind E as y0 Hy. inv_bind E as ys0 Hys. inversion E; subst.
  destruct i as [|i]; simpl in *.
  - inversion Hx; subst. eauto.
  - eapply IH; eauto.
Qed.

Lemma forM_total {A B : Type} (f : A -> outcome B) (g : A -> B) (xs : list A) :
  Forall (fun x => f x = Returns (g x)) xs -> forM f xs = Returns (map g xs).
Proof.
  induction 1 as [|x xs Hx _ IH]; simpl; [done|]. by rewrite Hx, IH.
Qed.

Lemma nonzero_from_spec (k : nat) (mask : list bool) (c : nat) :
  c ∈ nonzero_from k mask <-> k <= c /\ mask !! (c - k) = Some true.
Proof.
  revert k. induction mask as [|b mask IH]; intros k; simpl.
  - rewrite elem_of_nil. split; [done | intros [_ E]; discriminate].
  - assert (Hstep : c ∈ nonzero_from (S k) mask <->
                    S k <= c /\ (b :: mask) !! (c - k) = Some true).
    { rewrite IH. split; intros [Hle Hl]; split; try lia.
      - replace (c - k) with (S (c - S k)) by lia. done.
      - replace (c - k) with (S (c - S k)) in Hl by lia. done. }
    destruct b.
    + rewrite elem_of_cons, Hstep. split.
      * intros [->|[Hle Hl]]; [|split; [lia|done]].
        split; [lia|]. by replace (k - k) with 0 by lia.
      * intros [Hle Hl]. destruct (decide (c = k)) as [->|Hne]; [by left|].
        right. split; [lia|done].
    + rewrite Hstep. split; intros [Hle Hl]; (split; [lia|done]) || idtac.
      split; [|done]. destruct (decide (c = k)) as [->|Hne]; [|lia].
      replace (k - k) with 0 in Hl by lia. simpl in Hl. discriminate.
Qed.

Lemma np_nonzero_spec (mask : list bool) (c : nat) :
  c ∈ np_nonzero mask <-> mask !! c = Some true.
Proof.
  unfold np_nonzero. rewrite nonzero_from_spec.
  replace (c - 0) with c by lia. split; [by intros [_ ?] | split; [lia|done]].
Qed.

Lemma nonzero_from_length (k : nat) (mask : list bool) :
  length (nonzero_from k mask) = length (List.filter id mask).
Proof.
  revert k. induction mask as [|b mask IH]; intros k; simpl; [done|].
  destruct b; simpl; by rewrite IH.
Qed.

(** [np.take(a, np.nonzero(p(a)))] keeps the entries that satisfy [p]. *)
Lemma take_nonzero_from {A : Type} (p : A -> bool) (pre a : list A) :
  forM (getitem (pre ++ a)) (nonzero_from (length pre) (map p a))
  = Returns (List.filter p a).
Proof.
  revert pre. induction a as [|x a IH]; intros pre; simpl; [done|].
  specialize (IH (pre ++ [x])).
  rewrite <- app_assoc, length_app in IH. simpl in IH.
  replace (length pre + 1) with (S (length pre)) in IH by lia.
  destruct (p x); simpl; [|done].
  assert (getitem (pre ++ x :: a) (length pre) = Returns x) as ->
    by (apply getitem_Returns; by apply list_lookup_middle).
  simpl. by rewrite IH.
Qed.

Lemma np_take_nonzero {A : Type} (p : A -> bool) (a : list A) :
  np_take a (np_nonzero (map p a)) = Returns (List.filter p a).
Proof. apply (take_nonzero_from p [] a). Qed.

(** The depth bound of [pairwise_sum] plays no part once it is at least the
    length of the array; [add_reduce] passes the length. *)
Lemma pairwise_sum_fuel {A : Type} (add : A -> A -> A) (zero : A) (f1 : nat) :
  forall (f2 : nat) (a : list A),
    length a <= f1 -> length a <= f2 ->
    pairwise_sum add zero f1 a = pairwise_sum add zero f2 a.
Proof.
  induction f1 as [|f1 IH]; intros f2 a H1 H2.
  - destruct a; [|simpl in H1; lia]. by destruct f2.
  - destruct f2 as [|f2].
    { destruct a; [done | simpl in H2; lia]. }
    cbn [pairwise_sum]. destruct (length a <? 8); [done|].
    destruct (length a <=? 128) eqn:Hn; [done|].
    apply Nat.leb_gt in Hn.
    pose proof (Nat.mod_upper_bound (length a / 2) 8 ltac:(lia)) as Hm.
    pose proof (Nat.div_lt (length a) 2 ltac:(lia) ltac:(lia)) as Hd.
    assert (Hhalf : 64 <= length a / 2).
    { apply Nat.div_le_lower_bound; lia. }
    f_equal; apply IH; rewrite ?length_take, ?length_drop; lia.
Qed.

Lemma broadcast2_same {A B C : Type} (f : A -> B -> C) (xs : list A)
    (ys : list B) :
  length xs = length ys -> broadcast2 f xs ys = Returns (zip_with f xs ys).
Proof.
  intros E. unfold broadcast2. by rewrite (proj2 (Nat.eqb_eq _ _) E).
Qed.

(* ===================================================================== *)
(** ** Pedestal estimator *)
(* ===================================================================== *)

Section Pedestal.
Context {F : Type} {NP : Numpy F}.

Lemma np_mean0_length (m : ndarray2 F) : length (np_mean0 m) = ncols m.
Proof. unfold np_mean0. by rewrite length_map, length_seq. Qed.

Lemma np_std0_length (m : ndarray2 F) : length (np_std0 m) = ncols m.
Proof. unfold np_std0. by rewrite length_map, length_seq. Qed.

Lemma column_length (c : nat) (m : ndarray2 F) :
  length (column c m) = length (rows m).
Proof. unfold column. by rewrite length_map. Qed.

(** C6 (as the code has it): for every batch of raw events, empty or not, the
    pedestal estimator returns a vector with one entry per channel, and the
    entry of channel [c] is the sum of channel [c]'s raw signal over all
    events of the batch divided by the number of events; nothing is raised
    and no event is left out.  For an empty batch each entry is the quotient
    of the empty sum by zero. *)
Theorem C6_pedestal_is_column_mean (signal : ndarray2 F) :
  exists ped,
    NoiseAnalysis.calc_pedestal signal = Returns ped /\
    length ped = ncols signal /\
    (forall c, c < ncols signal ->
       ped !! c = Some (fdiv (np_sum0 (ncols signal) (column c signal))
                             (fof_nat (length (rows signal)))) /\
       column c signal = map (fun r => default fzero (r !! c)) (rows signal)) /\
    (rows signal = [] ->
       ped = replicate (ncols signal)
               (fdiv (np_sum0 (ncols signal) []) (fof_nat 0))).
Proof.
  exists (np_mean0 signal). split; [done|]. split; [apply np_mean0_length|].
  split.
  - intros c Hc. split; [|done]. unfold np_mean0.
    by rewrite list_lookup_fmap, lookup_seq_lt by done.
  - intros Hrows. unfold np_mean0, column. rewrite Hrows. simpl.
    set (v := fdiv (np_sum0 (ncols signal) []) (fof_nat 0)).
    generalize (ncols signal) as n. generalize 0 as k.
    intros k n. revert k. induction n as [|n IH]; intros k; simpl; [done|].
    f_equal. apply IH.
Qed.

End Pedestal.

(** C6, the claim as written, on binary64: a batch of no events over two
    channels does not fail with [InsufficientDataError]; the estimator
    returns two NaN. *)
Lemma C6_empty_batch_returns_nan :
  NoiseAnalysis.calc_pedestal {| ncols := 2; rows := @nil (list float) |}
    = Returns [nan; nan] /\
  Returns [nan; nan] <> @Raises (list float) InsufficientDataError.
Proof. split; [reflexivity | discriminate]. Qed.

(** The pedestal of section 8 of the specification. *)
Example pedestal_three_events :
  NoiseAnalysis.calc_pedestal
    {| ncols := 4;
       rows := [[100; 100; 100; 100]; [102; 98; 101; 99];
                [99; 101; 99; 101]]%float |}
  = Returns [301 / 3; 299 / 3; 100; 100]%float.
Proof. reflexivity. Qed.

(* ===================================================================== *)
(** ** process_event *)
(* ===================================================================== *)

Section ProcessEvent.
Context {F : Type} {NP : Numpy F}.

(** What [process_event] computes on arrays of one shape: the branch is
    chosen by [prosignal.any()], that is by whether some trimmed value is
    different from zero. *)
Lemma process_event_shape (event pedestal : list F) (meanCMN meanCMsig : F)
    (noise : list F) (numchan : nat) :
  length pedestal = length event -> length noise = length event ->
  let signal := zip_with fsub event pedestal in
  let sub := trimmed signal meanCMN meanCMsig in
  let corrsignal := map (fun x => fsub x (np_mean sub)) signal in
  EventAnalysis.process_event event pedestal meanCMN meanCMsig noise numchan
  = if np_any sub
    then Returns (corrsignal, zip_with fdiv corrsignal noise,
                  np_mean sub, np_std sub)
    else Returns (np_zeros numchan, np_zeros numchan, fof_nat 0, fof_nat 0).
Proof.
  intros Hp Hn signal sub corrsignal.
  unfold EventAnalysis.process_event.
  rewrite broadcast2_same by done. simpl.
  rewrite np_take_nonzero. simpl.
  fold (trim_limit meanCMN meanCMsig). fold signal.
  fold (trimmed signal meanCMN meanCMsig). fold sub.
  destruct (np_any sub); [|done].
  fold corrsignal. rewrite broadcast2_same; [done|].
  unfold corrsignal, signal. rewrite length_map, length_zip_with. lia.
Qed.

(** With an empty trimmed subset the zero tuple is returned. *)
Lemma process_event_empty_subset (event pedestal : list F)
    (meanCMN meanCMsig : F) (noise : list F) (numchan : nat) :
  length pedestal = length event -> length noise = length event ->
  trimmed (zip_with fsub event pedestal) meanCMN meanCMsig = [] ->
  EventAnalysis.process_event event pedestal meanCMN meanCMsig noise numchan
  = Returns (np_zeros numchan, np_zeros numchan, fof_nat 0, fof_nat 0).
Proof.
  intros Hp Hn He. rewrite process_event_shape by done. simpl.
  by rewrite He.
Qed.

(** C3 (as the code has it): on an event, a pedestal and a noise profile of
    one length whose trimmed subset holds a value different from zero,
    [process_event] returns and raises nothing; the S/N vector it returns has
    one entry per channel, the quotient of the corrected signal by the noise
    of that channel, computed by the division of numpy whatever the noise
    entry is.  Where division by zero gives NaN or Inf, as it does in IEEE
    arithmetic, every channel of zero noise has a NaN or Inf S/N entry. *)
Theorem C3_sn_is_unguarded_quotient (event pedestal : list F)
    (meanCMN meanCMsig : F) (noise : list F) (numchan : nat) :
  (forall a n, feq n fzero = true -> fisnan (fdiv a n) || fisinf (fdiv a n) = true) ->
  length pedestal = length event -> length noise = length event ->
  np_any (trimmed (zip_with fsub event pedestal) meanCMN meanCMsig) = true ->
  exists corrsignal SN cmpro sigpro,
    EventAnalysis.process_event event pedestal meanCMN meanCMsig noise numchan
      = Returns (corrsignal, SN, cmpro, sigpro) /\
    length SN = length event /\
    (forall i n, noise !! i = Some n ->
       exists c, corrsignal !! i = Some c /\ SN !! i = Some (fdiv c n)) /\
    (forall i n, noise !! i = Some n -> feq n fzero = true ->
       exists x, SN !! i = Some x /\ fisnan x || fisinf x = true).
Proof.
  intros Hdiv Hp Hn Hany. rewrite process_event_shape by done. simpl.
  rewrite Hany. eexists _, _, _, _. split; [done|].
  set (corr := map (fun x => fsub x (np_mean
                 (trimmed (zip_with fsub event pedestal) meanCMN meanCMsig)))
                 (zip_with fsub event pedestal)).
  assert (Hq : forall i n, noise !! i = Some n ->
            exists c, corr !! i = Some c /\
                      zip_with fdiv corr noise !! i = Some (fdiv c n)).
  { intros i n Hi.
    assert (Hlt : i < length event)
      by (rewrite <- Hn; by eapply lookup_lt_Some).
    destruct (lookup_lt_is_Some_2 corr i) as [c Hc].
    { unfold corr. rewrite length_map, length_zip_with. lia. }
    exists c. split; [done|]. rewrite lookup_zip_with, Hc, Hi. done. }
  split; [|split; [exact Hq|]].
  - unfold corr. rewrite length_zip_with, length_map, length_zip_with. lia.
  - intros i n Hi Hz. destruct (Hq i n Hi) as (c & _ & Hsn).
    exists (fdiv c n). split; [done|]. by apply Hdiv.
Qed.

End ProcessEvent.

Open Scope float_scope.

(** A zero test of binary64 succeeds on +0 and -0 only, and any float
    divided by either is NaN or an infinity. *)
Lemma float64_div_by_zero (a n : float) :
  PrimFloat.eqb n 0 = true ->
  PrimFloat.is_nan (a / n) || PrimFloat.is_infinity (a / n) = true.
Proof.
  unfold PrimFloat.is_nan, PrimFloat.is_infinity.
  rewrite !FloatAxioms.eqb_spec, abs_spec, div_spec.
  change (Prim2SF 0) with (S754_zero false).
  change (Prim2SF infinity) with (S754_infinity false).
  destruct (Prim2SF n) as [sn|sn| |sn mn en]; try destruct sn; cbn;
    try discriminate; intros _;
    destruct (Prim2SF a) as [sg|sg| |sg m e]; try destruct sg; cbn;
    reflexivity.
Qed.

(** No binary64 number is both below and above zero. *)
Lemma float64_lt_zero_asym (a : float) :
  PrimFloat.ltb a 0 = true -> PrimFloat.ltb 0 a = false.
Proof.
  rewrite !ltb_spec.
  change (Prim2SF 0) with (S754_zero false).
  destruct (Prim2SF a) as [sg|sg| |sg m e]; try destruct sg; cbn; congruence.
Qed.

Lemma C3_sn_is_unguarded_quotient_witness :
  exists corrsignal SN cmpro sigpro,
    EventAnalysis.process_event [-1; -3] [0; 0] 0 0 [0; 1] 2
      = Returns (corrsignal, SN, cmpro, sigpro) /\
    length SN = 2%nat /\
    (forall i n, [0; 1] !! i = Some n ->
       exists c, corrsignal !! i = Some c /\ SN !! i = Some (fdiv c n)) /\
    (forall i n, [0; 1] !! i = Some n -> feq n fzero = true ->
       exists x, SN !! i = Some x /\ fisnan x || fisinf x = true).
Proof.
  refine (C3_sn_is_unguarded_quotient [-1; -3] [0; 0] 0 0 [0; 1] 2 _ _ _ _).
  - exact float64_div_by_zero.
  - reflexivity.
  - reflexivity.
  - reflexivity.
Defined.

(** C3, the claim as written, on binary64: the two channels read -1 and -3
    over a zero pedestal, the trimmed subset is both of them, the noise of
    channel 0 is zero; the call does not fail with [DegenerateChannelError],
    it returns an S/N vector whose first entry is infinite. *)
Lemma C3_zero_noise_gives_infinity :
  trimmed [-1; -3] 0 0 = [-1; -3] /\
  existsb (fun n => feq n 0) [0; 1] = true /\
  EventAnalysis.process_event [-1; -3] [0; 0] 0 0 [0; 1] 2
    = Returns ([1; -1], [infinity; -1], -2, 1) /\
  existsb (fun x => fisnan x || fisinf x) [infinity; -1] = true.
Proof. repeat split; reflexivity. Qed.

(** C5 at the input on which the code misses it: the pedestal-subtracted
    event is [0; 10] and the limit is 5, so the trimmed subset is [[0]], not
    empty; the claimed tuple is [([0; 10], [0; 10], 0, 0)]; the code takes the
    [else] branch because [[0]].any() is false, and returns zeros. *)
Theorem C5_zero_valued_subset_takes_else_branch :
  let signal := zip_with PrimFloat.sub [0; 10] [0; 0] in
  let sub := trimmed signal 0 1 in
  sub = [0] /\
  (map (fun x => x - np_mean sub) signal,
   zip_with PrimFloat.div (map (fun x => x - np_mean sub) signal) [1; 1],
   np_mean sub, np_std sub) = ([0; 10], [0; 10], 0, 0) /\
  EventAnalysis.process_event [0; 10] [0; 0] 0 1 [1; 1] 2
    = Returns ([0; 0], [0; 0], 0, 0).
Proof. repeat split; reflexivity. Qed.

Close Scope float_scope.

(* ===================================================================== *)
(** ** Loops: invariants of [foldM] *)
(* ===================================================================== *)

Section FoldM.
Context {S A : Type} (body : S -> A -> outcome S).

(** Partial correctness: an invariant kept by every pass that returns. *)
Lemma foldM_invariant (I : S -> Prop) (xs : list A) (s s' : S) :
  (forall t x t', x ∈ xs -> I t -> body t x = Returns t' -> I t') ->
  I s -> foldM body xs s = Returns s' -> I s'.
Proof.
  revert s. induction xs as [|x xs IH]; simpl; intros s Hstep Hs E.
  - by inversion E; subst.
  - inv_bind E as a Ha. apply (IH a); [| |done].
    + intros t y t' Hy. apply Hstep. by right.
    + eapply Hstep; [by left | exact Hs | done].
Qed.

(** Total correctness: if every pass returns from a state of the invariant,
    so does the loop. *)
Lemma foldM_returns (I : S -> Prop) (xs : list A) (s : S) :
  (forall t x, x ∈ xs -> I t -> exists t', body t x = Returns t' /\ I t') ->
  I s -> exists s', foldM body xs s = Returns s' /\ I s'.
Proof.
  revert s. induction xs as [|x xs IH]; simpl; intros s Hstep Hs.
  - eauto.
  - destruct (Hstep s x) as (t' & Ht' & Hi); [by left | done |].
    rewrite Ht'. simpl. apply IH; [|done].
    intros t y Hy. apply Hstep. by right.
Qed.

Lemma foldM_app (xs ys : list A) (s : S) :
  foldM body (xs ++ ys) s = s' ← foldM body xs s; foldM body ys s'.
Proof.
  revert s. induction xs as [|x xs IH]; simpl; intros s; [done|].
  destruct (body s x); simpl; [apply IH | done].
Qed.

End FoldM.

(* ===================================================================== *)
(** ** Noisy strips *)
(* ===================================================================== *)

Lemma elem_of_existsb_Z (z : Z) (l : list Z) :
  existsb (Z.eqb z) l = true <-> z ∈ l.
Proof.
  rewrite existsb_exists. split.
  - intros (y & Hy & E). apply Z.eqb_eq in E. subst.
    by apply list_elem_of_In.
  - intros Hz. exists z. split; [by apply list_elem_of_In | apply Z.eqb_refl].
Qed.

Lemma elem_of_delete_from_seq (k n : nat) (dead : list Z) (c : nat) :
  c ∈ delete_from k dead (seq k n) <->
  k <= c < k + n /\ Z.of_nat c ∉ dead.
Proof.
  revert k. induction n as [|n IH]; intros k; simpl.
  - rewrite elem_of_nil. split; [done | lia].
  - destruct (existsb (Z.eqb (Z.of_nat k)) dead) eqn:E.
    + apply elem_of_existsb_Z in E. rewrite IH. split.
      * intros [Hr Hd]. split; [lia | done].
      * intros [Hr Hd]. split; [|done].
        destruct (decide (c = k)) as [->|]; [done | lia].
    + assert (Hk : Z.of_nat k ∉ dead).
      { intros Hin. apply elem_of_existsb_Z in Hin. congruence. }
      rewrite elem_of_cons, IH. split.
      * intros [->|[Hr Hd]]; split; try lia; done.
      * intros [Hr Hd]. destruct (decide (c = k)) as [->|]; [by left|].
        right. split; [lia | done].
Qed.

Lemma NoDup_delete_from_seq (k n : nat) (dead : list Z) :
  NoDup (delete_from k dead (seq k n)).
Proof.
  revert k. induction n as [|n IH]; intros k; simpl; [constructor|].
  destruct (existsb (Z.eqb (Z.of_nat k)) dead); [apply IH|].
  constructor; [|apply IH].
  rewrite elem_of_delete_from_seq. lia.
Qed.

Lemma map_wrap_index_nonneg (n : nat) (l : list Z) :
  Forall (fun z => 0 <= z)%Z l -> map (wrap_index n) l = l.
Proof.
  induction 1 as [|z l Hz _ IH]; simpl; [done|]. rewrite IH. f_equal.
  unfold wrap_index. destruct (Z.ltb_spec z 0); [lia | done].
Qed.

Lemma forallb_index_ok (n : nat) (l : list Z) :
  Forall (fun z => 0 <= z < Z.of_nat n)%Z l -> forallb (index_ok n) l = true.
Proof.
  intros Hl. apply forallb_forall. intros z Hz.
  apply list_elem_of_In in Hz.
  rewrite Forall_forall in Hl. specialize (Hl z Hz).
  unfold index_ok. apply andb_true_iff. split.
  - apply Z.leb_le. lia.
  - apply Z.ltb_lt. lia.
Qed.

Section NoisyStrips.
Context {F : Type} {NP : Numpy F}.

Lemma high_noise_lt (Noise : list F) (Noise_cut : F) (c : nat) :
  c ∈ high_noise Noise Noise_cut -> c < length Noise.
Proof.
  unfold high_noise. rewrite np_nonzero_spec. intros Hc.
  apply lookup_lt_Some in Hc. by rewrite length_map in Hc.
Qed.

(** With a mask that is not empty the indices stay integers and the call
    is the [np.delete] of the high-noise channels and the mask. *)
Lemma detect_noisy_strips_nonempty (mask : list Z) (Noise : list F)
    (Noise_cut : F) :
  mask <> [] ->
  NoiseAnalysis.detect_noisy_strips mask Noise Noise_cut
  = good ← np_delete (seq 0 (length Noise))
             (map Z.of_nat (high_noise Noise Noise_cut) ++ mask);
    Returns (map Z.of_nat (high_noise Noise Noise_cut) ++ mask, good).
Proof. intros Hne. by destruct mask. Qed.

(** What [detect_noisy_strips] returns for a mask of channel indices that
    is not empty. *)
Lemma detect_noisy_strips_returns (mask : list Z) (Noise : list F)
    (Noise_cut : F) :
  mask <> [] ->
  Forall (fun m => 0 <= m < Z.of_nat (length Noise))%Z mask ->
  let noisy := map Z.of_nat (high_noise Noise Noise_cut) ++ mask in
  let good := delete_from 0 noisy (seq 0 (length Noise)) in
  NoiseAnalysis.detect_noisy_strips mask Noise Noise_cut
    = Returns (noisy, good) /\
  Forall (fun z => 0 <= z < Z.of_nat (length Noise))%Z noisy /\
  (forall c, c ∈ good <-> c < length Noise /\ Z.of_nat c ∉ noisy).
Proof.
  intros Hne Hmask noisy good.
  assert (Hrange : Forall (fun z => 0 <= z < Z.of_nat (length Noise))%Z noisy).
  { apply Forall_app. split; [|done]. apply Forall_forall. intros z Hz.
    apply list_elem_of_fmap in Hz as (c & -> & Hc).
    apply high_noise_lt in Hc. lia. }
  split; [|split; [done|]].
  - rewrite detect_noisy_strips_nonempty by done. fold noisy.
    unfold np_delete. rewrite length_seq.
    rewrite forallb_index_ok by done.
    rewrite map_wrap_index_nonneg; [done|].
    eapply Forall_impl; [exact Hrange|]. simpl. lia.
  - intros c. unfold good. rewrite elem_of_delete_from_seq.
    split; intros [? ?]; (split; [lia | done]).
Qed.

(** C8 (as the code has it): with a manual mask that is not empty, of
    channel indices in [0, numchan), for every noise vector and cut
    [detect_noisy_strips] returns a pair (noisy_strips, good_strips) in
    which every channel index is noisy or good, no channel is both, the
    noisy entries are exactly the masked channels and the channels above
    median + cut, and the number of good strips plus the number of distinct
    noisy strips is numchan.  (The noisy array lists a channel once for each
    of the two reasons it has to be there, so its length may exceed the
    number of distinct entries.  With the empty mask the call raises
    [IndexError] and returns no pair.) *)
Theorem C8_strips_partition_channels (mask : list Z) (Noise : list F)
    (Noise_cut : F) :
  mask <> [] ->
  Forall (fun m => 0 <= m < Z.of_nat (length Noise))%Z mask ->
  exists noisy good,
    NoiseAnalysis.detect_noisy_strips mask Noise Noise_cut
      = Returns (noisy, good) /\
    (forall c, c < length Noise -> Z.of_nat c ∈ noisy \/ c ∈ good) /\
    (forall c, c ∈ good -> c < length Noise /\ Z.of_nat c ∉ noisy) /\
    (forall z, z ∈ noisy <->
       z ∈ mask \/ exists c, z = Z.of_nat c /\ c ∈ high_noise Noise Noise_cut) /\
    length good + length (remove_dups noisy) = length Noise.
Proof.
  intros Hne Hmask.
  destruct (detect_noisy_strips_returns mask Noise Noise_cut Hne Hmask)
    as (Hrun & Hrange & Hgood).
  set (noisy := map Z.of_nat (high_noise Noise Noise_cut) ++ mask) in *.
  set (good := delete_from 0 noisy (seq 0 (length Noise))) in *.
  exists noisy, good. split; [done|]. split; [|split; [|split]].
  - intros c Hc. destruct (decide (Z.of_nat c ∈ noisy)); [by left|].
    right. by apply Hgood.
  - intros c Hc. by apply Hgood.
  - intros z. unfold noisy. rewrite elem_of_app, list_elem_of_fmap.
    split; intros [?|?]; auto.
  - enough (E : length (map Z.of_nat good ++ remove_dups noisy)
                = length (map Z.of_nat (seq 0 (length Noise)))).
    { rewrite length_app, !length_map, length_seq in E. exact E. }
    apply Permutation_length, NoDup_Permutation.
    + apply NoDup_app. split; [|split].
      * apply (NoDup_fmap_2 Z.of_nat), NoDup_delete_from_seq.
      * intros z Hz Hz'. apply list_elem_of_fmap in Hz as (c & -> & Hc).
        apply Hgood in Hc. destruct Hc as [_ Hc]. apply Hc.
        by apply elem_of_remove_dups.
      * apply NoDup_remove_dups.
    + apply (NoDup_fmap_2 Z.of_nat), NoDup_seq.
    + intros z. rewrite elem_of_app, elem_of_remove_dups.
      rewrite !list_elem_of_fmap. split.
      * intros [(c & -> & Hc)|Hz].
        -- exists c. split; [done|]. apply Hgood in Hc.
           apply elem_of_seq. lia.
        -- rewrite Forall_forall in Hrange. specialize (Hrange z Hz).
           exists (Z.to_nat z). split; [lia|]. apply elem_of_seq. lia.
      * intros (c & -> & Hc). apply elem_of_seq in Hc.
        destruct (decide (Z.of_nat c ∈ noisy)); [by right|].
        left. exists c. split; [done|]. apply Hgood. split; [lia | done].
Qed.

End NoisyStrips.

Lemma C8_strips_partition_channels_witness :
  exists noisy good,
    NoiseAnalysis.detect_noisy_strips [1%Z] [1; 1; 1; 100]%float 5%float
      = Returns (noisy, good) /\
    (forall c, c < 4 -> Z.of_nat c ∈ noisy \/ c ∈ good) /\
    (forall c, c ∈ good -> c < 4 /\ Z.of_nat c ∉ noisy) /\
    (forall z, z ∈ noisy <->
       z ∈ [1%Z] \/
       exists c, z = Z.of_nat c /\ c ∈ high_noise [1; 1; 1; 100]%float 5%float) /\
    length good + length (remove_dups noisy) = 4.
Proof.
  apply (C8_strips_partition_channels [1%Z] [1; 1; 1; 100]%float 5%float);
    [done|].
  apply Forall_singleton. simpl. lia.
Defined.

(** C8, the claim as written, on binary64: four channels of noise 1, 1, 1 and
    100, cut 5, channel 3 also masked by hand.  Channel 3 exceeds
    median + cut and is in the mask, the returned noisy array is [[3; 3]],
    and the sizes of the two returned arrays add up to 5, not 4. *)
Lemma C8_masked_and_noisy_counted_twice :
  NoiseAnalysis.detect_noisy_strips [3%Z] [1; 1; 1; 100]%float 5%float
    = Returns ([3%Z; 3%Z], [0; 1; 2]) /\
  length [0; 1; 2] + length [3%Z; 3%Z] = 5 /\
  length [1; 1; 1; 100]%float = 4.
Proof. repeat split; reflexivity. Qed.

(* ===================================================================== *)
(** ** The two passes of the noise calculation *)
(* ===================================================================== *)

Lemma nonzero_from_length_le (k : nat) (mask : list bool) :
  length (nonzero_from k mask) <= length mask.
Proof.
  revert k. induction mask as [|b mask IH]; intros k; simpl; [done|].
  specialize (IH (S k)). destruct b; simpl; lia.
Qed.

Section TwoPass.
Context {F : Type} {NP : Numpy F}.

Lemma goodevents_le (time : list F) :
  length (NoiseAnalysis.goodevents time) <= length time.
Proof.
  unfold NoiseAnalysis.goodevents, np_nonzero.
  etransitivity; [apply nonzero_from_length_le|]. by rewrite length_map.
Qed.

Lemma setrow_returns (m : ndarray2 F) (i : nat) (r : list F) :
  i < length (rows m) -> length r = ncols m ->
  setrow m i r = Returns {| ncols := ncols m; rows := <[i:=r]> (rows m) |}.
Proof.
  intros Hi Hr. unfold setrow. rewrite bool_decide_eq_true_2 by done.
  by rewrite (proj2 (Nat.eqb_eq _ _) Hr).
Qed.

Lemma noise_shape_zeros (numevents numchannels : nat) :
  noise_shape numevents numchannels
    (np_zeros2 numevents numchannels, np_zeros numevents, np_zeros numevents).
Proof.
  unfold noise_shape, np_zeros2, np_zeros, rectangular. simpl.
  rewrite !length_replicate. repeat split.
  apply Forall_replicate. by rewrite length_replicate.
Qed.

Lemma np_take_returns {A : Type} (d : A) (a : list A) (idx : list nat) :
  Forall (fun i => i < length a) idx ->
  np_take a idx = Returns (map (fun i => default d (a !! i)) idx).
Proof.
  intros Hidx. unfold np_take. apply forM_total.
  eapply Forall_impl; [exact Hidx|]. simpl. intros i Hi.
  destruct (getitem_lt a i Hi) as (x & -> & ->). done.
Qed.

Lemma take_columns_returns (m : ndarray2 F) (idx : list nat) :
  rectangular m -> Forall (fun i => i < ncols m) idx ->
  take_columns m idx
  = Returns {| ncols := length idx;
               rows := map (fun r => map (fun i => default fzero (r !! i)) idx)
                           (rows m) |}.
Proof.
  intros Hrect Hidx. unfold take_columns.
  rewrite (forM_total _ (fun r => map (fun i => default fzero (r !! i)) idx));
    [done|].
  eapply Forall_impl; [exact Hrect|]. simpl. intros r Hr.
  apply np_take_returns. by rewrite Hr.
Qed.

Lemma np_concatenate_zeros (n c : nat) :
  0 < n ->
  np_concatenate (rows (np_zeros2 n c))
  = Returns (concat (replicate n (np_zeros c))).
Proof. destruct n as [|n]; [lia | done]. Qed.

End TwoPass.

Section TwoPass32.
Context {F : Type} {NP : Numpy F} {F32 : Type} {NP32 : Numpy F32}
        {FC : Float32Casts F F32}.

Lemma astype32_rectangular (data : ndarray2 F) :
  rectangular data -> rectangular (NoiseAnalysis.astype32 (F32:=F32) data).
Proof.
  unfold rectangular, NoiseAnalysis.astype32. simpl. intros Hrect.
  apply Forall_forall. intros r Hr.
  apply list_elem_of_fmap in Hr as (r0 & -> & Hr0). rewrite length_map.
  rewrite Forall_forall in Hrect. by apply Hrect.
Qed.

Lemma noise_calc_body_returns (events : ndarray2 F32) (pedestal : list F)
    (numevents numchannels : nat)
    (st : ndarray2 F32 * list F32 * list F32) (event : nat) :
  event < numevents -> event < length (rows events) ->
  Forall (fun r => length r = numchannels) (rows events) ->
  length pedestal = numchannels ->
  noise_shape numevents numchannels st ->
  exists st', NoiseAnalysis.noise_calc_body events pedestal st event
                = Returns st' /\
              noise_shape numevents numchannels st'.
Proof.
  intros He He' Hrows Hp (Hc & Hr & Hrect & Hn & Hs).
  destruct st as [[score CMnoise] CMsig]. simpl in *.
  unfold NoiseAnalysis.noise_calc_body.
  destruct (getitem_lt (rows events) event He') as (row & -> & Hrow). simpl.
  assert (Hlen : length row = numchannels).
  { rewrite Forall_forall in Hrows. apply Hrows.
    eapply list_elem_of_lookup_2, Hrow. }
  rewrite broadcast2_same by lia. simpl.
  rewrite setrow_returns;
    [| lia | rewrite !length_map, length_zip_with; lia]. simpl.
  rewrite !setitem_lt by lia. simpl.
  eexists. split; [done|].
  repeat split; simpl; rewrite ?length_insert; try done.
  unfold rectangular. simpl. apply Forall_insert; [done|].
  rewrite !length_map, length_zip_with. lia.
Qed.

Lemma noise_calc_returns (ngood : nat) (events : ndarray2 F32)
    (pedestal : list F) (numevents numchannels : nat) :
  ngood <= numevents -> ngood <= length (rows events) ->
  Forall (fun r => length r = numchannels) (rows events) ->
  length pedestal = numchannels ->
  exists st, NoiseAnalysis.noise_calc ngood events pedestal numevents
               numchannels = Returns st /\
             noise_shape numevents numchannels st.
Proof.
  intros Hg Hg' Hrows Hp. unfold NoiseAnalysis.noise_calc.
  apply (foldM_returns _ (noise_shape numevents numchannels)).
  - intros t x Hx Ht. apply elem_of_seq in Hx.
    apply noise_calc_body_returns; try done; lia.
  - apply noise_shape_zeros.
Qed.

(** The constructor up to its last statement: the two passes on a
    rectangular dataset with a mask of channel indices that is not empty. *)
Lemma two_passes_return (time : list F) (data : ndarray2 F)
    (noise_cut : F32) (mask : list Z) :
  rectangular data -> length time = length (rows data) ->
  mask <> [] ->
  Forall (fun m => 0 <= m < Z.of_nat (ncols data))%Z mask ->
  let ngood := length (NoiseAnalysis.goodevents time) in
  let numevents := length (rows data) in
  let signal := NoiseAnalysis.astype32 data in
  exists score1 CMnoise1 CMsig1 noisy good signal2 pedestal2
         score2 CMnoise2 CMsig2,
    NoiseAnalysis.noise_calc ngood signal (np_mean0 data) numevents
      (ncols data) = Returns (score1, CMnoise1, CMsig1) /\
    length (np_std0 score1) = ncols data /\
    NoiseAnalysis.detect_noisy_strips mask (np_std0 score1) noise_cut
      = Returns (noisy, good) /\
    take_columns signal good = Returns signal2 /\
    np_take (np_mean0 data) good = Returns pedestal2 /\
    NoiseAnalysis.noise_calc ngood signal2 pedestal2 numevents (length good)
      = Returns (score2, CMnoise2, CMsig2) /\
    ncols score2 = length good.
Proof.
  intros Hrect Htime Hne Hmask ngood numevents signal.
  assert (Hg : ngood <= numevents).
  { unfold ngood, numevents. rewrite <- Htime. apply goodevents_le. }
  assert (Hrect32 : rectangular signal) by by apply astype32_rectangular.
  assert (Hrows32 : length (rows signal) = numevents)
    by (unfold signal, NoiseAnalysis.astype32; simpl; by rewrite length_map).
  destruct (noise_calc_returns ngood signal (np_mean0 data) numevents
              (ncols data)) as ([[score1 cmn1] cms1] & Hrun1 & Hsh1);
    [done | by rewrite Hrows32 | exact Hrect32 | apply np_mean0_length |].
  destruct Hsh1 as (Hc1 & _). simpl in Hc1.
  assert (Hnoise : length (np_std0 score1) = ncols data)
    by (by rewrite np_std0_length).
  destruct (detect_noisy_strips_returns mask (np_std0 score1) noise_cut)
    as (Hdet & _ & Hgood); [done | by rewrite Hnoise |].
  set (noisy := map Z.of_nat (high_noise (np_std0 score1) noise_cut) ++ mask)
    in *.
  set (good := delete_from 0 noisy (seq 0 (length (np_std0 score1)))) in *.
  assert (Hidx : Forall (fun i => i < ncols data) good).
  { apply Forall_forall. intros i Hi. apply Hgood in Hi. lia. }
  pose proof (take_columns_returns signal good Hrect32 Hidx) as Htake.
  pose proof (np_take_returns fzero (np_mean0 data) good) as Hped.
  rewrite np_mean0_length in Hped. specialize (Hped Hidx).
  destruct (noise_calc_returns ngood
              {| ncols := length good;
                 rows := map (fun r => map (fun i => default fzero (r !! i)) good)
                             (rows signal) |}
              (map (fun i => default fzero (np_mean0 data !! i)) good)
              numevents (length good))
    as ([[score2 cmn2] cms2] & Hrun2 & Hsh2).
  { done. }
  { cbn [rows]. rewrite length_map, Hrows32. done. }
  { simpl. apply Forall_forall. intros r Hr.
    apply list_elem_of_fmap in Hr as (r0 & -> & _). by rewrite length_map. }
  { by rewrite length_map. }
  destruct Hsh2 as (Hc2 & _). simpl in Hc2.
  eexists score1, cmn1, cms1, noisy, good, _, _, score2, cmn2, cms2.
  split; [exact Hrun1|]. split; [exact Hnoise|]. split; [exact Hdet|].
  split; [exact Htake|]. split; [exact Hped|]. split; [exact Hrun2|].
  exact Hc2.
Qed.

(** C2 (as the code has it): on a rectangular dataset with one time stamp
    per event, at least one of them not negative, and a manual mask of
    channel indices that is not empty, the constructor returns; the noise
    vector it leaves on the object, the one read downstream, is the
    standard deviation over events of the float32 residuals of the first
    pass over all channels, and its length is numchan.  The second pass,
    run on [signal[:, good_strips]] and [pedestal[good_strips]], only
    replaces the residual matrix, which has one column per good strip, and
    the per-event common-mode mean and spread. *)
Theorem C2_noise_is_first_pass (time : list F) (data : ndarray2 F)
    (noise_cut : F32) (mask : list Z) :
  rectangular data -> length time = length (rows data) ->
  0 < length (NoiseAnalysis.goodevents time) ->
  mask <> [] ->
  Forall (fun m => 0 <= m < Z.of_nat (ncols data))%Z mask ->
  let ngood := length (NoiseAnalysis.goodevents time) in
  let numevents := length (rows data) in
  let signal := NoiseAnalysis.astype32 data in
  exists o score1 CMnoise1 CMsig1 signal2 pedestal2,
    NoiseAnalysis.init (ncols data) time data noise_cut mask = Returns o /\
    NoiseAnalysis.noise_calc ngood signal (np_mean0 data) numevents
      (ncols data) = Returns (score1, CMnoise1, CMsig1) /\
    NoiseAnalysis.noise o = np_std0 score1 /\
    length (NoiseAnalysis.noise o) = ncols data /\
    take_columns signal (NoiseAnalysis.good_strips o) = Returns signal2 /\
    np_take (np_mean0 data) (NoiseAnalysis.good_strips o)
      = Returns pedestal2 /\
    NoiseAnalysis.noise_calc ngood signal2 pedestal2 numevents
      (length (NoiseAnalysis.good_strips o))
      = Returns (NoiseAnalysis.score_raw o, NoiseAnalysis.CMnoise o,
                 NoiseAnalysis.CMsig o) /\
    ncols (NoiseAnalysis.score_raw o) = length (NoiseAnalysis.good_strips o).
Proof.
  intros Hrect Htime Hgood Hne Hmask ngood numevents signal.
  destruct (two_passes_return time data noise_cut mask Hrect Htime Hne Hmask)
    as (score1 & cmn1 & cms1 & noisy & good & signal2 & pedestal2
        & score2 & cmn2 & cms2 & Hrun1 & Hlen & Hdet & Htake & Hped & Hrun2
        & Hc2).
  fold ngood numevents signal in Hrun1, Htake, Hrun2.
  eexists _, score1, cmn1, cms1, signal2, pedestal2.
  split; [|split; [exact Hrun1|]].
  - unfold NoiseAnalysis.init, NoiseAnalysis.calc_pedestal.
    rewrite Returns_bind. fold ngood numevents signal.
    rewrite Hrun1, Returns_bind, Hdet, Returns_bind, Htake, Returns_bind.
    rewrite Hped, Returns_bind, Hrun2, Returns_bind.
    rewrite np_concatenate_zeros by exact Hgood. reflexivity.
  - simpl. repeat split; try done.
Qed.


(** X22: when no time stamp is 0 or more, the constructor raises
    [ValueError] at its last statement, after both passes have returned:
    [self.score] then has no row and [np.concatenate] nothing to
    concatenate. *)
Theorem init_raises_without_good_event (time : list F) (data : ndarray2 F)
    (noise_cut : F32) (mask : list Z) :
  rectangular data -> length time = length (rows data) ->
  NoiseAnalysis.goodevents time = [] ->
  mask <> [] ->
  Forall (fun m => 0 <= m < Z.of_nat (ncols data))%Z mask ->
  NoiseAnalysis.init (ncols data) time data noise_cut mask = Raises ValueError.
Proof.
  intros Hrect Htime Hgood Hne Hmask.
  destruct (two_passes_return time data noise_cut mask Hrect Htime Hne Hmask)
    as (score1 & cmn1 & cms1 & noisy & good & signal2 & pedestal2
        & score2 & cmn2 & cms2 & Hrun1 & Hlen & Hdet & Htake & Hped & Hrun2
        & Hc2).
  unfold NoiseAnalysis.init, NoiseAnalysis.calc_pedestal.
  rewrite Returns_bind.
  rewrite Hrun1, Returns_bind, Hdet, Returns_bind, Htake, Returns_bind.
  rewrite Hped, Returns_bind, Hrun2, Returns_bind.
  by rewrite Hgood.
Qed.

End TwoPass32.

Open Scope float_scope.

Lemma C2_noise_is_first_pass_witness :
  let signal := NoiseAnalysis.astype32 swinging_batch in
  exists (o : NoiseAnalysis.obj float spec_float) score1 CMnoise1 CMsig1
         signal2 pedestal2,
    NoiseAnalysis.init 4 [1; 2; 3; 4] swinging_batch (Float32.of_float 5)
      [3%Z] = Returns o /\
    NoiseAnalysis.noise_calc 4 signal (np_mean0 swinging_batch) 4 4
      = Returns (score1, CMnoise1, CMsig1) /\
    NoiseAnalysis.noise o = np_std0 score1 /\
    length (NoiseAnalysis.noise o) = 4%nat /\
    take_columns signal (NoiseAnalysis.good_strips o) = Returns signal2 /\
    np_take (np_mean0 swinging_batch) (NoiseAnalysis.good_strips o)
      = Returns pedestal2 /\
    NoiseAnalysis.noise_calc 4 signal2 pedestal2 4
      (length (NoiseAnalysis.good_strips o))
      = Returns (NoiseAnalysis.score_raw o, NoiseAnalysis.CMnoise o,
                 NoiseAnalysis.CMsig o) /\
    ncols (NoiseAnalysis.score_raw o) = length (NoiseAnalysis.good_strips o).
Proof.
  refine (C2_noise_is_first_pass [1; 2; 3; 4] swinging_batch
            (Float32.of_float 5) [3%Z] _ _ _ _ _).
  - repeat constructor.
  - reflexivity.
  - vm_compute. lia.
  - discriminate.
  - apply Forall_singleton. simpl. lia.
Defined.


Lemma init_raises_without_good_event_witness :
  NoiseAnalysis.init 4 [-1; -2; -3; -4] swinging_batch (Float32.of_float 5)
    [3%Z]
  = @Raises (NoiseAnalysis.obj float spec_float) ValueError.
Proof.
  refine (init_raises_without_good_event [-1; -2; -3; -4] swinging_batch
            (Float32.of_float 5) [3%Z] _ _ _ _ _).
  - repeat constructor.
  - reflexivity.
  - reflexivity.
  - discriminate.
  - apply Forall_singleton. simpl. lia.
Defined.

(** C2, the claim as written, on [swinging_batch] with channel 3 masked by
    hand: channel 3 is also found noisy, three strips are good, the
    residuals of the second pass have standard deviation [[0; 0; 0]]; the
    noise vector on the object is [[5; 5; 5; 15]] in float32, of length 4. *)
Lemma C2_noise_keeps_all_channels :
  exists o : NoiseAnalysis.obj float spec_float,
    NoiseAnalysis.init 4 [1; 2; 3; 4] swinging_batch (Float32.of_float 5)
      [3%Z] = Returns o /\
    NoiseAnalysis.good_strips o = [0; 1; 2]%nat /\
    np_std0 (NoiseAnalysis.score_raw o) = map Float32.of_float [0; 0; 0] /\
    NoiseAnalysis.noise o = map Float32.of_float [5; 5; 5; 15] /\
    length (NoiseAnalysis.noise o) = 4%nat.
Proof.
  eexists. split; [vm_compute; reflexivity|].
  repeat split; vm_compute; reflexivity.
Qed.

Close Scope float_scope.

(* ===================================================================== *)
(** ** do_analysis on two concrete batches *)
(* ===================================================================== *)

Open Scope float_scope.

(** C1 at the input on which the code misses it: the timing vector is
    [[0; 5]] and [self.tmin] is 0 (the configured window went to [self.min]
    and [self.max]), so the one event whose timing exceeds [tmin] is event 1.
    [do_analysis] counts one event and returns one result, and that result is
    the processing of event 0; event 1 is never passed to [process_event]. *)
Theorem C1_loop_index_is_not_the_event_index :
  let s := EventAnalysis.init 4 run_kwargs in
  EventAnalysis.tmin s = 0 /\
  np_nonzero (map (fun t => fgt t (EventAnalysis.tmin s)) [0; 5]) = [1%nat] /\
  (exists s' st r,
     EventAnalysis.do_analysis s [] two_hits [0; 5] = Returns (s', st, [r]) /\
     EventAnalysis.events s' = 1%nat /\
     EventAnalysis.r_signal r = [2; 2; 2; -6]) /\
  (exists sn cmn cmsig,
     EventAnalysis.process_event [-1; -1; -1; -9] (EventAnalysis.pedestal s)
       0 0 (EventAnalysis.noise s) 4 = Returns ([2; 2; 2; -6], sn, cmn, cmsig)) /\
  (exists sn cmn cmsig,
     EventAnalysis.process_event [-9; -1; -1; -1] (EventAnalysis.pedestal s)
       0 0 (EventAnalysis.noise s) 4 = Returns ([-6; 2; 2; 2], sn, cmn, cmsig)).
Proof.
  repeat split.
  - eexists _, _, _. repeat split; reflexivity.
  - eexists _, _, _. reflexivity.
  - eexists _, _, _. reflexivity.
Qed.

(** C4 at the input on which the code misses it: both events of [two_hits]
    are in time.  When only event 0 has been processed the hit map read
    through its result is [[0; 0; 0; 1]].  After the batch of two, the result
    of event 0 is the same record, it holds the same array object as the
    result of event 1, and the hit map read through it is [[1; 0; 0; 1]]:
    the hit of event 1 on channel 0 has been written into it. *)
Theorem C4_results_share_one_hitmap :
  let s := EventAnalysis.init 4 run_kwargs in
  exists s1 st1 s2 st2 r1 r2,
    EventAnalysis.do_analysis s [] two_hits [1] = Returns (s1, st1, [r1]) /\
    EventAnalysis.r_channels_hit r1 = [3%nat] /\
    EventAnalysis.hitmap_of st1 r1 = Some [0; 0; 0; 1] /\
    EventAnalysis.do_analysis s [] two_hits [1; 1]
      = Returns (s2, st2, [r1; r2]) /\
    EventAnalysis.r_channels_hit r2 = [0%nat] /\
    EventAnalysis.r_hitmap r1 = EventAnalysis.r_hitmap r2 /\
    EventAnalysis.hitmap_of st2 r1 = Some [1; 0; 0; 1] /\
    EventAnalysis.hitmap_of st2 r2 = Some [1; 0; 0; 1].
Proof.
  eexists _, _, _, _, _, _. repeat split; reflexivity.
Qed.

Close Scope float_scope.

(* ===================================================================== *)
(** ** clustering: the neighbour search of one seed *)
(* ===================================================================== *)

Lemma foldM_measure {S A : Type} (body : S -> A -> outcome S) (mu : S -> nat)
    (d : nat) (xs : list A) (s s' : S) :
  (forall t x t', body t x = Returns t' -> mu t' <= mu t + d) ->
  foldM body xs s = Returns s' -> mu s' <= mu s + d * length xs.
Proof.
  intros Hstep. revert s. induction xs as [|x xs IH]; simpl; intros s E.
  - inversion E; subst. lia.
  - inv_bind E as t Ht. apply IH in E. apply Hstep in Ht. lia.
Qed.

Section Growth.
Context {F : Type} {NP : Numpy F}.
Import EventAnalysis.

(** The two ways out of [examine]: the channel was free, valid and joined
    the cluster, or the cluster and the marks are as before. *)
Lemma examine_Returns (s : self F) (SN : list F) (valid_ind : list nat)
    (c : nat) (stop : bool) (cl : list nat) (us : list bool) (sz : nat)
    (cl' : list nat) (us' : list bool) (sz' : nat) (stop' : bool) :
  examine s SN valid_ind c stop cl us sz = Returns (cl', us', sz', stop') ->
  (cl' = cl ++ [c] /\ us' = <[c:=true]> us /\ sz' = S sz /\
   us !! c = Some false /\ np_contains c valid_ind = true)
  \/ (cl' = cl /\ us' = us /\ sz' = sz).
Proof.
  unfold examine. intros E.
  inv_bind E as sn Hsn. inv_bind E as free Hfree.
  destruct (fgt (fabs sn) (fmul (SN_cut s) (SN_ratio s))) eqn:Habove;
    simpl in E.
  - inv_bind Hfree as u Hu. inversion Hfree; subst free.
    apply getitem_Returns in Hu.
    destruct u; simpl in E.
    + right. inv_bind E as sn' Hsn'.
      destruct (flt (fabs sn') _); by inversion E.
    + destruct (np_contains c valid_ind) eqn:Hval; simpl in E.
      * destruct stop; simpl in E.
        -- right. inv_bind E as sn' Hsn'.
           destruct (flt (fabs sn') _); by inversion E.
        -- left. inv_bind E as us1 Hus. inversion E; subst.
           apply setitem_Returns in Hus as [_ ->]. done.
      * right. inv_bind E as sn' Hsn'.
        destruct (flt (fabs sn') _); by inversion E.
  - right. inv_bind E as sn' Hsn'.
    destruct (flt (fabs sn') _); by inversion E.
Qed.

Lemma examine_grown (s : self F) (SN : list F) (valid_ind : list nat)
    (ch : nat) (us0 : list bool)
    (c : nat) (stop : bool) (cl : list nat) (us : list bool) (sz : nat)
    (cl' : list nat) (us' : list bool) (sz' : nat) (stop' : bool) :
  us0 !! ch = Some true ->
  grown ch valid_ind us0 cl us sz ->
  examine s SN valid_ind c stop cl us sz = Returns (cl', us', sz', stop') ->
  grown ch valid_ind us0 cl' us' sz' /\ length cl' <= S (length cl).
Proof.
  intros Hch (rest & -> & Hnd & Hrest & -> & Hus) E.
  apply examine_Returns in E as [(-> & -> & -> & Hfree & Hval)|(-> & -> & ->)].
  2: { split; [|lia]. by exists rest. }
  assert (Hnew : (c ∉ rest) /\ us0 !! c = Some false).
  { pose proof (Hus c) as Hc. rewrite Hfree in Hc.
    destruct (decide (c ∈ rest)); [discriminate | done]. }
  destruct Hnew as [Hnotin Hc0].
  assert (Hne : c <> ch) by (intros ->; congruence).
  split; [|rewrite length_app; simpl; lia].
  exists (rest ++ [c]). split; [done|]. split; [|split; [|split]].
  - change (NoDup ((ch :: rest) ++ [c])). apply NoDup_app.
    split; [done|]. split; [|apply NoDup_singleton].
    intros x Hx Hx'. apply list_elem_of_singleton in Hx'. subst x.
    apply elem_of_cons in Hx as [?|?]; done.
  - intros x Hx. apply elem_of_app in Hx as [Hx|Hx]; [by apply Hrest|].
    apply list_elem_of_singleton in Hx. by subst x.
  - simpl. rewrite !length_app. simpl. lia.
  - intros x. destruct (decide (x = c)) as [->|Hxc].
    + rewrite list_lookup_insert_eq by (by eapply lookup_lt_Some).
      rewrite decide_True; [done|]. apply elem_of_app. right.
      by apply list_elem_of_singleton.
    + rewrite list_lookup_insert_ne by done. rewrite Hus.
      destruct (decide (x ∈ rest)) as [Hin|Hnin].
      * rewrite decide_True; [done|]. apply elem_of_app. by left.
      * rewrite decide_False; [done|]. intros Hx.
        apply elem_of_app in Hx as [?|Hx]; [done|].
        by apply list_elem_of_singleton in Hx.
Qed.

Lemma grow_body_grown (s : self F) (SN : list F) (valid_ind : list nat)
    (ch : nat) (us0 : list bool) (g g' : growth) (i : nat) :
  us0 !! ch = Some true ->
  grown ch valid_ind us0 (cluster g) (used g) (size g) ->
  grow_body s SN valid_ind ch g i = Returns g' ->
  grown ch valid_ind us0 (cluster g') (used g') (size g') /\
  length (cluster g') <= length (cluster g) + 2.
Proof.
  intros Hch Hg E. unfold grow_body in E.
  destruct ((0 <? ch - i) && (ch + i <? numchan s)).
  2: { inversion E; subst. split; [done | lia]. }
  inv_bind E as r1 Hr1. destruct r1 as [[[cl1 us1] sz1] rs].
  inv_bind E as r2 Hr2. destruct r2 as [[[cl2 us2] sz2] ls].
  inversion E; subst; simpl.
  destruct (examine_grown _ _ _ _ _ _ _ _ _ _ _ _ _ _ Hch Hg Hr1) as [Hg1 Hl1].
  destruct (examine_grown _ _ _ _ _ _ _ _ _ _ _ _ _ _ Hch Hg1 Hr2) as [Hg2 Hl2].
  split; [done | lia].
Qed.

Lemma grow_body_length (s : self F) (SN : list F) (valid_ind : list nat)
    (ch : nat) (g g' : growth) (i : nat) :
  grow_body s SN valid_ind ch g i = Returns g' ->
  length (cluster g') <= length (cluster g) + 2.
Proof.
  intros E. unfold grow_body in E.
  destruct ((0 <? ch - i) && (ch + i <? numchan s)).
  2: { inversion E; subst. lia. }
  inv_bind E as r1 Hr1. destruct r1 as [[[cl1 us1] sz1] rs].
  inv_bind E as r2 Hr2. destruct r2 as [[[cl2 us2] sz2] ls].
  inversion E; subst; simpl.
  apply examine_Returns in Hr1 as [(-> & _)|(-> & _)];
    apply examine_Returns in Hr2 as [(-> & _)|(-> & _)];
    rewrite ?length_app; simpl; lia.
Qed.

(** The candidate cluster of seed [ch]: the seed first, no channel twice,
    every neighbour unmarked before and valid, at most [2 * offset]
    neighbours, all of them marked afterwards and no other mark changed. *)
Lemma grow_Returns (s : self F) (SN : list F) (valid_ind : list nat)
    (ch : nat) (us0 : list bool) (g : growth) :
  us0 !! ch = Some true ->
  grow s SN valid_ind ch us0 = Returns g ->
  grown ch valid_ind us0 (cluster g) (used g) (size g) /\
  length (cluster g) <= 2 * offset s + 1.
Proof.
  intros Hch E. unfold grow in E. split.
  - eapply (foldM_invariant _
              (fun g => grown ch valid_ind us0 (cluster g) (used g) (size g)));
      [| |exact E].
    + intros t i t' _ Ht Hrun.
      by destruct (grow_body_grown _ _ _ _ _ _ _ _ Hch Ht Hrun).
    + exists []. simpl. split; [done|]. split; [apply NoDup_singleton|].
      split; [intros x Hx; by apply elem_of_nil in Hx|]. split; [done|].
      intros x. done.
  - apply (foldM_measure _ (fun g => length (cluster g)) 2) in E.
    + rewrite length_seq in E. simpl in E. lia.
    + intros t i t'. apply grow_body_length.
Qed.

End Growth.

(* ===================================================================== *)
(** ** clustering: the loop over the seeds *)
(* ===================================================================== *)

Section SeedLoop.
Context {F : Type} {NP : Numpy F}.
Import EventAnalysis.

Lemma members_snoc (cands : list (list nat * bool)) (cl : list nat) (b : bool) :
  members (cands ++ [(cl, b)]) = members cands ++ cl.
Proof.
  unfold members. rewrite map_app, concat_app. simpl. by rewrite app_nil_r.
Qed.

Lemma elem_of_members (cands : list (list nat * bool)) (c : nat) :
  c ∈ members cands <-> exists cl b, (cl, b) ∈ cands /\ c ∈ cl.
Proof.
  unfold members. rewrite list_elem_of_In, in_concat. split.
  - intros (cl & Hcl & Hc). apply list_elem_of_In in Hcl, Hc.
    apply list_elem_of_fmap in Hcl as ([cl' b] & -> & Hin).
    by exists cl', b.
  - intros (cl & b & Hin & Hc). exists cl.
    split; apply list_elem_of_In; [|done].
    apply list_elem_of_fmap. by exists (cl, b).
Qed.

Lemma seed_step_inv (s : self F) (event SN : list F)
    (channels valid_ind : list nat) (st st' : cl_state) (ch : nat) :
  ch ∈ channels ->
  loop_inv s event channels valid_ind st ->
  seed_step s event SN valid_ind st ch = Returns st' ->
  loop_inv s event channels valid_ind st'.
Proof.
  intros Hch (Hnd & Hused & Hcands & Hcl & Hnum & Hsz) E.
  unfold seed_step in E.
  inv_bind E as u Hu. apply getitem_Returns in Hu.
  destruct u.
  { inversion E; subst.
    exact (conj Hnd (conj Hused (conj Hcands (conj Hcl (conj Hnum Hsz))))). }
  inv_bind E as us Hus. apply setitem_Returns in Hus as [Hlt ->].
  inv_bind E as g Hg. inv_bind E as vals Hvals.
  apply grow_Returns in Hg as [Hgrown Hlen];
    [|by apply list_lookup_insert_eq].
  destruct Hgrown as (rest & Hcluster & Hndc & Hrest & Hsize & Hmarks).
  assert (Hfresh : forall c, c ∈ cluster g ->
                     c ∉ members (ghost_candidates st)).
  { intros c Hc Hin. apply Hused in Hin. rewrite Hcluster in Hc.
    apply elem_of_cons in Hc as [->|Hc]; [congruence|].
    destruct (Hrest c Hc) as [Hc0 _].
    destruct (decide (c = ch)) as [->|Hne]; [congruence|].
    rewrite list_lookup_insert_ne in Hc0 by done. congruence. }
  assert (A1 : NoDup (members (ghost_candidates st) ++ cluster g)).
  { apply NoDup_app. split; [done|]. split; [|done].
    intros c Hc Hc'. by apply (Hfresh c). }
  assert (A2 : forall c, used g !! c = Some true <->
                         c ∈ members (ghost_candidates st) ++ cluster g).
  { intros c. rewrite Hmarks, elem_of_app, Hcluster, elem_of_cons.
    destruct (decide (c ∈ rest)) as [Hin|Hnin]; [by intuition|].
    destruct (decide (c = ch)) as [->|Hne].
    - rewrite list_lookup_insert_eq by done. by intuition.
    - rewrite list_lookup_insert_ne by done. rewrite Hused. by intuition. }
  assert (A3 : candidate_ok s event channels valid_ind
                 (cluster g, accepts s vals)).
  { exists ch, rest. simpl. split; [done|]. split; [done|]. split; [done|].
    split; [intros c Hc; by apply Hrest|]. split.
    - rewrite Hcluster in Hlen. simpl in Hlen. lia.
    - by exists vals. }
  destruct (accepts s vals) eqn:Hacc; inversion E; subst st'; clear E;
    unfold loop_inv; simpl; rewrite members_snoc, List.filter_app, map_app;
    simpl; rewrite ?app_nil_r.
  - split; [done|]. split; [done|]. split.
    { apply Forall_app. split; [done|]. by apply Forall_singleton. }
    rewrite <- Hcl. split; [done|]. split.
    + rewrite length_app. simpl. lia.
    + rewrite map_app. simpl. by rewrite Hsz, Hsize.
  - split; [done|]. split; [done|]. split.
    { apply Forall_app. split; [done|]. by apply Forall_singleton. }
    done.
Qed.

(** The marks, the log and the three results after the loop over the seeds,
    started with no channel marked. *)
Lemma seed_loop_inv (s : self F) (event SN : list F)
    (channels valid_ind : list nat) (n : nat) (st : cl_state) :
  foldM (seed_step s event SN valid_ind) channels
    {| used_channels := replicate n false;
       numclus := 0; clusters_list := []; clustersize := [];
       ghost_candidates := [] |} = Returns st ->
  loop_inv s event channels valid_ind st.
Proof.
  apply (foldM_invariant _ (loop_inv s event channels valid_ind)).
  - intros t x t' Hx Ht Hrun. by eapply seed_step_inv.
  - unfold loop_inv, members. simpl. split; [constructor|].
    split; [|by repeat split].
    intros c. split; [|by intros Hc; apply elem_of_nil in Hc].
    intros Hc. apply lookup_replicate in Hc as [? _]. discriminate.
Qed.

Lemma used_eq_marked (us : list bool) (n : nat) (taken : list nat) :
  length us = n ->
  (forall c, us !! c = Some true <-> c ∈ taken) ->
  us = marked n taken.
Proof.
  intros Hlen Hiff. apply list_eq. intros i. unfold marked.
  rewrite list_lookup_fmap.
  destruct (decide (i < n)) as [Hi|Hi].
  - rewrite lookup_seq_lt by done. simpl.
    destruct (lookup_lt_is_Some_2 us i) as [b Hb]; [lia|]. rewrite Hb.
    f_equal. destruct b.
    + symmetry. apply bool_decide_eq_true. by apply Hiff.
    + symmetry. apply bool_decide_eq_false. intros Hin.
      apply Hiff in Hin. congruence.
  - rewrite lookup_seq_ge by lia. simpl. apply lookup_ge_None. lia.
Qed.

Lemma examine_used_length (s : self F) (SN : list F) (valid_ind : list nat)
    (c : nat) (stop : bool) (cl : list nat) (us : list bool) (sz : nat)
    (cl' : list nat) (us' : list bool) (sz' : nat) (stop' : bool) :
  examine s SN valid_ind c stop cl us sz = Returns (cl', us', sz', stop') ->
  length us' = length us.
Proof.
  intros E. apply examine_Returns in E as [(_ & -> & _)|(_ & -> & _)];
    [apply length_insert | done].
Qed.

Lemma grow_used_length (s : self F) (SN : list F) (valid_ind : list nat)
    (ch : nat) (us0 : list bool) (g : growth) :
  grow s SN valid_ind ch us0 = Returns g -> length (used g) = length us0.
Proof.
  unfold grow.
  apply (foldM_invariant _ (fun g => length (used g) = length us0)); [|done].
  intros t i t' _ Ht E. unfold grow_body in E.
  destruct ((0 <? ch - i) && (ch + i <? numchan s)).
  2: { by inversion E; subst. }
  inv_bind E as r1 Hr1. destruct r1 as [[[cl1 us1] sz1] rs].
  inv_bind E as r2 Hr2. destruct r2 as [[[cl2 us2] sz2] ls].
  inversion E; subst; simpl.
  apply examine_used_length in Hr1, Hr2. congruence.
Qed.

Lemma formed_by_snoc (s : self F) (event SN : list F)
    (channels valid_ind : list nat) (cands : list (list nat * bool))
    (x : list nat * bool) (i : nat) (cb : list nat * bool) :
  i <= length cands ->
  formed_by s event SN channels valid_ind cands i cb ->
  formed_by s event SN channels valid_ind (cands ++ [x]) i cb.
Proof. intros Hi. unfold formed_by. by rewrite take_app_le. Qed.

Lemma seed_step_trace (s : self F) (event SN : list F)
    (channels valid_ind done todo : list nat) (st st' : cl_state)
    (ch : nat) :
  channels = done ++ ch :: todo ->
  trace_inv s event SN channels valid_ind done st ->
  seed_step s event SN valid_ind st ch = Returns st' ->
  trace_inv s event SN channels valid_ind (done ++ [ch]) st'.
Proof.
  intros Hch (Hlen & Hinv & Hcov & Hformed) E.
  assert (Hin : ch ∈ channels).
  { rewrite Hch. apply elem_of_app. right. by left. }
  pose proof (seed_step_inv _ _ _ _ _ _ _ _ Hin Hinv E) as Hinv'.
  destruct Hinv as (Hnd & Hused & _).
  unfold seed_step in E.
  inv_bind E as u Hu. apply getitem_Returns in Hu.
  destruct u.
  { inversion E; subst st'. split; [done|]. split; [done|]. split; [|done].
    intros c Hc. apply elem_of_app in Hc as [Hc|Hc]; [by apply Hcov|].
    apply list_elem_of_singleton in Hc. subst c. by apply Hused. }
  inv_bind E as us Hus. apply setitem_Returns in Hus as [Hlt ->].
  inv_bind E as g Hg. inv_bind E as vals Hvals.
  pose proof (grow_used_length _ _ _ _ _ _ Hg) as Hlg.
  rewrite length_insert, Hlen in Hlg.
  destruct (grow_Returns _ _ _ _ _ _ (list_lookup_insert_eq _ _ _ Hlt) Hg)
    as [(rest & Hcluster & _) _].
  assert (Hfree : ch ∉ members (ghost_candidates st)).
  { intros Hm. apply Hused in Hm. congruence. }
  assert (Hnew : formed_by s event SN channels valid_ind
                   (ghost_candidates st ++ [(cluster g, accepts s vals)])
                   (length (ghost_candidates st))
                   (cluster g, accepts s vals)).
  { unfold formed_by. rewrite take_app_length.
    exists ch, done, todo, rest, g, vals.
    split; [done|]. split; [by apply Forall_forall|]. split; [done|].
    split; [|done].
    by rewrite <- (used_eq_marked (used_channels st) (numchan s)
                     (members (ghost_candidates st))). }
  assert (Hstep : forall b, accepts s vals = b ->
            (forall c, c ∈ done ++ [ch] ->
               c ∈ members (ghost_candidates st ++ [(cluster g, b)])) /\
            (forall i cb,
               (ghost_candidates st ++ [(cluster g, b)]) !! i = Some cb ->
               formed_by s event SN channels valid_ind
                 (ghost_candidates st ++ [(cluster g, b)]) i cb)).
  { intros b <-. split.
    - intros c Hc. rewrite members_snoc. apply elem_of_app.
      apply elem_of_app in Hc as [Hc|Hc]; [left; by apply Hcov|].
      apply list_elem_of_singleton in Hc. subst c. right.
      rewrite Hcluster. by left.
    - intros i cb Hi.
      destruct (decide (i < length (ghost_candidates st))) as [Hlt'|Hge].
      + rewrite lookup_app_l in Hi by done.
        apply formed_by_snoc; [lia|]. by apply Hformed.
      + assert (i = length (ghost_candidates st)) as ->.
        { apply lookup_lt_Some in Hi. rewrite length_app in Hi.
          simpl in Hi. lia. }
        rewrite list_lookup_middle in Hi by done. by inversion Hi; subst. }
  destruct (accepts s vals) eqn:Hacc; inversion E; subst st'; clear E;
    destruct (Hstep _ eq_refl) as [Hc' Hf'];
    (split; [exact Hlg|]); (split; [exact Hinv'|]); split; assumption.
Qed.

Lemma seed_loop_trace (s : self F) (event SN : list F)
    (channels valid_ind : list nat) (todo : list nat) :
  forall (done : list nat) (st st' : cl_state),
    channels = done ++ todo ->
    trace_inv s event SN channels valid_ind done st ->
    foldM (seed_step s event SN valid_ind) todo st = Returns st' ->
    trace_inv s event SN channels valid_ind channels st'.
Proof.
  induction todo as [|ch todo IH]; intros done st st' Hch Hinv E.
  - simpl in E. inversion E; subst st'. rewrite app_nil_r in Hch.
    by subst done.
  - simpl in E. inv_bind E as st1 Hst1.
    apply (IH (done ++ [ch]) st1 st'); [by rewrite <- app_assoc | | done].
    by eapply seed_step_trace.
Qed.

End SeedLoop.

(* ===================================================================== *)
(** ** clustering: automasking *)
(* ===================================================================== *)

Lemma delete_from_skip {A : Type} (l : list A) (k j : nat) (dead : list Z) :
  j < k -> delete_from k (Z.of_nat j :: dead) l = delete_from k dead l.
Proof.
  revert k. induction l as [|x l IH]; intros k Hj; simpl; [done|].
  destruct (Z.eqb_spec (Z.of_nat k) (Z.of_nat j)) as [E|_]; [lia|]. simpl.
  rewrite IH by lia. done.
Qed.

(** Deleting the positions at which [q] holds keeps the entries at which it
    does not. *)
Lemma delete_from_nonzero {A : Type} (q : A -> bool) (l : list A) (k : nat) :
  delete_from k (map Z.of_nat (nonzero_from k (map q l))) l
  = List.filter (fun x => negb (q x)) l.
Proof.
  revert k. induction l as [|x l IH]; intros k; simpl; [done|].
  destruct (q x) eqn:Hq; simpl.
  - rewrite Z.eqb_refl. simpl. rewrite delete_from_skip by lia. apply IH.
  - destruct (existsb (Z.eqb (Z.of_nat k))
                (map Z.of_nat (nonzero_from (S k) (map q l)))) eqn:E.
    + apply elem_of_existsb_Z in E.
      apply list_elem_of_fmap in E as (j & Hj & Hin).
      apply Nat2Z.inj in Hj. subst j.
      apply nonzero_from_spec in Hin. lia.
    + by rewrite IH.
Qed.

Lemma nonzero_from_map_length {A : Type} (q : A -> bool) (l : list A)
    (k : nat) :
  length (nonzero_from k (map q l)) = length (List.filter q l).
Proof.
  revert k. induction l as [|x l IH]; intros k; simpl; [done|].
  destruct (q x); simpl; by rewrite IH.
Qed.

Lemma np_delete_nonzero {A : Type} (q : A -> bool) (l : list A) :
  np_delete l (map Z.of_nat (np_nonzero (map q l)))
  = Returns (List.filter (fun x => negb (q x)) l).
Proof.
  unfold np_delete, np_nonzero.
  assert (Hr : Forall (fun z => 0 <= z < Z.of_nat (length l))%Z
                 (map Z.of_nat (nonzero_from 0 (map q l)))).
  { apply Forall_forall. intros z Hz.
    apply list_elem_of_fmap in Hz as (j & -> & Hj).
    apply nonzero_from_spec in Hj as [_ Hj]. apply lookup_lt_Some in Hj.
    rewrite length_map in Hj. lia. }
  rewrite forallb_index_ok by done.
  rewrite map_wrap_index_nonneg.
  - by rewrite delete_from_nonzero.
  - eapply Forall_impl; [exact Hr|]. simpl. lia.
Qed.

Lemma forM_getitem_map {A B : Type} (d : B) (f : A -> B) (a : list A)
    (idx : list nat) (vals : list A) :
  forM (getitem a) idx = Returns vals ->
  map f vals = map (fun i => match a !! i with Some x => f x | None => d end)
                   idx.
Proof.
  revert vals. induction idx as [|i idx IH]; simpl; intros vals E.
  - by inversion E.
  - inv_bind E as x Hx. inv_bind E as xs Hxs. inversion E; subst. simpl.
    apply getitem_Returns in Hx. rewrite Hx. f_equal. by apply IH.
Qed.

Section Automask.
Context {F : Type} {NP : Numpy F}.
Import EventAnalysis.

(** The automasking block when positive signals are rejected. *)
Lemma automask_positive (s : self F) (event : list F)
    (seeds channels valid_ind : list nat) (n : nat) :
  masking s = true -> material s = true ->
  automask s event seeds = Returns (channels, valid_ind, n) ->
  channels = List.filter (fun ch => negb (positive_at event ch)) seeds /\
  valid_ind = np_nonzero (map (fun x => flt x fzero) event) /\
  n = automasked_hit s + length (List.filter (positive_at event) seeds).
Proof.
  intros Hmask Hmat E. unfold automask in E. rewrite Hmask, Hmat in E.
  inv_bind E as vals Hvals.
  assert (Hm : map (fun x => fgt x fzero) vals = map (positive_at event) seeds)
    by exact (forM_getitem_map false (fun x => fgt x fzero) _ _ _ Hvals).
  rewrite Hm in E.
  pose proof (np_delete_nonzero (positive_at event) seeds) as Hdel.
  assert (Hlen : length (np_nonzero (map (positive_at event) seeds))
                 = length (List.filter (positive_at event) seeds)).
  { unfold np_nonzero. by rewrite nonzero_from_map_length. }
  destruct (0 <? length (np_nonzero (map (positive_at event) seeds))) eqn:Hpos.
  - rewrite Hdel in E. simpl in E. inversion E; subst. by rewrite Hlen.
  - apply Nat.ltb_ge in Hpos. inversion E; subst.
    assert (Hnil : np_nonzero (map (positive_at event) channels) = [])
      by (apply length_zero_iff_nil; lia).
    rewrite Hnil in Hdel. unfold np_delete in Hdel. simpl in Hdel.
    inversion Hdel as [Hd].
    split; [|split; [done | rewrite <- Hlen, Hnil; simpl; lia]].
    clear. generalize 0. induction channels as [|x l IH]; intros k; simpl;
      [done | by rewrite <- IH].
Qed.

(** [clustering] is the automasking block followed by the loop over the
    seeds, started with no channel marked. *)
Lemma clustering_run_Returns (s s' : self F) (event SN : list F)
    (channels : list nat) (st : cl_state) :
  clustering_run s event SN = Returns (s', channels, st) ->
  exists valid_ind,
    automask s event (seed_channels s SN)
      = Returns (channels, valid_ind, automasked_hit s') /\
    s' = set_automasked_hit s (automasked_hit s') /\
    loop_inv s' event channels valid_ind st.
Proof.
  intros E. unfold clustering_run in E.
  inv_bind E as r Hr. destruct r as [[chs valid_ind] masked].
  inv_bind E as st0 Hst. inversion E; subst. simpl.
  exists valid_ind. split; [done|]. split; [done|].
  by eapply seed_loop_inv.
Qed.

Lemma clustering_Returns (s s' : self F) (event SN : list F)
    (channels : list nat) (clusters : list (list nat)) (n : nat)
    (sizes : list nat) :
  clustering s event SN = Returns (s', (channels, clusters, n, sizes)) ->
  exists st,
    clustering_run s event SN = Returns (s', channels, st) /\
    clusters = clusters_list st /\ n = numclus st /\ sizes = clustersize st.
Proof.
  intros E. unfold clustering in E.
  inv_bind E as r Hr. destruct r as [[s1 chs] st].
  inversion E; subst. by exists st.
Qed.

End Automask.

(* ===================================================================== *)
(** ** clustering: what the returned clusters satisfy *)
(* ===================================================================== *)

Lemma NoDup_concat_disjoint {A : Type} (ls : list (list A)) (i j : nat)
    (a b : list A) (c : A) :
  NoDup (concat ls) -> i <> j -> ls !! i = Some a -> ls !! j = Some b ->
  c ∈ a -> c ∉ b.
Proof.
  revert i j. induction ls as [|l ls IH]; intros i j Hnd Hij Hi Hj Ha Hb;
    [done|].
  simpl in Hnd. apply NoDup_app in Hnd as (_ & Hdisj & Hnd).
  assert (Hin : forall k x y, ls !! k = Some x -> y ∈ x -> y ∈ concat ls).
  { intros k x y Hk Hy. apply list_elem_of_In, in_concat. exists x.
    split; apply list_elem_of_In; [by eapply list_elem_of_lookup_2 | done]. }
  destruct i as [|i], j as [|j]; simpl in *; try done.
  - inversion Hi; subst. apply (Hdisj c Ha). by eapply Hin.
  - inversion Hj; subst. apply (Hdisj c Hb). by eapply Hin.
  - eapply (IH i j); eauto.
Qed.

Section Clusters.
Context {F : Type} {NP : Numpy F}.
Import EventAnalysis.

(** The loop over the seeds starts with no channel marked and no
    candidate. *)
Lemma trace_inv_init (s : self F) (event SN : list F)
    (channels valid_ind : list nat) :
  trace_inv s event SN channels valid_ind []
    {| used_channels := replicate (numchan s) false;
       numclus := 0; clusters_list := []; clustersize := [];
       ghost_candidates := [] |}.
Proof.
  split; [apply length_replicate|]. split; [|split].
  - unfold loop_inv, members. simpl. split; [constructor|].
    split; [|by repeat split].
    intros c. split; [|by intros Hc; apply elem_of_nil in Hc].
    intros Hc. apply lookup_replicate in Hc as [? _]. discriminate.
  - intros ch Hch. by apply elem_of_nil in Hch.
  - intros i cb Hi. simpl in Hi. by destruct i.
Qed.

(** C7: the candidate clusters of an event are formed one after the other,
    each by the neighbour search from the first channel of [channels] that
    no earlier candidate holds, on marks that hold every channel of every
    earlier candidate, accepted or rejected; every channel of [channels]
    ends up in a candidate, and no channel is in two candidates or twice
    in one, so no channel of a rejected candidate seeds or joins another
    one, and the marks at the end of the loop are exactly the channels of
    the candidates.  A candidate is appended to the returned list, counted,
    and its size recorded exactly when the root of the absolute sum of the
    signal over its channels exceeds [SN_cluster]: the returned clusters
    are the accepted candidates in the order they were formed, [numclus] is
    their number and [clustersize] their sizes. *)
Theorem C7_accepted_iff_above_cut (s s' : self F) (event SN : list F)
    (channels : list nat) (clusters : list (list nat)) (n : nat)
    (sizes : list nat) :
  clustering s event SN = Returns (s', (channels, clusters, n, sizes)) ->
  exists valid_ind cands st,
    automask s event (seed_channels s SN)
      = Returns (channels, valid_ind, automasked_hit s') /\
    clustering_run s event SN = Returns (s', channels, st) /\
    (forall i cb, cands !! i = Some cb ->
       formed_by s event SN channels valid_ind cands i cb) /\
    (forall ch, ch ∈ channels -> ch ∈ members cands) /\
    NoDup (members cands) /\
    used_channels st = marked (numchan s) (members cands) /\
    clusters = map fst (List.filter snd cands) /\
    n = length clusters /\
    sizes = map length clusters.
Proof.
  intros E. apply clustering_Returns in E as (st & Hrun & -> & -> & ->).
  pose proof Hrun as Hrun'. unfold clustering_run in Hrun'.
  inv_bind Hrun' as r Hr. destruct r as [[chs vi] m].
  inv_bind Hrun' as st0 Hst. inversion Hrun'; subst st0 chs s'. clear Hrun'.
  apply (seed_loop_trace _ _ _ channels vi channels [] _ st eq_refl
           (trace_inv_init _ _ _ _ _)) in Hst.
  destruct Hst as (Hlen & (Hnd & Hused & _ & Hcl & Hnum & Hsz) & Hcov & Hformed).
  exists vi, (ghost_candidates st), st.
  split; [exact Hr|]. split; [exact Hrun|]. split; [exact Hformed|].
  split; [exact Hcov|]. split; [exact Hnd|]. split.
  { exact (used_eq_marked _ _ _ Hlen Hused). }
  rewrite <- Hcl. split; [done|]. split; [done | exact Hsz].
Qed.

(** C9: with masking enabled and positive signals rejected, the returned
    [channels] are the seeds whose signal is not positive, in order; the
    automasked-hit total grows by the number of seeds of positive signal;
    and no channel of positive signal is in a returned cluster.  (Needs of
    the float comparison only that no number is both below and above
    zero.) *)
Theorem C9_positive_channels_are_masked (s s' : self F) (event SN : list F)
    (channels : list nat) (clusters : list (list nat)) (n : nat)
    (sizes : list nat) :
  (forall a, flt a fzero = true -> flt fzero a = false) ->
  masking s = true -> material s = true ->
  clustering s event SN = Returns (s', (channels, clusters, n, sizes)) ->
  channels = List.filter (fun ch => negb (positive_at event ch))
                         (seed_channels s SN) /\
  automasked_hit s'
    = automasked_hit s
      + length (List.filter (positive_at event) (seed_channels s SN)) /\
  (forall ch, ch ∈ seed_channels s SN -> positive_at event ch = true ->
     ch ∉ channels) /\
  (forall cl c, cl ∈ clusters -> c ∈ cl -> positive_at event c = false).
Proof.
  intros Hasym Hmask Hmat E.
  apply clustering_Returns in E as (st & Hrun & -> & _ & _).
  apply clustering_run_Returns in Hrun as (valid_ind & Hauto & Hs' & Hinv).
  apply automask_positive in Hauto as (Hch & Hvalid & Hn); [|done|done].
  destruct Hinv as (_ & _ & Hcands & Hcl & _ & _).
  split; [done|]. split; [done|]. split.
  - intros ch _ Hpos Hin. rewrite Hch in Hin.
    apply list_elem_of_In, filter_In in Hin as [_ Hneg].
    rewrite Hpos in Hneg. discriminate.
  - intros cl c Hcl' Hc. rewrite Hcl in Hcl'.
    apply list_elem_of_fmap in Hcl' as ([cl0 b] & -> & Hin). simpl in Hc.
    apply list_elem_of_In, filter_In in Hin as [Hin _].
    apply list_elem_of_In in Hin. rewrite Forall_forall in Hcands.
    destruct (Hcands _ Hin) as (seed & rest & Hcl0 & _ & Hseed & Hrest & _).
    simpl in Hcl0. subst cl0.
    apply elem_of_cons in Hc as [->|Hc].
    + rewrite Hch in Hseed.
      apply list_elem_of_In, filter_In in Hseed as [_ Hneg].
      by destruct (positive_at event seed).
    + specialize (Hrest c Hc). unfold np_contains in Hrest.
      apply existsb_exists in Hrest as (y & Hy & Heq).
      apply Nat.eqb_eq in Heq. subst y. apply list_elem_of_In in Hy.
      rewrite Hvalid in Hy. apply np_nonzero_spec in Hy.
      rewrite list_lookup_fmap in Hy. unfold positive_at, fgt.
      destruct (event !! c) as [x|]; [|done]. simpl in Hy.
      inversion Hy as [Hlt]. by apply Hasym.
Qed.

(** Every returned cluster has no channel twice and between 1 and
    [2 * floor(max_clustersize / 2) + 1] channels. *)
Lemma clustering_cluster_sizes (s s' : self F) (event SN : list F)
    (channels : list nat) (clusters : list (list nat)) (n : nat)
    (sizes : list nat) :
  clustering s event SN = Returns (s', (channels, clusters, n, sizes)) ->
  Forall (fun cl => NoDup cl /\
                    1 <= length cl <= 2 * (max_clustersize s / 2) + 1)
         clusters.
Proof.
  intros E. apply clustering_Returns in E as (st & Hrun & -> & _ & _).
  apply clustering_run_Returns in Hrun as (valid_ind & _ & Hs' & Hinv).
  destruct Hinv as (_ & _ & Hcands & Hcl & _ & _).
  apply Forall_forall. intros cl Hin. rewrite Hcl in Hin.
  apply list_elem_of_fmap in Hin as ([cl0 b] & -> & Hin). simpl.
  apply list_elem_of_In, filter_In in Hin as [Hin _].
  apply list_elem_of_In in Hin. rewrite Forall_forall in Hcands.
  destruct (Hcands _ Hin) as (seed & rest & Hcl0 & Hnd & _ & _ & Hlen & _).
  simpl in Hcl0, Hnd. split; [done|]. subst cl0. simpl.
  rewrite Hs' in Hlen. unfold offset in Hlen. simpl in Hlen. lia.
Qed.

End Clusters.

(* ===================================================================== *)
(** ** clustering on concrete events *)
(* ===================================================================== *)

Example weak_pair_candidates :
  exists st,
    EventAnalysis.clustering_run (clustering_self 8 false 5)
      weak_pair_signal weak_pair_SN
      = Returns (clustering_self 8 false 5, [2; 3; 6], st) /\
    EventAnalysis.ghost_candidates st = [([2; 3], false); ([6], true)] /\
    EventAnalysis.clusters_list st = [[6]].
Proof. eexists. repeat split; reflexivity. Qed.

Lemma C7_accepted_iff_above_cut_witness :
  let s := clustering_self 8 false 5 in
  exists valid_ind cands st,
    EventAnalysis.automask s weak_pair_signal
      (EventAnalysis.seed_channels s weak_pair_SN)
      = Returns ([2; 3; 6], valid_ind, EventAnalysis.automasked_hit s) /\
    EventAnalysis.clustering_run s weak_pair_signal weak_pair_SN
      = Returns (s, [2; 3; 6], st) /\
    (forall i cb, cands !! i = Some cb ->
       formed_by s weak_pair_signal weak_pair_SN [2; 3; 6] valid_ind cands
         i cb) /\
    (forall ch, ch ∈ [2; 3; 6] -> ch ∈ members cands) /\
    NoDup (members cands) /\
    EventAnalysis.used_channels st
      = marked (EventAnalysis.numchan s) (members cands) /\
    [[6]] = map fst (List.filter snd cands) /\
    1 = length [[6]] /\
    [1] = map length [[6]].
Proof.
  refine (C7_accepted_iff_above_cut (clustering_self 8 false 5)
            (clustering_self 8 false 5) weak_pair_signal weak_pair_SN
            [2; 3; 6] [[6]] 1 [1] _).
  reflexivity.
Defined.

Lemma C9_positive_channels_are_masked_witness :
  let s := clustering_self 6 true 5 in
  let s' := EventAnalysis.set_automasked_hit s 1 in
  [3; 4] = List.filter (fun ch => negb (positive_at mixed_sign_signal ch))
                       (EventAnalysis.seed_channels s mixed_sign_signal) /\
  EventAnalysis.automasked_hit s'
    = EventAnalysis.automasked_hit s
      + length (List.filter (positive_at mixed_sign_signal)
                  (EventAnalysis.seed_channels s mixed_sign_signal)) /\
  (forall ch, ch ∈ EventAnalysis.seed_channels s mixed_sign_signal ->
     positive_at mixed_sign_signal ch = true -> ch ∉ [3; 4]) /\
  (forall cl c, cl ∈ [[3; 4]] -> c ∈ cl ->
     positive_at mixed_sign_signal c = false).
Proof.
  refine (C9_positive_channels_are_masked (clustering_self 6 true 5)
            (EventAnalysis.set_automasked_hit (clustering_self 6 true 5) 1)
            mixed_sign_signal mixed_sign_signal
            [3; 4] [[3; 4]] 1 [2] _ _ _ _).
  - exact float64_lt_zero_asym.
  - reflexivity.
  - reflexivity.
  - reflexivity.
Defined.

(** C10: every cluster that [clustering] returns has no channel twice and
    between 1 and [2 * floor(max_clustersize / 2) + 1] channels; and the
    upper bound is reached above the configured maximum: with
    [max_clustersize = 2] the seed 2 of a four-channel event takes both of
    its neighbours and the returned cluster has three channels. *)
Theorem C10_cluster_size_bounds :
  (forall (F : Type) (NP : Numpy F) (s s' : EventAnalysis.self F)
          (event SN : list F) (channels : list nat)
          (clusters : list (list nat)) (n : nat) (sizes : list nat),
     EventAnalysis.clustering s event SN
       = Returns (s', (channels, clusters, n, sizes)) ->
     Forall (fun cl => NoDup cl /\
               1 <= length cl
                 <= 2 * (EventAnalysis.max_clustersize s / 2) + 1)
            clusters) /\
  (let s := clustering_self 4 false 2 in
   Nat.even (EventAnalysis.max_clustersize s) = true /\
   EventAnalysis.clustering s [0; -30; -100; -30]%float
       [0; -3; -10; -3]%float
     = Returns (s, ([2], [[2; 3; 1]], 1, [3])) /\
   length [2; 3; 1] = EventAnalysis.max_clustersize s + 1).
Proof.
  split.
  - intros F NP s s' event SN channels clusters n sizes E.
    by eapply clustering_cluster_sizes.
  - repeat split; reflexivity.
Qed.


(* ===================================================================== *)
(** ** clustering returns on arrays of the detector's shape *)
(* ===================================================================== *)

Section ClusteringReturns.
Context {F : Type} {NP : Numpy F}.
Import EventAnalysis.

Lemma examine_returns (s : self F) (SN : list F) (valid_ind : list nat)
    (c : nat) (stop : bool) (cl : list nat) (us : list bool) (sz : nat) :
  c < length SN -> c < length us ->
  exists cl' us' sz' stop',
    examine s SN valid_ind c stop cl us sz = Returns (cl', us', sz', stop') /\
    length us' = length us /\ (cl' = cl \/ cl' = cl ++ [c]).
Proof.
  intros Hsn Hus. unfold examine.
  destruct (getitem_lt SN c Hsn) as (sn & -> & _).
  destruct (getitem_lt us c Hus) as (u & Hu & _). simpl.
  destruct (fgt (fabs sn) (fmul (SN_cut s) (SN_ratio s))); simpl.
  - rewrite Hu. simpl.
    destruct (negb u && np_contains c valid_ind && negb stop).
    + rewrite setitem_lt by done. simpl. eexists _, _, _, _.
      split; [done|]. rewrite length_insert. auto.
    + destruct (flt (fabs sn) _); eexists _, _, _, _; auto.
  - destruct (flt (fabs sn) _); eexists _, _, _, _; auto.
Qed.

Lemma grow_body_returns (s : self F) (SN : list F) (valid_ind : list nat)
    (ch : nat) (g : growth) (i : nat) :
  length SN = numchan s -> growth_fits (numchan s) g ->
  exists g', grow_body s SN valid_ind ch g i = Returns g' /\
             growth_fits (numchan s) g'.
Proof.
  intros Hsn [Hus Hcl]. unfold grow_body.
  destruct ((0 <? ch - i) && (ch + i <? numchan s)) eqn:Hguard;
    [|by exists g].
  apply andb_true_iff in Hguard as [Hlo Hhi].
  apply Nat.ltb_lt in Hlo, Hhi.
  destruct (examine_returns s SN valid_ind (ch + i) (right_stop g)
              (cluster g) (used g) (size g))
    as (cl1 & us1 & sz1 & rs & -> & Hl1 & Hc1); [lia | lia |]. simpl.
  destruct (examine_returns s SN valid_ind (ch - i) (left_stop g) cl1 us1 sz1)
    as (cl2 & us2 & sz2 & ls & -> & Hl2 & Hc2); [lia | lia |]. simpl.
  eexists. split; [done|]. split; simpl; [lia|].
  assert (H1 : Forall (fun c => c < numchan s) cl1).
  { destruct Hc1 as [->| ->]; [done|]. apply Forall_app. split; [done|].
    apply Forall_singleton. lia. }
  destruct Hc2 as [->| ->]; [done|]. apply Forall_app. split; [done|].
  apply Forall_singleton. lia.
Qed.

Lemma seed_step_returns (s : self F) (event SN : list F)
    (valid_ind : list nat) (st : cl_state) (ch : nat) :
  length SN = numchan s -> length event = numchan s -> ch < numchan s ->
  length (used_channels st) = numchan s ->
  exists st', seed_step s event SN valid_ind st ch = Returns st' /\
              length (used_channels st') = numchan s.
Proof.
  intros Hsn Hev Hch Hus. unfold seed_step.
  destruct (getitem_lt (used_channels st) ch) as (u & -> & _); [lia|]. simpl.
  destruct u; [by exists st|].
  rewrite setitem_lt by lia. simpl.
  destruct (foldM_returns (grow_body s SN valid_ind ch)
              (growth_fits (numchan s)) (seq 1 (offset s))
              {| cluster := [ch]; used := <[ch:=true]> (used_channels st);
                 size := 1; right_stop := false; left_stop := false |})
    as (g & Hg & Hlen & Hcl).
  { intros t i _ Ht. by apply grow_body_returns. }
  { split; simpl; [by rewrite length_insert|]. by apply Forall_singleton. }
  unfold grow. rewrite Hg. simpl.
  rewrite (np_take_returns fzero event (cluster g));
    [|by rewrite Hev]. simpl.
  destruct (accepts s _); eexists; (split; [done|]); done.
Qed.

Lemma seed_channels_lt (s : self F) (SN : list F) (ch : nat) :
  ch ∈ seed_channels s SN -> ch < length SN.
Proof.
  unfold seed_channels. rewrite np_nonzero_spec. intros Hc.
  apply lookup_lt_Some in Hc. by rewrite length_map in Hc.
Qed.

Lemma automask_returns (s : self F) (event : list F) (seeds : list nat) :
  Forall (fun ch => ch < length event) seeds ->
  exists channels valid_ind n,
    automask s event seeds = Returns (channels, valid_ind, n) /\
    channels ⊆ seeds.
Proof.
  intros Hseeds. unfold automask.
  destruct (masking s); [|by eexists _, _, _].
  rewrite (np_take_returns fzero event seeds) by done. simpl.
  rewrite map_map.
  match goal with
  | |- context [np_nonzero (map ?q seeds)] =>
      pose proof (np_delete_nonzero q seeds) as Hdel
  end.
  destruct (0 <? _); [|by eexists _, _, _].
  rewrite Hdel. simpl. eexists _, _, _. split; [done|].
  intros x Hx. apply list_elem_of_In, filter_In in Hx as [Hx _].
  by apply list_elem_of_In.
Qed.

(** On an S/N vector and a signal vector of [numchan] entries, [clustering]
    returns: none of its index operations is out of range. *)
Lemma clustering_returns (s : self F) (event SN : list F) :
  length SN = numchan s -> length event = numchan s ->
  exists s' channels clusters n sizes,
    clustering s event SN = Returns (s', (channels, clusters, n, sizes)).
Proof.
  intros Hsn Hev. unfold clustering, clustering_run.
  destruct (automask_returns s event (seed_channels s SN))
    as (channels & valid_ind & m & -> & Hsub).
  { apply Forall_forall. intros ch Hch. apply seed_channels_lt in Hch. lia. }
  simpl.
  destruct (foldM_returns
              (seed_step (set_automasked_hit s m) event SN valid_ind)
              (fun st => length (used_channels st) = numchan s) channels
              {| used_channels := replicate (numchan s) false;
                 numclus := 0; clusters_list := []; clustersize := [];
                 ghost_candidates := [] |})
    as (st & Hst & _).
  { intros t ch Hch Ht.
    apply (seed_step_returns (set_automasked_hit s m)); simpl; try done.
    apply Hsub, seed_channels_lt in Hch. lia. }
  { simpl. by rewrite length_replicate. }
  simpl in Hst. rewrite Hst. simpl. by eexists _, _, _, _, _.
Qed.

End ClusteringReturns.

(* ===================================================================== *)
(** ** do_analysis: which events are processed, which array is stored *)
(* ===================================================================== *)

Section BatchRunner.
Context {F : Type} {NP : Numpy F}.
Import EventAnalysis.

Lemma analysis_body_Returns (raw_events : ndarray2 F) (meanCMN meanCMsig : F)
    (hitmap : nat) (s s' : self F) (st st' : store F)
    (pd pd' : list (event_result F)) (k : nat) :
  analysis_body raw_events meanCMN meanCMsig hitmap (s, st, pd) k
    = Returns (s', st', pd') ->
  exists r, pd' = pd ++ [r] /\
            s' = set_automasked_hit s (automasked_hit s') /\
            result_of_row s raw_events meanCMN meanCMsig hitmap k r.
Proof.
  intros E. unfold analysis_body in E.
  inv_bind E as raw Hraw. apply getitem_Returns in Hraw.
  inv_bind E as p Hp. destruct p as [[[signal SN] cmn] cmsig].
  inv_bind E as c Hc. destruct c as [s1 [[[chs cls] n] szs]].
  inv_bind E as st1 Hst. inversion E; subst. eexists. split; [done|].
  apply clustering_Returns in Hc as (cst & Hrun & _).
  apply clustering_run_Returns in Hrun as (valid_ind & _ & Hs' & _).
  split; [done|]. split; [done|]. simpl. by exists raw, cmn, cmsig.
Qed.

Lemma analysis_loop_Returns (raw_events : ndarray2 F) (meanCMN meanCMsig : F)
    (hitmap : nat) (n a : nat) (s s' : self F) (st st' : store F)
    (pd pd' : list (event_result F)) :
  foldM (analysis_body raw_events meanCMN meanCMsig hitmap) (seq a n)
        (s, st, pd) = Returns (s', st', pd') ->
  exists new,
    pd' = pd ++ new /\ length new = n /\
    s' = set_automasked_hit s (automasked_hit s') /\
    forall j r, new !! j = Some r ->
      result_of_row s raw_events meanCMN meanCMsig hitmap (a + j) r.
Proof.
  revert a s st pd. induction n as [|n IH]; intros a s st pd E; simpl in E.
  - inversion E; subst. exists []. rewrite app_nil_r.
    split; [done|]. split; [done|]. split; [by destruct s'|]. by intros j r Hj.
  - inv_bind E as acc Hacc. destruct acc as [[s1 st1] pd1].
    apply analysis_body_Returns in Hacc as (r & -> & Hs1 & Hr).
    apply IH in E as (new & -> & Hlen & Hs' & Hnew).
    exists (r :: new). rewrite <- app_assoc. split; [done|].
    split; [simpl; lia|]. split.
    + rewrite Hs', Hs1. done.
    + intros [|j] r' Hj; simpl in Hj.
      * inversion Hj; subst. by rewrite Nat.add_0_r.
      * specialize (Hnew j r' Hj). rewrite Hs1 in Hnew.
        replace (a + S j) with (S a + j) by lia. exact Hnew.
Qed.

(** What [do_analysis] does on every batch: it returns one result per event
    whose timing exceeds [tmin] and adds their number to [self.events]; the
    result at position [k] is the processing of row [k] of the batch, the
    [k]-th event, whatever its timing; and every result holds the same
    reference, the one array allocated before the loop. *)
Lemma do_analysis_Returns (s s' : self F) (st st' : store F)
    (raw_events : ndarray2 F) (timing : list F)
    (prodata : list (event_result F)) :
  do_analysis s st raw_events timing = Returns (s', st', prodata) ->
  let n := length (np_nonzero (map (fun t => fgt t (tmin s)) timing)) in
  length prodata = n /\
  events s' = events s + n /\
  forall k r, prodata !! k = Some r ->
    result_of_row s raw_events (np_mean (CMN s)) (np_mean (CMsig s))
      (length st) k r.
Proof.
  intros E n. unfold do_analysis, alloc in E. fold n in E.
  apply analysis_loop_Returns in E as (new & Hpd & Hlen & Hs' & Hnew).
  simpl in Hpd. subst new. split; [done|]. split.
  - rewrite Hs'. done.
  - intros k r Hk. exact (Hnew k r Hk).
Qed.

End BatchRunner.

(* ===================================================================== *)
(** ** More on process_event *)
(* ===================================================================== *)

Section ProcessEventMore.
Context {F : Type} {NP : Numpy F}.

Lemma broadcast2_cases {A B C : Type} (f : A -> B -> C) (xs : list A)
    (ys : list B) :
  (exists zs, broadcast2 f xs ys = Returns zs) \/
  (broadcast2 f xs ys = Raises ValueError /\
   length xs <> length ys /\ length xs <> 1 /\ length ys <> 1).
Proof.
  unfold broadcast2. destruct (Nat.eqb_spec (length xs) (length ys)) as [E|E].
  - left. eauto.
  - destruct xs as [|x [|x' xs]]; [| left; eauto |];
      (destruct ys as [|y [|y' ys]]; [| left; eauto |]);
      solve [left; eauto | right; simpl in *; repeat split; (done || lia)].
Qed.

(** X1: the only exception that [process_event] can raise is the
    [ValueError] of numpy broadcasting: whatever the arguments, it returns
    or raises [ValueError]; and it does raise when the event and the
    pedestal have different lengths neither of which is 1. *)
Theorem process_event_raises_only_ValueError (event pedestal : list F)
    (meanCMN meanCMsig : F) (noise : list F) (numchan : nat) :
  ((exists r, EventAnalysis.process_event event pedestal meanCMN meanCMsig
                noise numchan = Returns r) \/
   EventAnalysis.process_event event pedestal meanCMN meanCMsig noise numchan
     = Raises ValueError) /\
  (length event <> length pedestal /\ length event <> 1 /\
   length pedestal <> 1 ->
   EventAnalysis.process_event event pedestal meanCMN meanCMsig noise numchan
     = Raises ValueError).
Proof.
  unfold EventAnalysis.process_event.
  destruct (broadcast2_cases fsub event pedestal)
    as [[signal Hs]|(Hs & Hne & H1 & H2)]; rewrite Hs; simpl.
  - split.
    + rewrite np_take_nonzero. simpl.
      destruct (np_any _); [|left; eauto].
      destruct (broadcast2_cases fdiv
                  (map (fun x => fsub x (np_mean
                     (List.filter (fun x0 => flt x0
                        (fadd (fmul (fof_nat 5) meanCMsig) meanCMN)) signal)))
                     signal) noise) as [[SN ->]|(-> & _)]; simpl; eauto.
    + intros (Hne & H1 & H2). unfold broadcast2 in Hs.
      destruct (Nat.eqb_spec (length event) (length pedestal)); [done|].
      destruct event as [|x [|x' event]]; simpl in *; try done;
        destruct pedestal as [|y [|y' pedestal]]; simpl in *; done.
  - split; [by right | done].
Qed.

(** On arrays of [numchan] entries both vectors that [process_event]
    returns have [numchan] entries, in either branch. *)
Lemma process_event_lengths (event pedestal : list F)
    (meanCMN meanCMsig : F) (noise : list F) (numchan : nat) :
  length event = numchan -> length pedestal = numchan ->
  length noise = numchan ->
  exists signal SN cmn cmsig,
    EventAnalysis.process_event event pedestal meanCMN meanCMsig noise numchan
      = Returns (signal, SN, cmn, cmsig) /\
    length signal = numchan /\ length SN = numchan.
Proof.
  intros He Hp Hn. rewrite process_event_shape by lia. simpl.
  destruct (np_any _); eexists _, _, _, _; (split; [done|]).
  - rewrite length_zip_with, !length_map, length_zip_with. lia.
  - unfold np_zeros. by rewrite length_replicate.
Qed.

End ProcessEventMore.

(* ===================================================================== *)
(** ** More on clustering *)
(* ===================================================================== *)

Lemma nonzero_from_all_false (k : nat) (mask : list bool) :
  Forall (fun b => b = false) mask -> nonzero_from k mask = [].
Proof.
  intros Hm. revert k. induction Hm as [|b mask -> _ IH]; intros k; simpl;
    [done | apply IH].
Qed.

Lemma nonzero_from_sorted (k : nat) (mask : list bool) :
  StronglySorted lt (nonzero_from k mask) /\
  Forall (fun c => k <= c < k + length mask) (nonzero_from k mask).
Proof.
  revert k. induction mask as [|b mask IH]; intros k; simpl.
  - split; constructor.
  - destruct (IH (S k)) as [Hs Hb]. destruct b.
    + split.
      * constructor; [done|]. eapply Forall_impl; [exact Hb|]. simpl. lia.
      * constructor; [lia|]. eapply Forall_impl; [exact Hb|]. simpl. lia.
    + split; [done|]. eapply Forall_impl; [exact Hb|]. simpl. lia.
Qed.

Lemma StronglySorted_filter_lt (q : nat -> bool) (l : list nat) :
  StronglySorted lt l -> StronglySorted lt (List.filter q l).
Proof.
  induction 1 as [|x l Hs IH Hx]; simpl; [constructor|].
  destruct (q x); [|done]. constructor; [done|].
  apply Forall_forall. intros y Hy.
  apply list_elem_of_In, filter_In in Hy as [Hy _].
  rewrite Forall_forall in Hx. by apply Hx, list_elem_of_In.
Qed.

Lemma filter_negb_length {A : Type} (q : A -> bool) (l : list A) :
  length (List.filter q l) + length (List.filter (fun x => negb (q x)) l)
  = length l.
Proof.
  induction l as [|x l IH]; simpl; [done|]. destruct (q x); simpl; lia.
Qed.

Section ClusteringMore.
Context {F : Type} {NP : Numpy F}.
Import EventAnalysis.

Lemma set_automasked_hit_same (s : self F) :
  set_automasked_hit s (automasked_hit s) = s.
Proof. by destruct s. Qed.

(** The automasking block in general: it keeps a subsequence of the seeds
    and adds the number of seeds it removed to the total. *)
Lemma automask_Returns (s : self F) (event : list F)
    (seeds channels valid_ind : list nat) (n : nat) :
  automask s event seeds = Returns (channels, valid_ind, n) ->
  exists q,
    channels = List.filter q seeds /\
    n = automasked_hit s
        + length (List.filter (fun ch => negb (q ch)) seeds) /\
    (masking s = false -> channels = seeds /\ n = automasked_hit s).
Proof.
  intros E. unfold automask in E. destruct (masking s).
  2: { inversion E; subst. exists (fun _ => true). split; [|split; [|done]].
       - clear. induction channels as [|x l IH]; simpl; [done | by f_equal].
       - clear. induction channels as [|x l IH]; simpl; [lia | done]. }
  inv_bind E as vals Hvals.
  set (wrong := fun x : F => if material s then fgt x fzero else flt x fzero)
    in *.
  set (w := fun ch => match event !! ch with
                      | Some x => wrong x
                      | None => false
                      end).
  assert (Hm : map wrong vals = map w seeds)
    by exact (forM_getitem_map false wrong _ _ _ Hvals).
  rewrite Hm in E.
  pose proof (np_delete_nonzero w seeds) as Hdel.
  assert (Hlen : length (np_nonzero (map w seeds))
                 = length (List.filter w seeds))
    by (unfold np_nonzero; by rewrite nonzero_from_map_length).
  exists (fun ch => negb (w ch)).
  assert (Hww : List.filter (fun ch => negb (negb (w ch))) seeds
                = List.filter w seeds).
  { apply filter_ext. intros a. by rewrite negb_involutive. }
  rewrite Hww.
  destruct (0 <? length (np_nonzero (map w seeds))) eqn:Hpos.
  - rewrite Hdel in E. simpl in E. inversion E; subst.
    split; [done|]. split; [by rewrite Hlen | done].
  - apply Nat.ltb_ge in Hpos. inversion E; subst.
    assert (Hnil : np_nonzero (map w channels) = [])
      by (apply length_zero_iff_nil; lia).
    rewrite Hnil in Hdel. unfold np_delete in Hdel. simpl in Hdel.
    inversion Hdel as [Hd]. split; [|split; [|done]].
    + clear. generalize 0.
      induction channels as [|x l IH]; intros k; simpl;
        [done | by rewrite <- IH].
    + rewrite <- Hlen, Hnil. simpl. lia.
Qed.

(** X2: the returned [channels] are a subsequence of the seeds in ascending
    order, every one of them an index of [SN]; the automasked-hit total
    grows by exactly the number of seeds that were removed; and the number
    of returned clusters is at most the number of returned channels. *)
Theorem clustering_channels_ascending (s s' : self F) (event SN : list F)
    (channels : list nat) (clusters : list (list nat)) (n : nat)
    (sizes : list nat) :
  clustering s event SN = Returns (s', (channels, clusters, n, sizes)) ->
  StronglySorted lt channels /\
  Forall (fun ch => ch ∈ seed_channels s SN /\ ch < length SN) channels /\
  automasked_hit s'
    = automasked_hit s + (length (seed_channels s SN) - length channels) /\
  n <= length channels.
Proof.
  intros E. apply clustering_Returns in E as (st & Hrun & Hcl & Hn & _).
  apply clustering_run_Returns in Hrun as (valid_ind & Hauto & Hs' & Hinv).
  apply automask_Returns in Hauto as (q & Hch & Hm & _).
  split; [|split; [|split]].
  - rewrite Hch. apply StronglySorted_filter_lt.
    unfold seed_channels, np_nonzero. apply nonzero_from_sorted.
  - apply Forall_forall. intros ch Hin. rewrite Hch in Hin.
    apply list_elem_of_In, filter_In in Hin as [Hin _].
    apply list_elem_of_In in Hin. split; [done|].
    unfold seed_channels in Hin. apply np_nonzero_spec in Hin.
    apply lookup_lt_Some in Hin. by rewrite length_map in Hin.
  - rewrite Hm, Hch.
    pose proof (filter_negb_length q (seed_channels s SN)). lia.
  - destruct Hinv as (Hnd & _ & Hcands & Hcl' & Hnum & _).
    subst n. rewrite Hnum, Hcl', length_map.
    (* each candidate has its own seed among [channels] *)
    assert (Hseeds : exists seeds,
              Forall2 (fun cb sd => exists rest, cb.1 = sd :: rest)
                      (ghost_candidates st) seeds /\
              Forall (fun sd => sd ∈ channels) seeds).
    { clear -Hcands. induction Hcands as [|cb l Hcb _ IH].
      - exists []. split; constructor.
      - destruct IH as (seeds & H2 & Hin).
        destruct Hcb as (seed & rest & Hc & _ & Hseed & _).
        exists (seed :: seeds). split; constructor; eauto. }
    destruct Hseeds as (seeds & H2 & Hin).
    assert (Hnds : NoDup seeds).
    { clear -Hnd H2. unfold members in Hnd.
      induction H2 as [|cb sd l seeds (rest & Hc) H2 IH]; [constructor|].
      simpl in Hnd. apply NoDup_app in Hnd as (_ & Hdisj & Hnd).
      constructor; [|by apply IH].
      intros Hsd. apply (Hdisj sd); [rewrite Hc; by left|].
      apply list_elem_of_lookup in Hsd as [k Hk].
      destruct (Forall2_lookup_r _ _ _ _ _ H2 Hk) as (cb' & Hcb' & rest' & Hc').
      apply list_elem_of_In, in_concat. exists cb'.1.
      split; apply list_elem_of_In.
      - apply list_elem_of_fmap. exists cb'. split; [done|].
        by eapply list_elem_of_lookup_2.
      - rewrite Hc'. by left. }
    etransitivity; [apply filter_length_le|].
    rewrite (Forall2_length _ _ _ H2).
    apply submseteq_length, NoDup_submseteq; [done|].
    intros x Hx. rewrite Forall_forall in Hin. by apply Hin.
Qed.

(** X3: when no entry of [SN] exceeds the seed cut in absolute value,
    [clustering] returns no channel, no cluster, the count 0 and no size,
    and leaves [self] as it was, whatever the event and the masking. *)
Theorem clustering_without_seed (s : self F) (event SN : list F) :
  Forall (fun x => fgt (fabs x) (SN_cut s) = false) SN ->
  clustering s event SN = Returns (s, ([], [], 0, [])).
Proof.
  intros Hsn. unfold clustering, clustering_run.
  assert (Hseeds : seed_channels s SN = []).
  { unfold seed_channels, np_nonzero. apply nonzero_from_all_false.
    apply Forall_fmap. eapply Forall_impl; [exact Hsn|]. done. }
  rewrite Hseeds. unfold automask.
  destruct (masking s); simpl; by rewrite set_automasked_hit_same.
Qed.

(** X4: with masking disabled the returned [channels] are exactly the
    seeds and [self], the automasked-hit total included, is unchanged. *)
Theorem clustering_masking_off (s s' : self F) (event SN : list F)
    (channels : list nat) (clusters : list (list nat)) (n : nat)
    (sizes : list nat) :
  masking s = false ->
  clustering s event SN = Returns (s', (channels, clusters, n, sizes)) ->
  channels = seed_channels s SN /\ s' = s.
Proof.
  intros Hoff E. apply clustering_Returns in E as (st & Hrun & _).
  apply clustering_run_Returns in Hrun as (valid_ind & Hauto & Hs' & _).
  apply automask_Returns in Hauto as (q & _ & _ & Hsame).
  destruct (Hsame Hoff) as [-> Hn]. split; [done|].
  rewrite Hs', Hn. apply set_automasked_hit_same.
Qed.

(** The automasking block when negative signals are rejected. *)
Lemma automask_negative (s : self F) (event : list F)
    (seeds channels valid_ind : list nat) (n : nat) :
  masking s = true -> material s = false ->
  automask s event seeds = Returns (channels, valid_ind, n) ->
  channels = List.filter (fun ch => negb (negative_at event ch)) seeds /\
  valid_ind = np_nonzero (map (fun x => fgt x fzero) event) /\
  n = automasked_hit s + length (List.filter (negative_at event) seeds).
Proof.
  intros Hmask Hmat E. unfold automask in E. rewrite Hmask, Hmat in E.
  inv_bind E as vals Hvals.
  assert (Hm : map (fun x => flt x fzero) vals = map (negative_at event) seeds)
    by exact (forM_getitem_map false (fun x => flt x fzero) _ _ _ Hvals).
  rewrite Hm in E.
  pose proof (np_delete_nonzero (negative_at event) seeds) as Hdel.
  assert (Hlen : length (np_nonzero (map (negative_at event) seeds))
                 = length (List.filter (negative_at event) seeds))
    by (unfold np_nonzero; by rewrite nonzero_from_map_length).
  destruct (0 <? length (np_nonzero (map (negative_at event) seeds))) eqn:Hpos.
  - rewrite Hdel in E. simpl in E. inversion E; subst. by rewrite Hlen.
  - apply Nat.ltb_ge in Hpos. inversion E; subst.
    assert (Hnil : np_nonzero (map (negative_at event) channels) = [])
      by (apply length_zero_iff_nil; lia).
    rewrite Hnil in Hdel. unfold np_delete in Hdel. simpl in Hdel.
    inversion Hdel as [Hd].
    split; [|split; [done | rewrite <- Hlen, Hnil; simpl; lia]].
    clear. generalize 0. induction channels as [|x l IH]; intros k; simpl;
      [done | by rewrite <- IH].
Qed.

(** X5: with masking enabled and the other polarity (negative signals
    rejected), the returned [channels] are the seeds whose signal is not
    negative, the automasked-hit total grows by the number of seeds of
    negative signal, and no channel of negative signal is in a returned
    cluster.  (Needs of the float comparison only that no number is both
    above and below zero.) *)
Theorem clustering_masks_negative (s s' : self F) (event SN : list F)
    (channels : list nat) (clusters : list (list nat)) (n : nat)
    (sizes : list nat) :
  (forall a, flt fzero a = true -> flt a fzero = false) ->
  masking s = true -> material s = false ->
  clustering s event SN = Returns (s', (channels, clusters, n, sizes)) ->
  channels = List.filter (fun ch => negb (negative_at event ch))
                         (seed_channels s SN) /\
  automasked_hit s'
    = automasked_hit s
      + length (List.filter (negative_at event) (seed_channels s SN)) /\
  (forall cl c, cl ∈ clusters -> c ∈ cl -> negative_at event c = false).
Proof.
  intros Hasym Hmask Hmat E.
  apply clustering_Returns in E as (st & Hrun & -> & _ & _).
  apply clustering_run_Returns in Hrun as (valid_ind & Hauto & Hs' & Hinv).
  apply automask_negative in Hauto as (Hch & Hvalid & Hn); [|done|done].
  destruct Hinv as (_ & _ & Hcands & Hcl & _ & _).
  split; [done|]. split; [done|].
  intros cl c Hcl' Hc. rewrite Hcl in Hcl'.
  apply list_elem_of_fmap in Hcl' as ([cl0 b] & -> & Hin). simpl in Hc.
  apply list_elem_of_In, filter_In in Hin as [Hin _].
  apply list_elem_of_In in Hin. rewrite Forall_forall in Hcands.
  destruct (Hcands _ Hin) as (seed & rest & Hcl0 & _ & Hseed & Hrest & _).
  simpl in Hcl0. subst cl0.
  apply elem_of_cons in Hc as [->|Hc].
  - rewrite Hch in Hseed.
    apply list_elem_of_In, filter_In in Hseed as [_ Hneg].
    by destruct (negative_at event seed).
  - specialize (Hrest c Hc). unfold np_contains in Hrest.
    apply existsb_exists in Hrest as (y & Hy & Heq).
    apply Nat.eqb_eq in Heq. subst y. apply list_elem_of_In in Hy.
    rewrite Hvalid in Hy. apply np_nonzero_spec in Hy.
    rewrite list_lookup_fmap in Hy. unfold negative_at.
    destruct (event !! c) as [x|]; [|done]. simpl in Hy.
    inversion Hy as [Hgt]. by apply Hasym.
Qed.

(** The neighbours that the search of one seed adds lie where the search
    looked. *)
Lemma grow_neighbours (s : self F) (SN : list F) (valid_ind : list nat)
    (ch : nat) (us0 : list bool) (g : growth) :
  grow s SN valid_ind ch us0 = Returns g ->
  exists rest, cluster g = ch :: rest /\ Forall (neighbour_of s ch) rest.
Proof.
  intros E. unfold grow in E.
  apply (foldM_invariant _
           (fun g => exists rest, cluster g = ch :: rest /\
                                  Forall (neighbour_of s ch) rest)) in E;
    [done| |by exists []].
  intros t i t' Hi (rest & Hcl & Hrest) Hrun. apply elem_of_seq in Hi.
  unfold grow_body in Hrun.
  destruct ((0 <? ch - i) && (ch + i <? numchan s)) eqn:Hguard.
  2: { inversion Hrun; subst. by exists rest. }
  apply andb_true_iff in Hguard as [Hlo Hhi].
  apply Nat.ltb_lt in Hlo, Hhi.
  assert (Hr : neighbour_of s ch (ch + i))
    by (exists i; repeat split; (lia || auto)).
  assert (Hl : neighbour_of s ch (ch - i))
    by (exists i; repeat split; (lia || auto)).
  inv_bind Hrun as r1 Hr1. destruct r1 as [[[cl1 us1] sz1] rs].
  inv_bind Hrun as r2 Hr2. destruct r2 as [[[cl2 us2] sz2] ls].
  inversion Hrun; subst; simpl.
  apply examine_Returns in Hr1 as [(-> & _)|(-> & _)];
    apply examine_Returns in Hr2 as [(-> & _)|(-> & _)]; rewrite Hcl.
  - exists (rest ++ [ch + i] ++ [ch - i]). split; [by rewrite <- !app_assoc|].
    repeat (apply Forall_app; split); (done || by apply Forall_singleton).
  - exists (rest ++ [ch + i]). split; [done|].
    apply Forall_app; split; (done || by apply Forall_singleton).
  - exists (rest ++ [ch - i]). split; [done|].
    apply Forall_app; split; (done || by apply Forall_singleton).
  - by exists rest.
Qed.

Lemma seed_loop_neighbours (s : self F) (event SN : list F)
    (channels valid_ind : list nat) (st0 st : cl_state) :
  ghost_candidates st0 = [] ->
  foldM (seed_step s event SN valid_ind) channels st0 = Returns st ->
  Forall (fun cb => exists seed rest,
            cb.1 = seed :: rest /\ Forall (neighbour_of s seed) rest)
         (ghost_candidates st).
Proof.
  intros H0 E.
  apply (foldM_invariant _
           (fun st => Forall (fun cb => exists seed rest,
                         cb.1 = seed :: rest /\
                         Forall (neighbour_of s seed) rest)
                       (ghost_candidates st))) in E;
    [done| |by rewrite H0].
  intros t ch t' _ Ht Hrun. unfold seed_step in Hrun.
  inv_bind Hrun as u Hu. destruct u; [by inversion Hrun; subst|].
  inv_bind Hrun as us Hus. inv_bind Hrun as g Hg.
  inv_bind Hrun as vals Hvals.
  apply grow_neighbours in Hg as (rest & Hcl & Hrest).
  destruct (accepts s vals); inversion Hrun; subst; simpl;
    (apply Forall_app; split; [done|]); apply Forall_singleton;
    by exists ch, rest.
Qed.

(** X6: every returned cluster is its seed followed by neighbours each of
    which is [i] channels away from the seed for an [i] between 1 and
    [offset] with [0 < seed - i] and [seed + i < numchan].  So channel 0 is
    never a neighbour, and a seed in channel 0, channel 1 or the last
    channel always makes a cluster of size 1, whatever the S/N next to it. *)
Theorem clustering_neighbours_within_bounds (s s' : self F)
    (event SN : list F) (channels : list nat) (clusters : list (list nat))
    (n : nat) (sizes : list nat) :
  clustering s event SN = Returns (s', (channels, clusters, n, sizes)) ->
  Forall (fun cl => exists seed rest,
            cl = seed :: rest /\
            Forall (neighbour_of s seed) rest /\
            Forall (fun c => 0 < c < numchan s) rest /\
            (seed <= 1 \/ numchan s <= seed + 1 -> rest = []))
         clusters.
Proof.
  intros E. apply clustering_Returns in E as (st & Hrun & -> & _ & _).
  pose proof Hrun as Hrun'.
  apply clustering_run_Returns in Hrun' as (valid_ind & _ & Hs' & Hinv).
  destruct Hinv as (_ & _ & _ & Hcl & _ & _).
  unfold clustering_run in Hrun.
  inv_bind Hrun as r Hr. destruct r as [[chs vi] m].
  inv_bind Hrun as st0 Hst. inversion Hrun; subst st0 chs. clear Hrun.
  apply seed_loop_neighbours in Hst; [|done].
  rewrite Hcl. apply Forall_forall. intros cl Hin.
  apply list_elem_of_fmap in Hin as ([cl0 b] & -> & Hin). simpl.
  apply list_elem_of_In, filter_In in Hin as [Hin _].
  apply list_elem_of_In in Hin. rewrite Forall_forall in Hst.
  destruct (Hst _ Hin) as (seed & rest & Hc & Hrest). simpl in Hc.
  assert (Hrest' : Forall (neighbour_of s seed) rest).
  { eapply Forall_impl; [exact Hrest|]. simpl.
    intros c (i & Hi & Hlo & Hhi & Hc'). exists i. simpl in *.
    unfold offset in *. simpl in *. done. }
  exists seed, rest. split; [done|]. split; [done|]. split.
  - eapply Forall_impl; [exact Hrest'|]. simpl.
    intros c (i & Hi & Hlo & Hhi & [-> | ->]); lia.
  - intros Hedge. destruct rest as [|c rest]; [done|].
    apply Forall_cons in Hrest' as [(i & Hi & Hlo & Hhi & _) _]. lia.
Qed.

(** X7: on a signal vector and an S/N vector of [numchan] entries each,
    [clustering] returns: no index it computes is out of range. *)
Theorem clustering_never_out_of_range (s : self F) (event SN : list F) :
  length SN = numchan s -> length event = numchan s ->
  exists s' channels clusters n sizes,
    clustering s event SN = Returns (s', (channels, clusters, n, sizes)).
Proof. intros Hsn Hev. by apply clustering_returns. Qed.

End ClusteringMore.

(* ===================================================================== *)
(** ** More on do_analysis: the hit map and the store *)
(* ===================================================================== *)

Section HitMap.
Context {F : Type} {NP : Numpy F}.
Import EventAnalysis.

Lemma hit_Returns (ref : nat) (st st' : store F) (ch : nat) :
  hit ref st ch = Returns st' ->
  exists a x, st !! ref = Some a /\ a !! ch = Some x /\
              st' = <[ref := <[ch := fadd x (fof_nat 1)]> a]> st.
Proof.
  intros E. unfold hit in E.
  inv_bind E as a Ha. inv_bind E as x Hx. inv_bind E as a' Ha'.
  apply getitem_Returns in Ha, Hx.
  apply setitem_Returns in Ha' as [_ ->].
  apply setitem_Returns in E as [_ ->]. by exists a, x.
Qed.

(** The inner loop [for channel in channels_hit] only touches the array
    behind [ref], and adds one to the counter of each channel listed. *)
Lemma hit_loop_Returns (nchan ref : nat) (chs : list nat) (st st' : store F)
    (seen : list nat) :
  hitmap_counts nchan ref st seen ->
  foldM (hit ref) chs st = Returns st' ->
  hitmap_counts nchan ref st' (seen ++ chs) /\
  length st' = length st /\
  (forall k, k <> ref -> st' !! k = st !! k).
Proof.
  revert st seen. induction chs as [|ch chs IH]; intros st seen Hc E;
    simpl in E.
  - inversion E; subst. by rewrite app_nil_r.
  - inv_bind E as st1 H1.
    apply hit_Returns in H1 as (a & x & Ha & Hx & ->).
    destruct Hc as (h & Hh & Hlen & Hcount).
    rewrite Ha in Hh. inversion Hh; subst a.
    assert (Href : ref < length st) by (by eapply lookup_lt_Some).
    assert (Hch : ch < nchan)
      by (rewrite <- Hlen; by eapply lookup_lt_Some).
    destruct (IH (<[ref := <[ch := fadd x (fof_nat 1)]> h]> st)
                 (seen ++ [ch])) as (Hc' & Hl' & Hf'); [|done|].
    + exists (<[ch := fadd x (fof_nat 1)]> h).
      split; [by apply list_lookup_insert_eq|].
      split; [by rewrite length_insert|].
      intros c Hc. rewrite count_occ_app. simpl.
      destruct (Nat.eq_dec ch c) as [->|Hne].
      * rewrite list_lookup_insert_eq by lia.
        rewrite (Hcount c Hc) in Hx. inversion Hx; subst x.
        by replace (count_occ Nat.eq_dec seen c + 1)
          with (S (count_occ Nat.eq_dec seen c)) by lia.
      * rewrite list_lookup_insert_ne by done.
        rewrite Nat.add_0_r. by apply Hcount.
    + rewrite <- app_assoc in Hc'. simpl in Hc'.
      split; [done|]. split.
      * rewrite Hl'. apply length_insert.
      * intros k Hk. rewrite Hf' by done.
        apply list_lookup_insert_ne. congruence.
Qed.

Lemma analysis_body_store (raw_events : ndarray2 F) (meanCMN meanCMsig : F)
    (hitmap : nat) (s s' : self F) (st st' : store F)
    (pd pd' : list (event_result F)) (k : nat) :
  analysis_body raw_events meanCMN meanCMsig hitmap (s, st, pd) k
    = Returns (s', st', pd') ->
  exists r, pd' = pd ++ [r] /\
            foldM (hit hitmap) (r_channels_hit r) st = Returns st'.
Proof.
  intros E. unfold analysis_body in E.
  inv_bind E as raw Hraw.
  inv_bind E as p Hp. destruct p as [[[signal SN] cmn] cmsig].
  inv_bind E as c Hc. destruct c as [s1 [[[chs cls] n] szs]].
  inv_bind E as st1 Hst. inversion E; subst. eexists. split; [done|]. done.
Qed.

Lemma analysis_loop_store (raw_events : ndarray2 F) (meanCMN meanCMsig : F)
    (nchan hitmap : nat) (xs : list nat) (s s' : self F) (st st' : store F)
    (pd pd' : list (event_result F)) :
  hitmap_counts nchan hitmap st (concat (map r_channels_hit pd)) ->
  foldM (analysis_body raw_events meanCMN meanCMsig hitmap) xs (s, st, pd)
    = Returns (s', st', pd') ->
  hitmap_counts nchan hitmap st' (concat (map r_channels_hit pd')) /\
  length st' = length st /\
  (forall k, k <> hitmap -> st' !! k = st !! k).
Proof.
  revert s st pd. induction xs as [|x xs IH]; intros s st pd Hc E; simpl in E.
  - by inversion E; subst.
  - inv_bind E as acc Hacc. destruct acc as [[s1 st1] pd1].
    apply analysis_body_store in Hacc as (r & -> & Hhit).
    destruct (hit_loop_Returns _ _ _ _ _ _ Hc Hhit) as (Hc1 & Hl1 & Hf1).
    destruct (IH s1 st1 (pd ++ [r])) as (Hc' & Hl' & Hf'); [|done|].
    + rewrite map_app, concat_app. simpl. by rewrite app_nil_r.
    + split; [done|]. split; [lia|].
      intros k Hk. by rewrite Hf', Hf1.
Qed.

(** X8: when [do_analysis] returns, the array it allocated has [numchan]
    counters, and the counter of channel [c] is 0.0 incremented by 1 once
    for every occurrence of [c] in the seed lists ([channels_hit]) of the
    returned results: the hit map is the per-channel count of seed hits of
    the whole batch. *)
Theorem do_analysis_hitmap_counts_seed_hits (s s' : self F)
    (st st' : store F) (raw_events : ndarray2 F) (timing : list F)
    (prodata : list (event_result F)) :
  do_analysis s st raw_events timing = Returns (s', st', prodata) ->
  exists h,
    st' !! length st = Some h /\ length h = numchan s /\
    forall c, c < numchan s ->
      h !! c = Some (Nat.iter
                       (count_occ Nat.eq_dec
                          (concat (map r_channels_hit prodata)) c)
                       (fun x => fadd x (fof_nat 1)) fzero).
Proof.
  intros E. unfold do_analysis, alloc in E.
  apply (analysis_loop_store _ _ _ (numchan s)) in E as (Hc & _ & _);
    [exact Hc|].
  exists (np_zeros (numchan s)). simpl.
  split; [by apply list_lookup_middle|].
  unfold np_zeros. split; [by rewrite length_replicate|].
  intros c Hc. by apply lookup_replicate_2.
Qed.

(** X9: [do_analysis] adds exactly one array to the store and changes none
    of the arrays that were there before the call: the hit maps of batches
    processed earlier are not touched. *)
Theorem do_analysis_keeps_earlier_arrays (s s' : self F) (st st' : store F)
    (raw_events : ndarray2 F) (timing : list F)
    (prodata : list (event_result F)) :
  do_analysis s st raw_events timing = Returns (s', st', prodata) ->
  length st' = S (length st) /\
  forall k a, st !! k = Some a -> st' !! k = Some a.
Proof.
  intros E. unfold do_analysis, alloc in E.
  apply (analysis_loop_store _ _ _ (numchan s)) in E as (_ & Hl & Hf).
  - split; [rewrite Hl, length_app; simpl; lia|].
    intros k a Hk. assert (k < length st) by (by eapply lookup_lt_Some).
    rewrite Hf by lia. by apply lookup_app_l_Some.
  - exists (np_zeros (numchan s)). simpl.
    split; [by apply list_lookup_middle|].
    unfold np_zeros. split; [by rewrite length_replicate|].
    intros c Hc. by apply lookup_replicate_2.
Qed.

(** X10: on every batch, [do_analysis] returns one result per event whose
    timing exceeds [tmin] and adds their number to [self.events]; the
    result at position [k] is the processing of row [k] of the batch by
    [process_event] with the pedestal, the noise and the means of [self],
    whatever the timing of row [k]; and all results hold one reference, the
    array allocated by this call. *)
Theorem do_analysis_results_follow_rows (s s' : self F) (st st' : store F)
    (raw_events : ndarray2 F) (timing : list F)
    (prodata : list (event_result F)) :
  do_analysis s st raw_events timing = Returns (s', st', prodata) ->
  length prodata
    = length (np_nonzero (map (fun t => fgt t (tmin s)) timing)) /\
  events s'
    = events s + length (np_nonzero (map (fun t => fgt t (tmin s)) timing)) /\
  forall k r, prodata !! k = Some r ->
    r_hitmap r = length st /\
    exists raw cmn cmsig,
      rows raw_events !! k = Some raw /\
      process_event raw (pedestal s) (np_mean (CMN s)) (np_mean (CMsig s))
        (noise s) (numchan s) = Returns (r_signal r, r_SN r, cmn, cmsig).
Proof. intros E. exact (do_analysis_Returns _ _ _ _ _ _ _ E). Qed.

End HitMap.

(* ===================================================================== *)
(** ** do_analysis returns on a batch of the detector's shape *)
(* ===================================================================== *)

Section BatchReturns.
Context {F : Type} {NP : Numpy F}.
Import EventAnalysis.

Lemma clustering_channels_lt (s s' : self F) (event SN : list F)
    (channels : list nat) (clusters : list (list nat)) (n : nat)
    (sizes : list nat) :
  clustering s event SN = Returns (s', (channels, clusters, n, sizes)) ->
  Forall (fun ch => ch < length SN) channels /\
  s' = set_automasked_hit s (automasked_hit s').
Proof.
  intros E. apply clustering_Returns in E as (st & Hrun & _).
  apply clustering_run_Returns in Hrun as (valid_ind & Hauto & Hs' & _).
  split; [|done].
  apply automask_Returns in Hauto as (q & -> & _).
  apply Forall_forall. intros ch Hin.
  apply list_elem_of_In, filter_In in Hin as [Hin _].
  apply list_elem_of_In, seed_channels_lt in Hin. done.
Qed.

Lemma hit_loop_returns (nchan ref : nat) (chs : list nat) (st : store F) :
  Forall (fun ch => ch < nchan) chs ->
  (exists h, st !! ref = Some h /\ length h = nchan) ->
  exists st', foldM (hit ref) chs st = Returns st' /\
              exists h, st' !! ref = Some h /\ length h = nchan.
Proof.
  intros Hchs Hst.
  apply (foldM_returns _
           (fun st => exists h, st !! ref = Some h /\ length h = nchan));
    [|done].
  intros t ch Hch (h & Hh & Hlen).
  rewrite Forall_forall in Hchs. specialize (Hchs ch Hch).
  unfold hit. rewrite (proj2 (getitem_Returns t ref h) Hh). simpl.
  destruct (getitem_lt h ch) as (x & -> & _); [lia|]. simpl.
  rewrite setitem_lt by lia. simpl.
  rewrite setitem_lt by (by eapply lookup_lt_Some). eexists. split; [done|].
  eexists. split; [apply list_lookup_insert_eq; by eapply lookup_lt_Some|].
  by rewrite length_insert.
Qed.

(** X11: on a batch whose rows, pedestal and noise profile all have
    [numchan] entries and whose timing vector is no longer than the batch,
    [do_analysis] returns: neither the index of an event nor the index of a
    channel is ever out of range and no shapes clash. *)
Theorem do_analysis_returns_on_detector_shape (s : self F) (st : store F)
    (raw_events : ndarray2 F) (timing : list F) :
  Forall (fun r => length r = numchan s) (rows raw_events) ->
  length (pedestal s) = numchan s -> length (noise s) = numchan s ->
  length timing <= length (rows raw_events) ->
  exists s' st' prodata,
    do_analysis s st raw_events timing = Returns (s', st', prodata).
Proof.
  intros Hrows Hped Hnoise Htime. unfold do_analysis, alloc.
  set (n := length (np_nonzero (map (fun t => fgt t (tmin s)) timing))).
  assert (Hn : n <= length (rows raw_events)).
  { unfold n, np_nonzero. etransitivity; [apply nonzero_from_length_le|].
    by rewrite length_map. }
  set (s0 := set_events s (events s + n)).
  destruct (foldM_returns
              (analysis_body raw_events (np_mean (CMN s0))
                 (np_mean (CMsig s0)) (length st))
              (fun acc => numchan acc.1.1 = numchan s /\
                          pedestal acc.1.1 = pedestal s /\
                          noise acc.1.1 = noise s /\
                          exists h, acc.1.2 !! length st = Some h /\
                                    length h = numchan s)
              (seq 0 n) (s0, st ++ [np_zeros (numchan s0)], []))
    as ([[s' st'] pd] & Hrun & _).
  - intros [[s1 st1] pd1] k Hk (Hnc & Hp & Hno & Hh). simpl in Hnc, Hp, Hno, Hh.
    apply elem_of_seq in Hk. unfold analysis_body.
    destruct (getitem_lt (rows raw_events) k) as (raw & -> & Hraw); [lia|].
    rewrite Returns_bind.
    assert (Hlen : length raw = numchan s).
    { rewrite Forall_forall in Hrows.
      eapply Hrows, list_elem_of_lookup_2, Hraw. }
    destruct (process_event_lengths raw (pedestal s1) (np_mean (CMN s0))
                (np_mean (CMsig s0)) (noise s1) (numchan s1))
      as (signal & SN & cmn & cmsig & -> & Hsig & Hsn);
      [congruence | congruence | congruence |].
    rewrite Returns_bind.
    destruct (clustering_returns s1 signal SN)
      as (s2 & chs & cls & m & szs & Hcl); [congruence | congruence |].
    rewrite Hcl, Returns_bind.
    apply clustering_channels_lt in Hcl as [Hchs Hs2].
    destruct (hit_loop_returns (numchan s) (length st) chs st1)
      as (st2 & -> & Hh2); [|done|].
    { eapply Forall_impl; [exact Hchs|]. simpl. intros ch Hch.
      rewrite Hsn, Hnc in Hch. done. }
    rewrite Returns_bind. eexists. split; [done|]. simpl.
    rewrite Hs2. simpl. done.
  - simpl. split; [done|]. split; [done|]. split; [done|].
    exists (np_zeros (numchan s)). split; [by apply list_lookup_middle|].
    unfold np_zeros. by rewrite length_replicate.
  - change (exists s' st' prodata,
              foldM (analysis_body raw_events (np_mean (CMN s0))
                       (np_mean (CMsig s0)) (length st))
                    (seq 0 n) (s0, st ++ [np_zeros (numchan s0)], [])
              = Returns (s', st', prodata)).
    rewrite Hrun. by eexists _, _, _.
Qed.

End BatchReturns.

(* ===================================================================== *)
(** ** More on the noise calculation *)
(* ===================================================================== *)

Section NoiseMore.
Context {F : Type} {NP : Numpy F}.

Lemma noise_calc_body_eq (events : ndarray2 F) (pedestal : list F)
    (numevents numchannels : nat) (score : ndarray2 F)
    (CMnoise CMsig row : list F) (event : nat) :
  event < numevents -> rows events !! event = Some row ->
  length row = numchannels -> length pedestal = numchannels ->
  noise_shape numevents numchannels (score, CMnoise, CMsig) ->
  OldNoiseAnalysis.noise_calc_body events pedestal (score, CMnoise, CMsig) event
  = Returns
      ({| ncols := ncols score;
          rows := <[event :=
                     map (fun x => fsub x (np_mean (zip_with fsub row pedestal)))
                         (zip_with fsub row pedestal)]> (rows score) |},
       <[event := np_mean (zip_with fsub row pedestal)]> CMnoise,
       <[event := np_std (zip_with fsub row pedestal)]> CMsig).
Proof.
  intros He Hrow Hlen Hp (Hc & Hr & Hrect & Hn & Hs). simpl in *.
  unfold OldNoiseAnalysis.noise_calc_body.
  rewrite (proj2 (getitem_Returns _ _ _) Hrow), Returns_bind.
  rewrite broadcast2_same by lia. rewrite Returns_bind.
  rewrite setrow_returns;
    [| lia | rewrite length_map, length_zip_with; lia].
  rewrite Returns_bind, !setitem_lt by lia. done.
Qed.

Lemma noise_calc_prefix (events : ndarray2 F) (pedestal : list F)
    (numevents numchannels n : nat) :
  n <= numevents -> n <= length (rows events) ->
  Forall (fun r => length r = numchannels) (rows events) ->
  length pedestal = numchannels ->
  exists st,
    foldM (OldNoiseAnalysis.noise_calc_body events pedestal) (seq 0 n)
      (np_zeros2 numevents numchannels, np_zeros numevents,
       np_zeros numevents) = Returns st /\
    noise_shape numevents numchannels st /\
    noise_filled events pedestal numevents numchannels n st.
Proof.
  intros Hn Hn' Hrows Hp. induction n as [|n IH].
  - eexists. split; [done|]. split; [apply noise_shape_zeros|].
    intros e He. split; [lia|]. intros _. simpl. unfold np_zeros.
    rewrite !lookup_replicate_2 by done. done.
  - destruct IH as ([[score cmn] cms] & Hrun & Hshape & Hfill); [lia|lia|].
    rewrite seq_S, foldM_app, Hrun, Returns_bind.
    change (0 + n) with n.
    change (foldM (OldNoiseAnalysis.noise_calc_body events pedestal) [n]
              (score, cmn, cms))
      with (OldNoiseAnalysis.noise_calc_body events pedestal (score, cmn, cms) n
            ≫= fun st => Returns st).
    destruct (lookup_lt_is_Some_2 (rows events) n) as [row Hrow]; [lia|].
    assert (Hlen : length row = numchannels).
    { rewrite Forall_forall in Hrows.
      eapply Hrows, list_elem_of_lookup_2, Hrow. }
    rewrite (noise_calc_body_eq events pedestal numevents numchannels
               score cmn cms row n) by (done || lia).
    rewrite Returns_bind. eexists. split; [done|].
    destruct Hshape as (Hc & Hr & Hrect & Hcn & Hcs). simpl in *.
    split.
    + repeat split; simpl; rewrite ?length_insert; try done.
      unfold rectangular. simpl. apply Forall_insert; [done|].
      rewrite length_map, length_zip_with. lia.
    + intros e He. simpl. destruct (decide (e = n)) as [->|Hne].
      * split; [|lia]. intros _. exists row.
        rewrite !list_lookup_insert_eq by lia. done.
      * rewrite !list_lookup_insert_ne by done.
        destruct (Hfill e He) as [Hlo Hhi]. split.
        -- intros Hlt. apply Hlo. lia.
        -- intros Hge. apply Hhi. lia.
Qed.

(** X12: on a batch of rows of [numchannels] entries and a pedestal of the
    same length, with the loop bound [ngood] (the number of time stamps that
    are not negative) within the batch, [noise_calc] of the class
    [noise_analysis] returns; for an event index below [ngood] the row of
    residuals, the common mode and its spread are those of the event of
    that index, whatever its time stamp; and the rows and entries from
    [ngood] on are left zero. *)
Theorem noise_calc_fills_first_rows (ngood : nat) (events : ndarray2 F)
    (pedestal : list F) (numevents numchannels : nat) :
  ngood <= numevents -> ngood <= length (rows events) ->
  Forall (fun r => length r = numchannels) (rows events) ->
  length pedestal = numchannels ->
  exists score CMnoise CMsig,
    OldNoiseAnalysis.noise_calc ngood events pedestal numevents numchannels
      = Returns (score, CMnoise, CMsig) /\
    length (rows score) = numevents /\ length CMnoise = numevents /\
    length CMsig = numevents /\
    noise_filled events pedestal numevents numchannels ngood
      (score, CMnoise, CMsig).
Proof.
  intros Hg Hg' Hrows Hp. unfold OldNoiseAnalysis.noise_calc.
  destruct (noise_calc_prefix events pedestal numevents numchannels ngood)
    as ([[score cmn] cms] & Hrun & Hshape & Hfill); try done.
  exists score, cmn, cms. split; [done|].
  destruct Hshape as (_ & Hr & _ & Hcn & Hcs). done.
Qed.

(** X13: a manual mask holding an index outside [-numchan, numchan) makes
    [detect_noisy_strips] raise [IndexError], whatever the noise. *)
Theorem detect_noisy_strips_mask_out_of_range (mask : list Z)
    (Noise : list F) (Noise_cut : F) :
  Exists (fun m => m < - Z.of_nat (length Noise) \/
                   Z.of_nat (length Noise) <= m)%Z mask ->
  NoiseAnalysis.detect_noisy_strips mask Noise Noise_cut = Raises IndexError.
Proof.
  intros Hex.
  assert (Hne : mask <> []) by (intros ->; by apply Exists_nil in Hex).
  rewrite detect_noisy_strips_nonempty by done.
  unfold np_delete. rewrite length_seq.
  assert (Hf : forallb (index_ok (length Noise))
                 (map Z.of_nat (high_noise Noise Noise_cut) ++ mask) = false).
  { apply Exists_exists in Hex as (m & Hm & Hout).
    apply not_true_is_false. intros Hall.
    rewrite forallb_forall in Hall.
    specialize (Hall m). unfold index_ok in Hall.
    assert (Hin : In m (map Z.of_nat (high_noise Noise Noise_cut) ++ mask))
      by (apply in_or_app; right; by apply list_elem_of_In).
    apply Hall, andb_true_iff in Hin as [H1 H2].
    apply Z.leb_le in H1. apply Z.ltb_lt in H2. lia. }
  by rewrite Hf.
Qed.

Lemma elem_of_map_wrap_index (n : nat) (l : list Z) (c : nat) :
  Forall (fun z => - Z.of_nat n <= z < Z.of_nat n)%Z l -> c < n ->
  Z.of_nat c ∈ map (wrap_index n) l <->
  Z.of_nat c ∈ l \/ (Z.of_nat c - Z.of_nat n)%Z ∈ l.
Proof.
  intros Hl Hc. rewrite list_elem_of_fmap. rewrite Forall_forall in Hl. split.
  - intros (z & Hz & Hin). specialize (Hl z Hin). unfold wrap_index in Hz.
    destruct (Z.ltb_spec z 0).
    + right. by replace (Z.of_nat c - Z.of_nat n)%Z with z by lia.
    + left. by subst z.
  - intros [Hin|Hin].
    + exists (Z.of_nat c). split; [|done]. unfold wrap_index.
      destruct (Z.ltb_spec (Z.of_nat c) 0); [lia | done].
    + exists (Z.of_nat c - Z.of_nat n)%Z. split; [|done].
      specialize (Hl _ Hin). unfold wrap_index.
      destruct (Z.ltb_spec (Z.of_nat c - Z.of_nat n) 0); lia.
Qed.

(** X14: for a manual mask that is not empty, of indices in
    [-numchan, numchan), [detect_noisy_strips] returns the high-noise
    channels followed by the mask as it was given, and the good strips in ascending order: channel
    [c] is good exactly when its noise does not exceed median + cut and
    neither [c] nor [c - numchan] is in the mask - a negative mask entry
    masks the channel counted from the end. *)
Theorem detect_noisy_strips_negative_mask (mask : list Z) (Noise : list F)
    (Noise_cut : F) :
  mask <> [] ->
  Forall (fun m => - Z.of_nat (length Noise) <= m < Z.of_nat (length Noise))%Z
         mask ->
  exists good,
    NoiseAnalysis.detect_noisy_strips mask Noise Noise_cut
      = Returns (map Z.of_nat (high_noise Noise Noise_cut) ++ mask, good) /\
    StronglySorted lt good /\
    forall c, c ∈ good <->
      c < length Noise /\ (c ∉ high_noise Noise Noise_cut) /\
      (Z.of_nat c ∉ mask) /\
      ((Z.of_nat c - Z.of_nat (length Noise))%Z ∉ mask).
Proof.
  intros Hne Hmask.
  set (noisy := map Z.of_nat (high_noise Noise Noise_cut) ++ mask).
  assert (Hrange : Forall (fun z => - Z.of_nat (length Noise) <= z
                                    < Z.of_nat (length Noise))%Z noisy).
  { apply Forall_app. split; [|done]. apply Forall_forall. intros z Hz.
    apply list_elem_of_fmap in Hz as (c & -> & Hc).
    apply high_noise_lt in Hc. lia. }
  exists (delete_from 0 (map (wrap_index (length Noise)) noisy)
            (seq 0 (length Noise))).
  split; [|split].
  - rewrite detect_noisy_strips_nonempty by done. fold noisy.
    unfold np_delete. rewrite length_seq.
    assert (Hok : forallb (index_ok (length Noise)) noisy = true).
    { apply forallb_forall. intros z Hz. apply list_elem_of_In in Hz.
      rewrite Forall_forall in Hrange. specialize (Hrange z Hz).
      unfold index_ok. apply andb_true_iff.
      split; [apply Z.leb_le | apply Z.ltb_lt]; lia. }
    by rewrite Hok.
  - generalize (map (wrap_index (length Noise)) noisy) as dead.
    generalize (length Noise) as n. intros n dead.
    assert (Hgen : forall k,
      StronglySorted lt (delete_from k dead (seq k n)) /\
      Forall (fun c => k <= c) (delete_from k dead (seq k n))).
    { induction n as [|n IH]; intros k; simpl; [split; constructor|].
      destruct (IH (S k)) as [Hs Hb].
      destruct (existsb _ dead).
      - split; [done|]. eapply Forall_impl; [exact Hb|]. simpl. lia.
      - split; constructor; try done; try lia;
          (eapply Forall_impl; [exact Hb|]; simpl; lia). }
    apply Hgen.
  - intros c. rewrite elem_of_delete_from_seq.
    assert (Hw : c < length Noise ->
              (Z.of_nat c ∈ map (wrap_index (length Noise)) noisy <->
               (Z.of_nat c ∈ map Z.of_nat (high_noise Noise Noise_cut) \/
                Z.of_nat c ∈ mask) \/
               ((Z.of_nat c - Z.of_nat (length Noise))%Z
                  ∈ map Z.of_nat (high_noise Noise Noise_cut) \/
                (Z.of_nat c - Z.of_nat (length Noise))%Z ∈ mask))).
    { intros Hc. rewrite (elem_of_map_wrap_index _ _ _ Hrange Hc).
      unfold noisy. by rewrite !elem_of_app. }
    split.
    + intros [Hc Hn]. assert (Hc' : c < length Noise) by lia.
      rewrite (Hw Hc') in Hn. split; [done|]. split; [|split].
      * intros Hh. apply Hn. left. left. apply list_elem_of_fmap. by exists c.
      * intros Hm. apply Hn. left. by right.
      * intros Hm. apply Hn. right. by right.
    + intros (Hc & Hh & Hm1 & Hm2). split; [lia|]. rewrite (Hw Hc).
      intros [[Hin|Hm]|[Hin|Hm]]; try done.
      * apply list_elem_of_fmap in Hin as (c' & Heq & Hc').
        apply Nat2Z.inj in Heq. by subst c'.
      * apply list_elem_of_fmap in Hin as (c' & Heq & Hc'). lia.
Qed.

End NoiseMore.

(* ===================================================================== *)
(** ** class langau: event selection and histogram errors *)
(* ===================================================================== *)

Lemma foldM_snoc {S A : Type} (body : S -> A -> outcome S) (xs : list A)
    (x : A) (s : S) :
  foldM body (xs ++ [x]) s = s' ← foldM body xs s; body s' x.
Proof.
  rewrite foldM_app. destruct (foldM body xs s) as [s'|e]; simpl; [|done].
  by destruct (body s' x).
Qed.

(** X15: [get_clusters] returns, in ascending order, exactly the positions
    of the events whose cluster count equals [num_cluster]; every position
    it returns is a valid event index. *)
Theorem get_clusters_selects_events (Numclus : list nat) (num_cluster : nat) :
  StronglySorted lt (Langau.get_clusters Numclus num_cluster) /\
  (forall i, i ∈ Langau.get_clusters Numclus num_cluster <->
             Numclus !! i = Some num_cluster) /\
  Forall (fun i => i < length Numclus)
         (Langau.get_clusters Numclus num_cluster).
Proof.
  unfold Langau.get_clusters.
  assert (Hspec : forall i,
            i ∈ np_nonzero (map (fun n => n =? num_cluster) Numclus) <->
            Numclus !! i = Some num_cluster).
  { intros i. rewrite np_nonzero_spec, list_lookup_fmap.
    destruct (Numclus !! i) as [n|]; simpl; [|done]. split.
    - intros E. inversion E as [E']. apply Nat.eqb_eq in E'. by subst.
    - intros E. inversion E. by rewrite Nat.eqb_refl. }
  split; [apply nonzero_from_sorted|]. split; [done|].
  apply Forall_forall. intros i Hi. apply Hspec in Hi.
  by eapply lookup_lt_Some.
Qed.

Section HistErrors.
Context {F : Type} {NP : Numpy F}.

Lemma ind_where_bin_lt (x : list F) (binsize b : F) :
  Forall (fun i => i < length x) (Langau.ind_where_bin x binsize b).
Proof.
  apply Forall_forall. intros i Hi. unfold Langau.ind_where_bin in Hi.
  apply np_nonzero_spec in Hi. apply lookup_lt_Some in Hi.
  by rewrite length_map in Hi.
Qed.

Lemma hist_errors_body_eq (x errors bins : list F) (binsize last b : F)
    (eb : list F) (iter : nat) :
  bins !! (length bins - 1) = Some last -> length x <= length errors ->
  iter < length eb -> feq b last = false ->
  Langau.hist_errors_body x errors bins binsize (eb, iter) b
  = Returns (if Langau.any_index (Langau.ind_where_bin x binsize b)
             then <[iter := bin_error x errors binsize b]> eb else eb,
             S iter).
Proof.
  intros Hlast Hxe Hit Hne. unfold Langau.hist_errors_body.
  rewrite (proj2 (getitem_Returns _ _ _) Hlast), Returns_bind, Hne. simpl.
  unfold bin_error.
  destruct (Langau.any_index (Langau.ind_where_bin x binsize b)); [|done].
  rewrite (np_take_returns fzero errors).
  - rewrite Returns_bind, setitem_lt by done. done.
  - eapply Forall_impl; [apply ind_where_bin_lt|]. simpl. lia.
Qed.

Lemma hist_errors_prefix (x errors bins : list F) (binsize last : F)
    (N : nat) (pre : list F) :
  bins !! (length bins - 1) = Some last -> length x <= length errors ->
  Forall (fun b => feq b last = false) pre -> length pre <= N ->
  exists eb,
    foldM (Langau.hist_errors_body x errors bins binsize) pre (np_zeros N, 0)
      = Returns (eb, length pre) /\
    length eb = N /\
    (forall k b, pre !! k = Some b ->
       eb !! k = Some (bin_error x errors binsize b)) /\
    (forall k, length pre <= k < N -> eb !! k = Some fzero).
Proof.
  intros Hlast Hxe. induction pre as [|b pre IH] using rev_ind;
    intros Hne Hlen.
  - exists (np_zeros N). split; [done|]. unfold np_zeros.
    split; [by rewrite length_replicate|]. split; [done|].
    intros k Hk. apply lookup_replicate_2. lia.
  - apply Forall_app in Hne as [Hne Hb]. apply Forall_inv in Hb.
    rewrite length_app in Hlen. simpl in Hlen.
    destruct IH as (eb & Hrun & Hl & Hdone & Hzero); [done | lia |].
    rewrite foldM_snoc, Hrun, Returns_bind.
    rewrite (hist_errors_body_eq x errors bins binsize last) by (done || lia).
    rewrite length_app. simpl.
    replace (length pre + 1) with (S (length pre)) by lia.
    eexists. split; [done|].
    assert (Hcell : (if Langau.any_index (Langau.ind_where_bin x binsize b)
                     then <[length pre := bin_error x errors binsize b]> eb
                     else eb) !! length pre
                    = Some (bin_error x errors binsize b)).
    { unfold bin_error at 2.
      destruct (Langau.any_index _) eqn:Hany.
      - rewrite list_lookup_insert_eq by lia. unfold bin_error.
        by rewrite Hany.
      - apply Hzero. lia. }
    assert (Hother : forall k, k <> length pre ->
              (if Langau.any_index (Langau.ind_where_bin x binsize b)
               then <[length pre := bin_error x errors binsize b]> eb
               else eb) !! k = eb !! k).
    { intros k Hk. destruct (Langau.any_index _); [|done].
      by rewrite list_lookup_insert_ne. }
    split; [destruct (Langau.any_index _); by rewrite ?length_insert|].
    split.
    + intros k b' Hk. destruct (decide (k = length pre)) as [->|Hneq].
      * rewrite list_lookup_middle in Hk by done. inversion Hk; subst b'.
        exact Hcell.
      * rewrite Hother by done. apply Hdone.
        rewrite lookup_app_l in Hk; [done|].
        apply lookup_lt_Some in Hk. rewrite length_app in Hk. simpl in Hk.
        lia.
    + intros k Hk. rewrite Hother by lia. apply Hzero. lia.
Qed.

(** X16: for edges [pre ++ [last]] with at least one edge before the last,
    none of them equal to the last, and an error for every data point,
    [calc_hist_errors] returns one entry per bin; the entry of the bin that
    starts at edge [b] is the mean of the errors of the data points [v] with
    [b <= v < b + binsize] if one of those points has an index other than
    0, and 0.0 otherwise.  So a bin whose only data point is the first one
    ([x[0]]) gets the error 0.0: the test is [.any()] on the indices. *)
Theorem calc_hist_errors_bins (x errors pre : list F) (last : F) :
  pre <> [] -> Forall (fun b => feq b last = false) pre ->
  feq last last = true -> length x <= length errors ->
  exists b0 b1 eb,
    (pre ++ [last]) !! 0 = Some b0 /\ (pre ++ [last]) !! 1 = Some b1 /\
    Langau.calc_hist_errors x errors (pre ++ [last]) = Returns eb /\
    length eb = length pre /\
    (forall k b, pre !! k = Some b ->
       eb !! k = Some (bin_error x errors (fsub b1 b0) b)) /\
    (forall k b, pre !! k = Some b ->
       Langau.ind_where_bin x (fsub b1 b0) b = [0] -> eb !! k = Some fzero).
Proof.
  intros Hpre Hne Hlast Hxe.
  set (bins := pre ++ [last]).
  assert (Hlen : length bins = S (length pre))
    by (unfold bins; rewrite length_app; simpl; lia).
  assert (Hl : bins !! (length bins - 1) = Some last).
  { rewrite Hlen. replace (S (length pre) - 1) with (length pre) by lia.
    by apply list_lookup_middle. }
  destruct pre as [|p0 pre']; [done|].
  destruct (lookup_lt_is_Some_2 bins 1) as [b1 Hb1];
    [rewrite Hlen; simpl; lia|].
  assert (Hb0 : bins !! 0 = Some p0) by done.
  destruct (hist_errors_prefix x errors bins (fsub b1 p0) last
              (length (p0 :: pre')) (p0 :: pre') Hl Hxe Hne)
    as (eb & Hrun & Hleb & Hdone & _); [done|].
  assert (Hcalc : Langau.calc_hist_errors x errors bins = Returns eb).
  { unfold Langau.calc_hist_errors. rewrite Hlen. simpl length.
    change (S (S (length pre')) =? 0) with false. cbv iota.
    rewrite (proj2 (getitem_Returns _ _ _) Hb1), Returns_bind.
    rewrite (proj2 (getitem_Returns _ _ _) Hb0), Returns_bind.
    replace (S (S (length pre')) - 1) with (length (p0 :: pre'))
      by (simpl; lia).
    unfold bins at 2. rewrite foldM_snoc, Hrun, Returns_bind.
    unfold Langau.hist_errors_body.
    rewrite (proj2 (getitem_Returns _ _ _) Hl), Returns_bind, Hlast.
    done. }
  exists p0, b1, eb. repeat split; try done.
  intros k b Hk Hw. rewrite (Hdone k b Hk). unfold bin_error.
  by rewrite Hw.
Qed.

(** X17: [calc_hist_errors] needs two edges: with no edge it raises
    [ValueError] (an array of -1 entries is asked for), with one edge it
    raises [IndexError] (there is no [bins[1]]); and whenever it returns,
    the result has one entry less than there are edges. *)
Theorem calc_hist_errors_needs_two_edges (x errors : list F) :
  Langau.calc_hist_errors x errors [] = Raises ValueError /\
  (forall b, Langau.calc_hist_errors x errors [b] = Raises IndexError) /\
  (forall bins eb, Langau.calc_hist_errors x errors bins = Returns eb ->
     2 <= length bins /\ length eb = length bins - 1).
Proof.
  split; [done|]. split; [done|].
  intros bins eb E. unfold Langau.calc_hist_errors in E.
  destruct (length bins =? 0) eqn:H0; [done|].
  inv_bind E as b1 Hb1. inv_bind E as b0 Hb0.
  apply getitem_Returns, lookup_lt_Some in Hb1.
  inv_bind E as r Hr. destruct r as [eb' it]. inversion E; subst eb'.
  split; [lia|].
  apply (foldM_invariant _ (fun st => length st.1 = length bins - 1)) in Hr;
    [done| |].
  - intros [t it0] b [t' it1] _ Ht Hrun. simpl in *.
    unfold Langau.hist_errors_body in Hrun.
    inv_bind Hrun as l Hl. destruct (negb (feq b l)).
    + inv_bind Hrun as t1 Ht1. inversion Hrun; subst.
      destruct (Langau.any_index _).
      * inv_bind Ht1 as vals Hv. apply setitem_Returns in Ht1 as [_ ->].
        by rewrite length_insert.
      * by inversion Ht1; subst.
    + by inversion Hrun; subst.
  - simpl. unfold np_zeros. by rewrite length_replicate.
Qed.

End HistErrors.

(* ===================================================================== *)
(** ** class langau: the refit loop *)
(* ===================================================================== *)

Section FitLoop.
Context {F : Type} {NP : Numpy F} {Cov LibErr : Type}.
Variable curve_fit :
  list F -> list F -> F * F * F * F -> LibErr + F * F * F * F * Cov.

Lemma fit_loop_enough_fuel (xdata ydata : list F) (k : nat) :
  forall iter p0 oldmpv, iter + k = 50 ->
  exists r,
    (forall fuel, k < fuel ->
       Langau.fit_loop curve_fit fuel xdata ydata iter p0 oldmpv = Some r) /\
    fit_result_ok iter r.
Proof.
  induction k as [|k IH]; intros iter p0 oldmpv Hk.
  - assert (iter = 50) by lia. subst iter.
    destruct (curve_fit xdata ydata p0) as [e|[coeff pcov]] eqn:Hfit.
    + exists (inl e). split; [|done].
      intros [|fuel] Hf; [lia|]. simpl. by rewrite Hfit.
    + exists (inr (coeff, pcov, 51, true)). split.
      * intros [|fuel] Hf; [lia|]. simpl. by rewrite Hfit.
      * simpl. split; [lia | done].
  - assert (Hlt : (50 <? S iter) = false) by (apply Nat.ltb_ge; lia).
    destruct (curve_fit xdata ydata p0) as [e|[coeff pcov]] eqn:Hfit.
    { exists (inl e). split; [|done].
      intros [|fuel] Hf; [lia|]. simpl. by rewrite Hfit. }
    destruct (fgt (fabs (fsub coeff.1.1.1 oldmpv)) (fof_nat 100)) eqn:Hmoved.
    + destruct (IH (S iter) coeff coeff.1.1.1) as (r & Hr & Hok); [lia|].
      exists r. split.
      * intros [|fuel] Hf; [lia|]. simpl. rewrite Hfit. simpl.
        rewrite Hmoved, Hlt. simpl. apply Hr. lia.
      * destruct r as [e|[[[c pc] it] w]]; [done|]. simpl in *.
        destruct Hok as [Hit Hw]. split; [lia | done].
    + exists (inr (coeff, pcov, S iter, false)). split.
      * intros [|fuel] Hf; [lia|]. simpl. rewrite Hfit. simpl.
        by rewrite Hmoved, Hlt.
      * simpl. split; [lia|]. by rewrite Hlt.
Qed.

(** X18: the refit loop of [fit_langau] ends whatever the fitting routine
    returns: 51 passes always suffice (more fuel gives the same result), so
    [curve_fit] is called at least once and at most 51 times; the result
    carries the coefficients of the last call, and the warning "not
    converged" is issued exactly when the 51st call was made - also when
    that call did meet the convergence test. *)
Theorem fit_loop_stops_within_51_fits (xdata ydata : list F)
    (p0 : F * F * F * F) (oldmpv : F) :
  exists r,
    (forall fuel, 51 <= fuel ->
       Langau.fit_loop curve_fit fuel xdata ydata 0 p0 oldmpv = Some r) /\
    match r with
    | inr (_, _, iter, warned) =>
        1 <= iter <= 51 /\ warned = (50 <? iter)
    | inl _ => True
    end.
Proof.
  destruct (fit_loop_enough_fuel xdata ydata 50 0 p0 oldmpv) as (r & Hr & Hok);
    [done|].
  exists r. split; [intros fuel Hf; apply Hr; lia|].
  destruct r as [e|[[[c pc] it] w]]; [done|]. simpl in Hok. done.
Qed.

Variable np_histogram : list F -> nat -> LibErr + list F * list F.

(** X19: [fit_langau] always ends (51 passes of the loop suffice, more give
    the same result).  An exception of [np.histogram] ends it at once; on
    the histogram [(hist, edges)] it raises what [calc_hist_errors] raises
    on the edges, before any fit is made; and when it returns, the counts
    it returns are those of the histogram and the bin errors those of
    [calc_hist_errors]. *)
Theorem fit_langau_ends (x errors : list F) (ind_xmin bins : nat) :
  exists r,
    (forall fuel, 51 <= fuel ->
       Langau.fit_langau np_histogram curve_fit fuel x errors ind_xmin bins
       = Some r) /\
    (forall e, np_histogram x bins = inl e ->
       r = Langau.LibraryRaised _ e) /\
    (forall hist edges e, np_histogram x bins = inr (hist, edges) ->
       Langau.calc_hist_errors x errors edges = Raises e ->
       r = Langau.Raised _ e) /\
    (forall coeff pcov hist binerror,
       r = Langau.Value _ (coeff, pcov, hist, binerror) ->
       exists edges,
         np_histogram x bins = inr (hist, edges) /\
         Langau.calc_hist_errors x errors edges = Returns binerror).
Proof.
  unfold Langau.fit_langau.
  destruct (np_histogram x bins) as [e|[hist edges]].
  { exists (Langau.LibraryRaised _ e). split; [done|].
    split; [by intros ? [= ->]|]. split; [done|]. done. }
  destruct (Langau.calc_hist_errors x errors edges) as [binerror|e] eqn:Hce.
  2: { exists (Langau.Raised _ e). split; [done|]. split; [done|].
       split; [|done]. intros ? ? e' [= <- <-]. rewrite Hce.
       by intros [= ->]. }
  destruct (fit_loop_enough_fuel
              (drop ind_xmin (take (length edges - 1) edges))
              (drop ind_xmin hist) 50 0
              (fof_nat (170 * 100), fof_nat 6, fof_nat 2, fof_nat 800)
              (fof_nat 0)) as (r & Hr & _); [done|].
  destruct r as [e|[[[c pc] it] w]].
  - exists (Langau.LibraryRaised _ e). split.
    + intros fuel Hf. rewrite Hr by lia. done.
    + split; [done|]. split; [|done].
      intros ? ? e' [= <- <-]. by rewrite Hce.
  - exists (Langau.Value _ (c, pc, hist, binerror)). split.
    + intros fuel Hf. rewrite Hr by lia. done.
    + split; [done|]. split.
      * intros ? ? e' [= <- <-]. by rewrite Hce.
      * intros ? ? ? ? [= <- <- <- <-]. by exists edges.
Qed.

End FitLoop.

(* ===================================================================== *)
(** ** The theorems above on concrete runs *)
(* ===================================================================== *)

Lemma float64_gt_zero_asym (a : float) :
  PrimFloat.ltb 0 a = true -> PrimFloat.ltb a 0 = false.
Proof.
  intros Hgt. destruct (PrimFloat.ltb a 0) eqn:Hlt; [|done].
  apply float64_lt_zero_asym in Hlt. congruence.
Qed.

Lemma clustering_channels_ascending_witness :
  let s := clustering_self 6 true 5 in
  StronglySorted lt [3; 4] /\
  Forall (fun ch => ch ∈ EventAnalysis.seed_channels s mixed_sign_signal /\
                    ch < length mixed_sign_signal) [3; 4] /\
  1 = 0 + (length (EventAnalysis.seed_channels s mixed_sign_signal)
           - length [3; 4]) /\
  1 <= length [3; 4].
Proof.
  refine (clustering_channels_ascending (clustering_self 6 true 5)
            (EventAnalysis.set_automasked_hit (clustering_self 6 true 5) 1)
            mixed_sign_signal mixed_sign_signal
            [3; 4] [[3; 4]] 1 [2] _).
  reflexivity.
Defined.

Lemma clustering_without_seed_witness :
  EventAnalysis.clustering (clustering_self 4 true 5)
    [1; 2; 3; 4]%float [1; -2; 3; 0]%float
  = Returns (clustering_self 4 true 5, ([], [], 0, [])).
Proof.
  apply (clustering_without_seed (clustering_self 4 true 5)
           [1; 2; 3; 4]%float [1; -2; 3; 0]%float).
  repeat constructor.
Defined.

Lemma clustering_masking_off_witness :
  [2; 3; 6] = EventAnalysis.seed_channels (clustering_self 8 false 5)
                weak_pair_SN /\
  clustering_self 8 false 5 = clustering_self 8 false 5.
Proof.
  refine (clustering_masking_off (clustering_self 8 false 5)
            (clustering_self 8 false 5) weak_pair_signal weak_pair_SN
            [2; 3; 6] [[6]] 1 [1] _ _); reflexivity.
Defined.

Lemma clustering_masks_negative_witness :
  let s := clustering_self_other_polarity 6 in
  let event := [0; 0; -20; 30; 200; 0]%float in
  [3; 4] = List.filter (fun ch => negb (negative_at event ch))
                       (EventAnalysis.seed_channels s event) /\
  1 = 0 + length (List.filter (negative_at event)
                    (EventAnalysis.seed_channels s event)) /\
  (forall cl c, cl ∈ [[3; 4]] -> c ∈ cl -> negative_at event c = false).
Proof.
  refine (clustering_masks_negative (clustering_self_other_polarity 6)
            (EventAnalysis.set_automasked_hit
               (clustering_self_other_polarity 6) 1)
            [0; 0; -20; 30; 200; 0]%float [0; 0; -20; 30; 200; 0]%float
            [3; 4] [[3; 4]] 1 [2] _ _ _ _).
  - exact float64_gt_zero_asym.
  - reflexivity.
  - reflexivity.
  - reflexivity.
Defined.

Lemma clustering_neighbours_within_bounds_witness :
  let s := clustering_self 4 false 2 in
  Forall (fun cl => exists seed rest,
            cl = seed :: rest /\
            Forall (neighbour_of s seed) rest /\
            Forall (fun c => 0 < c < EventAnalysis.numchan s) rest /\
            (seed <= 1 \/ EventAnalysis.numchan s <= seed + 1 -> rest = []))
         [[2; 3; 1]].
Proof.
  refine (clustering_neighbours_within_bounds (clustering_self 4 false 2)
            (clustering_self 4 false 2)
            [0; -30; -100; -30]%float [0; -3; -10; -3]%float
            [2] [[2; 3; 1]] 1 [3] _).
  reflexivity.
Defined.

Lemma clustering_never_out_of_range_witness :
  exists s' channels clusters n sizes,
    EventAnalysis.clustering (clustering_self 8 false 5)
      weak_pair_signal weak_pair_SN
    = Returns (s', (channels, clusters, n, sizes)).
Proof.
  apply (clustering_never_out_of_range (clustering_self 8 false 5)
           weak_pair_signal weak_pair_SN); reflexivity.
Defined.

(** [two_hits] analysed with one array, [[7; 7]], already in the store. *)
Lemma do_analysis_hitmap_counts_seed_hits_witness :
  let s := EventAnalysis.init 4 run_kwargs in
  exists s' st' prodata,
    EventAnalysis.do_analysis s [[7; 7]%float] two_hits [1; 1]%float
      = Returns (s', st', prodata) /\
    map EventAnalysis.r_channels_hit prodata = [[3]; [0]] /\
    exists h,
      st' !! 1 = Some h /\ length h = 4 /\
      forall c, c < 4 ->
        h !! c = Some (Nat.iter
                         (count_occ Nat.eq_dec
                            (concat (map EventAnalysis.r_channels_hit prodata))
                            c)
                         (fun x => fadd x (fof_nat 1)) fzero).
Proof.
  eexists _, _, _. split; [reflexivity|]. split; [reflexivity|].
  refine (do_analysis_hitmap_counts_seed_hits
            (EventAnalysis.init 4 run_kwargs) _ [[7; 7]%float] _ two_hits
            [1; 1]%float _ _).
  reflexivity.
Defined.

Lemma do_analysis_keeps_earlier_arrays_witness :
  let s := EventAnalysis.init 4 run_kwargs in
  exists s' st' prodata,
    EventAnalysis.do_analysis s [[7; 7]%float] two_hits [1; 1]%float
      = Returns (s', st', prodata) /\
    length st' = 2 /\
    forall k a, [[7; 7]%float] !! k = Some a -> st' !! k = Some a.
Proof.
  eexists _, _, _. split; [reflexivity|].
  refine (do_analysis_keeps_earlier_arrays
            (EventAnalysis.init 4 run_kwargs) _ [[7; 7]%float] _ two_hits
            [1; 1]%float _ _).
  reflexivity.
Defined.

(** The timing vector [[0; 5]]: one event in time, row 0 processed. *)
Lemma do_analysis_results_follow_rows_witness :
  let s := EventAnalysis.init 4 run_kwargs in
  exists s' st' prodata,
    EventAnalysis.do_analysis s [] two_hits [0; 5]%float
      = Returns (s', st', prodata) /\
    length prodata = 1 /\
    EventAnalysis.events s' = 0 + 1 /\
    forall k r, prodata !! k = Some r ->
      EventAnalysis.r_hitmap r = 0 /\
      exists raw cmn cmsig,
        rows two_hits !! k = Some raw /\
        EventAnalysis.process_event raw (EventAnalysis.pedestal s)
          (np_mean (EventAnalysis.CMN s)) (np_mean (EventAnalysis.CMsig s))
          (EventAnalysis.noise s) (EventAnalysis.numchan s)
        = Returns (EventAnalysis.r_signal r, EventAnalysis.r_SN r, cmn, cmsig).
Proof.
  eexists _, _, _. split; [reflexivity|].
  refine (do_analysis_results_follow_rows
            (EventAnalysis.init 4 run_kwargs) _ [] _ two_hits
            [0; 5]%float _ _).
  reflexivity.
Defined.

Lemma do_analysis_returns_on_detector_shape_witness :
  exists s' st' prodata,
    EventAnalysis.do_analysis (EventAnalysis.init 4 run_kwargs) [] two_hits
      [1; 1]%float = Returns (s', st', prodata).
Proof.
  apply (do_analysis_returns_on_detector_shape
           (EventAnalysis.init 4 run_kwargs) [] two_hits [1; 1]%float).
  - repeat constructor.
  - reflexivity.
  - reflexivity.
  - simpl. lia.
Defined.

(** Two good time stamps out of four: rows 2 and 3 stay zero. *)
Lemma noise_calc_fills_first_rows_witness :
  exists score CMnoise CMsig,
    OldNoiseAnalysis.noise_calc 2 swinging_batch [0; 0; 0; 0]%float 4 4
      = Returns (score, CMnoise, CMsig) /\
    length (rows score) = 4 /\ length CMnoise = 4 /\ length CMsig = 4 /\
    noise_filled swinging_batch [0; 0; 0; 0]%float 4 4 2
      (score, CMnoise, CMsig).
Proof.
  apply (noise_calc_fills_first_rows 2 swinging_batch [0; 0; 0; 0]%float 4 4).
  - lia.
  - simpl. lia.
  - repeat constructor.
  - reflexivity.
Defined.

Lemma detect_noisy_strips_mask_out_of_range_witness :
  NoiseAnalysis.detect_noisy_strips [7%Z] [1; 1; 1; 1]%float 5%float
  = Raises IndexError.
Proof.
  apply (detect_noisy_strips_mask_out_of_range [7%Z] [1; 1; 1; 1]%float
           5%float).
  apply Exists_cons_hd. simpl. lia.
Defined.

Lemma detect_noisy_strips_negative_mask_witness :
  exists good,
    NoiseAnalysis.detect_noisy_strips [(-1)%Z] [1; 1; 1; 1]%float 5%float
      = Returns (map Z.of_nat (high_noise [1; 1; 1; 1]%float 5%float)
                 ++ [(-1)%Z], good) /\
    StronglySorted lt good /\
    forall c, c ∈ good <->
      c < 4 /\ (c ∉ high_noise [1; 1; 1; 1]%float 5%float) /\
      (Z.of_nat c ∉ [(-1)%Z]) /\ ((Z.of_nat c - 4)%Z ∉ [(-1)%Z]).
Proof.
  apply (detect_noisy_strips_negative_mask [(-1)%Z] [1; 1; 1; 1]%float
           5%float); [done|].
  apply Forall_singleton. simpl. lia.
Defined.

(** Three data points, edges 0, 1, 2: the first bin holds only [x[0]]. *)
Lemma calc_hist_errors_bins_witness :
  let x := [0.5; 1.5; 1.75]%float in
  let errors := [1; 2; 4]%float in
  exists b0 b1 eb,
    [0; 1; 2]%float !! 0 = Some b0 /\ [0; 1; 2]%float !! 1 = Some b1 /\
    Langau.calc_hist_errors x errors [0; 1; 2]%float = Returns eb /\
    length eb = 2 /\
    (forall k b, [0; 1]%float !! k = Some b ->
       eb !! k = Some (bin_error x errors (fsub b1 b0) b)) /\
    (forall k b, [0; 1]%float !! k = Some b ->
       Langau.ind_where_bin x (fsub b1 b0) b = [0] -> eb !! k = Some fzero).
Proof.
  refine (calc_hist_errors_bins [0.5; 1.5; 1.75]%float [1; 2; 4]%float
            [0; 1]%float 2%float _ _ _ _).
  - discriminate.
  - repeat constructor.
  - reflexivity.
  - simpl. lia.
Defined.

Example hist_errors_first_point_alone :
  Langau.calc_hist_errors [0.5; 1.5; 1.75]%float [1; 2; 4]%float
    [0; 1; 2]%float = Returns [0; 3]%float.
Proof. reflexivity. Qed.

(* ===================================================================== *)
(** ** clustering: a channel below the limit stops the search on its side *)
(* ===================================================================== *)

Section Stops.
Context {F : Type} {NP : Numpy F}.
Import EventAnalysis.

Lemma examine_stopped (s : self F) (SN : list F) (valid_ind : list nat)
    (c : nat) (cl : list nat) (us : list bool) (sz : nat)
    (cl' : list nat) (us' : list bool) (sz' : nat) (stop' : bool) :
  examine s SN valid_ind c true cl us sz = Returns (cl', us', sz', stop') ->
  cl' = cl /\ stop' = true.
Proof.
  unfold examine. intros E.
  inv_bind E as sn Hsn. inv_bind E as free Hfree.
  rewrite !andb_false_r in E. inv_bind E as sn' Hsn'.
  destruct (flt (fabs sn') _); by inversion E.
Qed.

Lemma examine_below_limit (s : self F) (SN : list F) (valid_ind : list nat)
    (c : nat) (stop : bool) (cl : list nat) (us : list bool) (sz : nat)
    (cl' : list nat) (us' : list bool) (sz' : nat) (stop' : bool) :
  below_limit s SN c ->
  examine s SN valid_ind c stop cl us sz = Returns (cl', us', sz', stop') ->
  cl' = cl /\ stop' = true.
Proof.
  intros (sn0 & Hsn0 & Hgt & Hlt). unfold examine. intros E.
  rewrite (proj2 (getitem_Returns _ _ _) Hsn0), Returns_bind in E.
  rewrite Hgt in E. rewrite Returns_bind in E. simpl in E.
  rewrite ?Returns_bind, Hlt in E.
  by inversion E.
Qed.

Lemma examine_cluster (s : self F) (SN : list F) (valid_ind : list nat)
    (c : nat) (stop : bool) (cl : list nat) (us : list bool) (sz : nat)
    (cl' : list nat) (us' : list bool) (sz' : nat) (stop' : bool) :
  examine s SN valid_ind c stop cl us sz = Returns (cl', us', sz', stop') ->
  cl' = cl \/ cl' = cl ++ [c].
Proof.
  intros E. apply examine_Returns in E as [(-> & _)|(-> & _)]; auto.
Qed.

(** One pass of the search: the channels it adds, and the stop flags it
    leaves. *)
Lemma grow_body_sides (s : self F) (SN : list F) (valid_ind : list nat)
    (ch : nat) (g g' : growth) (i : nat) :
  grow_body s SN valid_ind ch g i = Returns g' ->
  (exists added, cluster g' = cluster g ++ added /\
     forall c, c ∈ added ->
       0 < ch - i /\ ch + i < numchan s /\
       ((c = ch + i /\ right_stop g = false /\ ~ below_limit s SN (ch + i)) \/
        (c = ch - i /\ left_stop g = false /\ ~ below_limit s SN (ch - i)))) /\
  (right_stop g = true -> right_stop g' = true) /\
  (left_stop g = true -> left_stop g' = true) /\
  (0 < ch - i -> ch + i < numchan s ->
   (below_limit s SN (ch + i) -> right_stop g' = true) /\
   (below_limit s SN (ch - i) -> left_stop g' = true)).
Proof.
  intros E. unfold grow_body in E.
  destruct ((0 <? ch - i) && (ch + i <? numchan s)) eqn:Hguard.
  2: { inversion E; subst. split.
       { exists []. rewrite app_nil_r. split; [done|].
         intros c Hc. by apply elem_of_nil in Hc. }
       split; [done|]. split; [done|].
       intros Hlo Hhi. apply andb_false_iff in Hguard as [H|H].
       - apply Nat.ltb_ge in H. lia.
       - apply Nat.ltb_ge in H. lia. }
  apply andb_true_iff in Hguard as [Hlo Hhi].
  apply Nat.ltb_lt in Hlo, Hhi.
  inv_bind E as r1 Hr1. destruct r1 as [[[cl1 us1] sz1] rs].
  inv_bind E as r2 Hr2. destruct r2 as [[[cl2 us2] sz2] ls].
  inversion E; subst g'; simpl.
  assert (R1 : exists a1, cl1 = cluster g ++ a1 /\
               forall c, c ∈ a1 ->
                 c = ch + i /\ right_stop g = false /\
                 ~ below_limit s SN (ch + i)).
  { destruct (examine_cluster _ _ _ _ _ _ _ _ _ _ _ _ Hr1) as [->|Hcl].
    { exists []. rewrite app_nil_r. split; [done|].
      intros c Hc. by apply elem_of_nil in Hc. }
    exists [ch + i]. split; [done|]. intros c Hc.
    apply list_elem_of_singleton in Hc. split; [done|]. split.
    - destruct (right_stop g) eqn:Hs; [|done].
      apply examine_stopped in Hr1 as [Hc' _]. rewrite Hcl in Hc'.
      apply (f_equal length) in Hc'. rewrite length_app in Hc'.
      simpl in Hc'. lia.
    - intros Hb. apply (examine_below_limit _ _ _ _ _ _ _ _ _ _ _ _ Hb) in Hr1
        as [Hc' _]. rewrite Hcl in Hc'.
      apply (f_equal length) in Hc'. rewrite length_app in Hc'.
      simpl in Hc'. lia. }
  assert (R2 : exists a2, cl2 = cl1 ++ a2 /\
               forall c, c ∈ a2 ->
                 c = ch - i /\ left_stop g = false /\
                 ~ below_limit s SN (ch - i)).
  { destruct (examine_cluster _ _ _ _ _ _ _ _ _ _ _ _ Hr2) as [->|Hcl].
    { exists []. rewrite app_nil_r. split; [done|].
      intros c Hc. by apply elem_of_nil in Hc. }
    exists [ch - i]. split; [done|]. intros c Hc.
    apply list_elem_of_singleton in Hc. split; [done|]. split.
    - destruct (left_stop g) eqn:Hs; [|done].
      apply examine_stopped in Hr2 as [Hc' _]. rewrite Hcl in Hc'.
      apply (f_equal length) in Hc'. rewrite length_app in Hc'.
      simpl in Hc'. lia.
    - intros Hb. apply (examine_below_limit _ _ _ _ _ _ _ _ _ _ _ _ Hb) in Hr2
        as [Hc' _]. rewrite Hcl in Hc'.
      apply (f_equal length) in Hc'. rewrite length_app in Hc'.
      simpl in Hc'. lia. }
  destruct R1 as (a1 & -> & Ha1). destruct R2 as (a2 & -> & Ha2).
  split; [|split; [|split]].
  - exists (a1 ++ a2). rewrite <- app_assoc. split; [done|].
    intros c Hc. split; [done|]. split; [done|].
    apply elem_of_app in Hc as [Hc|Hc]; [left; by apply Ha1|right; by apply Ha2].
  - intros Hs. rewrite Hs in Hr1. by apply examine_stopped in Hr1 as [_ ->].
  - intros Hs. rewrite Hs in Hr2. by apply examine_stopped in Hr2 as [_ ->].
  - intros _ _. split; intros Hb.
    + by apply (examine_below_limit _ _ _ _ _ _ _ _ _ _ _ _ Hb) in Hr1 as [_ ->].
    + by apply (examine_below_limit _ _ _ _ _ _ _ _ _ _ _ _ Hb) in Hr2 as [_ ->].
Qed.

Lemma grow_body_searched (s : self F) (SN : list F) (valid_ind : list nat)
    (ch k : nat) (g g' : growth) :
  searched s SN ch k g ->
  grow_body s SN valid_ind ch g (S k) = Returns g' ->
  searched s SN ch (S k) g'.
Proof.
  intros (rest & Hcl & Hnear & Hstop) E.
  destruct (grow_body_sides _ _ _ _ _ _ _ E)
    as ((added & Hcl' & Hadded) & Hrs & Hls & Hnew).
  exists (rest ++ added). split; [by rewrite Hcl', Hcl|]. split.
  - intros c Hc. apply elem_of_app in Hc as [Hc|Hc].
    + apply Hnear in Hc. lia.
    + destruct (Hadded c Hc) as (Hlo & Hhi & [(-> & _)|(-> & _)]); lia.
  - intros i Hi Hlo Hhi. destruct (decide (i = S k)) as [->|Hne].
    + destruct (Hnew Hlo Hhi) as [Hr Hl]. split; intros Hb.
      * split; [by apply Hr|]. intros c Hc.
        apply elem_of_app in Hc as [Hc|Hc].
        -- apply Hnear in Hc. lia.
        -- destruct (Hadded c Hc) as (_ & _ & [(-> & _ & Hn)|(-> & _)]);
             [done | lia].
      * split; [by apply Hl|]. intros c Hc.
        apply elem_of_app in Hc as [Hc|Hc].
        -- apply Hnear in Hc. lia.
        -- destruct (Hadded c Hc) as (_ & _ & [(-> & _)|(-> & _ & Hn)]);
             [lia | done].
    + assert (Hik : 1 <= i <= k) by lia.
      destruct (Hstop i Hik Hlo Hhi) as [Hr Hl]. split; intros Hb.
      * destruct (Hr Hb) as [Hrs' Hlt]. split; [by apply Hrs|].
        intros c Hc. apply elem_of_app in Hc as [Hc|Hc]; [by apply Hlt|].
        destruct (Hadded c Hc) as (_ & _ & [(-> & Hf & _)|(-> & _)]);
          [congruence | lia].
      * destruct (Hl Hb) as [Hls' Hgt]. split; [by apply Hls|].
        intros c Hc. apply elem_of_app in Hc as [Hc|Hc]; [by apply Hgt|].
        destruct (Hadded c Hc) as (_ & _ & [(-> & _)|(-> & Hf & _)]);
          [lia | congruence].
Qed.

Lemma grow_searched (s : self F) (SN : list F) (valid_ind : list nat)
    (ch : nat) (us0 : list bool) (g : growth) :
  grow s SN valid_ind ch us0 = Returns g ->
  searched s SN ch (offset s) g.
Proof.
  unfold grow. generalize (offset s) as n. intros n. revert g.
  induction n as [|n IH]; intros g E.
  - simpl in E. inversion E; subst. exists []. simpl. split; [done|].
    split; [intros c Hc; by apply elem_of_nil in Hc | intros; lia].
  - rewrite seq_S, foldM_snoc in E. inv_bind E as g0 Hg0.
    apply IH in Hg0. simpl in E. by eapply grow_body_searched.
Qed.

Lemma seed_loop_stops (s : self F) (event SN : list F)
    (channels valid_ind : list nat) (st0 st : cl_state) :
  ghost_candidates st0 = [] ->
  foldM (seed_step s event SN valid_ind) channels st0 = Returns st ->
  Forall (fun cb => exists seed rest,
            cb.1 = seed :: rest /\ stops_at_gaps s SN seed rest)
         (ghost_candidates st).
Proof.
  intros H0 E.
  apply (foldM_invariant _
           (fun st => Forall (fun cb => exists seed rest,
                         cb.1 = seed :: rest /\ stops_at_gaps s SN seed rest)
                       (ghost_candidates st))) in E;
    [done| |by rewrite H0].
  intros t ch t' _ Ht Hrun. unfold seed_step in Hrun.
  inv_bind Hrun as u Hu. destruct u; [by inversion Hrun; subst|].
  inv_bind Hrun as us Hus. inv_bind Hrun as g Hg.
  inv_bind Hrun as vals Hvals.
  apply grow_searched in Hg as (rest & Hcl & _ & Hstop).
  assert (Hgap : stops_at_gaps s SN ch rest).
  { intros i Hi Hlo Hhi. destruct (Hstop i Hi Hlo Hhi) as [Hr Hl].
    split; intros Hb; [by apply Hr | by apply Hl]. }
  destruct (accepts s vals); inversion Hrun; subst; simpl;
    (apply Forall_app; split; [done|]); apply Forall_singleton;
    by exists ch, rest.
Qed.

(** X20: in every returned cluster the search stops for good at a channel
    below the neighbour limit: if the channel [i] places to the right of
    the seed ([i] within the offset and passing the bounds test) has
    |S/N| below [SN_cut * SN_ratio], every channel of the cluster lies to
    the left of it, however large the S/N further right; and likewise to
    the left. *)
Theorem clustering_stops_at_gaps (s s' : self F) (event SN : list F)
    (channels : list nat) (clusters : list (list nat)) (n : nat)
    (sizes : list nat) :
  clustering s event SN = Returns (s', (channels, clusters, n, sizes)) ->
  Forall (fun cl => exists seed rest,
            cl = seed :: rest /\ stops_at_gaps s SN seed rest)
         clusters.
Proof.
  intros E. apply clustering_Returns in E as (st & Hrun & -> & _ & _).
  pose proof Hrun as Hrun'.
  apply clustering_run_Returns in Hrun' as (valid_ind & _ & Hs' & Hinv).
  destruct Hinv as (_ & _ & _ & Hcl & _ & _).
  unfold clustering_run in Hrun.
  inv_bind Hrun as r Hr. destruct r as [[chs vi] m].
  inv_bind Hrun as st0 Hst. inversion Hrun; subst st0 chs. clear Hrun.
  apply seed_loop_stops in Hst; [|done].
  rewrite Hcl. apply Forall_forall. intros cl Hin.
  apply list_elem_of_fmap in Hin as ([cl0 b] & -> & Hin). simpl.
  apply list_elem_of_In, filter_In in Hin as [Hin _].
  apply list_elem_of_In in Hin. rewrite Forall_forall in Hst.
  destruct (Hst _ Hin) as (seed & rest & Hc & Hgap). simpl in Hc.
  exists seed, rest. split; [done|]. exact Hgap.
Qed.

End Stops.

Lemma clustering_stops_at_gaps_witness :
  Forall (fun cl => exists seed rest,
            cl = seed :: rest /\
            stops_at_gaps (clustering_self 8 false 5) gap_SN seed rest)
         [[3; 2]].
Proof.
  refine (clustering_stops_at_gaps (clustering_self 8 false 5)
            (clustering_self 8 false 5) gap_signal gap_SN
            [3] [[3; 2]] 1 [2] _).
  reflexivity.
Defined.
